(** * AIOpsAnalyzer: the evidence -> decision -> dispatch pipeline

    A shallow embedding of the Go sources of boqier/AIOpsAnalyzer:

    - [GoJSON]      the part of Go's [encoding/json] the program relies on
                    (scanner, string unquoting, decoding into structs);
    - [LLM]         package [llm]: [PatchOp], [Target], [HealAction],
                    [NoopAction], [ParseJSONTo], [ParseAutoHealResponse];
    - [Card]        the four-field card of sendCard.go, [NewCardMessage] and
                    [CreateHealActionCardMessage];
    - [Feishu]      package [feishu] as the controller imports it;
    - [Controller]  [GetTargetPods], [FilterPodFields],
                    [GetTargetResourceYAML], [GetPrometheusAlerts],
                    [GetLokiLogs], [BuildEventString] and [Reconcile];
    - [Examples]    concrete responses, pods and clusters;
    - [Queries]     the query texts and request URLs of the alert and log
                    sources, [url.QueryEscape], [BuildLabelSelector];
    - [OpenAI]      the client of the reasoning service and its
                    [SendMessage];
    - [Runs]        clusters to run [Reconcile] against;
    - [Notions]     more vocabulary of the properties.

    The properties follow, one module for each component:
    [ResponseContract], [PodSnapshot], [TargetResolution],
    [EvidenceReport], [Dispatch]; then [ResponseDecoding],
    [ResponseText] and [ResponseErrors] on the response parser,
    [ResourceBlock] and [EvidenceSources] on the evidence report,
    [ReconcileOutcome] on a run of [Reconcile], and [Requests] on what
    is sent out.

    Strings are Go strings: sequences of bytes ([string] of [ascii]).
    A function returning [(T, error)] returns a [result T]; a function that
    can also panic returns an [outcome T]. *)

From Stdlib Require Import String Ascii List ZArith NArith Bool Lia DecimalString DecimalZ
  DecimalPos.
Import ListNotations.
Open Scope string_scope.

(* ===================================================================== *)
(** * Go values shared by all packages *)
(* ===================================================================== *)

(** Go's [error] values as the program builds them. [Error] is the
    method of the same name. The wording of a json error is the
    library's and is not reproduced: a syntax error carries a fixed text,
    a type error names the JSON kind and the field. *)
Inductive error : Type :=
| SyntaxError (msg : string)                  (* *json.SyntaxError *)
| UnmarshalTypeError (val field : string)     (* *json.UnmarshalTypeError *)
| errorString (msg : string)                  (* errors.New, fmt.Errorf without %w *)
| wrapError (msg : string) (err : error)      (* fmt.Errorf with %w *)
| externalError (msg : string).               (* an error of a collaborator *)

Definition Error (e : error) : string :=
  match e with
  | SyntaxError msg => msg
  | UnmarshalTypeError val field =>
      "json: cannot unmarshal " ++ val ++ " into Go value of field " ++ field
  | errorString msg => msg
  | wrapError msg _ => msg
  | externalError msg => msg
  end.

(** [fmt.Errorf(prefix + "%w", err)] *)
Definition Errorf_w (prefix : string) (err : error) : error :=
  wrapError (prefix ++ Error err) err.

(** [fmt.Errorf(prefix + "%s", s)] *)
Definition Errorf_s (prefix s : string) : error :=
  errorString (prefix ++ s).

(** [(T, error)] *)
Inductive result (A : Type) : Type :=
| OK (a : A)
| Err (e : error).
Arguments OK {A} a.
Arguments Err {A} e.

Definition rbind {A B} (r : result A) (k : A -> result B) : result B :=
  match r with
  | OK a => k a
  | Err e => Err e
  end.

(** A call that returns, returns an error, or panics. *)
Inductive runtime_error : Type :=
| IndexOutOfRange (index len : Z).     (* index out of range [index] with length len *)

Inductive outcome (A : Type) : Type :=
| Return (a : A)
| Fails (e : error)
| Panics (p : runtime_error).
Arguments Return {A} a.
Arguments Fails {A} e.
Arguments Panics {A} p.

Definition obind {A B} (o : outcome A) (k : A -> outcome B) : outcome B :=
  match o with
  | Return a => k a
  | Fails e => Fails e
  | Panics p => Panics p
  end.

Definition of_result {A} (r : result A) : outcome A :=
  match r with
  | OK a => Return a
  | Err e => Fails e
  end.

Declare Scope go_scope.
Delimit Scope go_scope with go.
Notation "x <- r ;; k" := (rbind r (fun x => k))
  (at level 61, r at next level, right associativity) : go_scope.
Notation "x <~ o ;; k" := (obind o (fun x => k))
  (at level 61, o at next level, right associativity) : go_scope.

(** [s[i]] on a slice: a panic when [i] is out of range. *)
Definition index {A} (s : list A) (i : Z) : outcome A :=
  if (i <? 0)%Z then Panics (IndexOutOfRange i (Z.of_nat (length s)))
  else
    match nth_error s (Z.to_nat i) with
    | Some x => Return x
    | None => Panics (IndexOutOfRange i (Z.of_nat (length s)))
    end.

Definition len {A} (s : list A) : Z := Z.of_nat (length s).

(** The line feed, which Go writes [\n]. *)
Definition nl : string := String (ascii_of_nat 10) EmptyString.

(** The double quote character, and a way to write JSON texts readably:
    [dq] turns every apostrophe of its argument into a double quote. *)
Definition quote : ascii := ascii_of_nat 34.

Fixpoint dq (s : string) : string :=
  match s with
  | EmptyString => EmptyString
  | String c r => String (if Ascii.eqb c "'" then quote else c) (dq r)
  end.

(* ===================================================================== *)
(** * encoding/json *)
(* ===================================================================== *)

Module GoJSON.

(** A JSON text as a tree. A number keeps its literal; an object keeps its
    members in document order, duplicates included. *)
#[local] Unset Elimination Schemes.
Inductive value : Type :=
| Null
| Bool (b : bool)
| Number (lit : string)
| Str (s : string)
| Array (elems : list value)
| Object (members : list (string * value)).
#[local] Set Elimination Schemes.

Definition code (c : ascii) : N := N_of_ascii c.

Definition in_range (lo hi : N) (c : ascii) : bool :=
  (lo <=? code c)%N && (code c <=? hi)%N.

Definition is_digit (c : ascii) : bool := in_range 48 57 c.
Definition is_digit19 (c : ascii) : bool := in_range 49 57 c.

Definition hex_val (c : ascii) : option N :=
  if in_range 48 57 c then Some (code c - 48)%N
  else if in_range 97 102 c then Some (code c - 87)%N
  else if in_range 65 70 c then Some (code c - 55)%N
  else None.

(** scanner.go, [isSpace] *)
Definition isSpace (c : ascii) : bool :=
  match code c with
  | 32%N | 9%N | 13%N | 10%N => true
  | _ => false
  end.

(** ** Unquoting a string literal (decode.go, [unquoteBytes]) *)

Definition byte (n : N) : ascii := ascii_of_N n.

(** [utf8.EncodeRune]; a surrogate or a rune above U+10FFFF encodes as
    U+FFFD. *)
Definition EncodeRune (r : N) : string :=
  if (r <? 128)%N then String (byte r) ""
  else if (r <? 2048)%N then
    String (byte (192 + r / 64)) (String (byte (128 + r mod 64)) "")
  else if ((55296 <=? r) && (r <? 57344))%N || (1114111 <? r)%N then
    String (byte 239) (String (byte 191) (String (byte 189) ""))
  else if (r <? 65536)%N then
    String (byte (224 + r / 4096))
      (String (byte (128 + (r / 64) mod 64)) (String (byte (128 + r mod 64)) ""))
  else
    String (byte (240 + r / 262144))
      (String (byte (128 + (r / 4096) mod 64))
         (String (byte (128 + (r / 64) mod 64)) (String (byte (128 + r mod 64)) ""))).

Definition RuneError : string := EncodeRune 65533.

Definition cont (lo hi : N) (c : ascii) : bool := in_range lo hi c.

(** The bytes of a string literal as [utf8.DecodeRune] reads them: a
    well-formed sequence is kept, every byte that starts none is replaced
    by U+FFFD. *)
Fixpoint sanitize (s : string) : string :=
  match s with
  | EmptyString => EmptyString
  | String b0 r0 =>
    if (code b0 <? 128)%N then String b0 (sanitize r0)
    else
      let bad := RuneError ++ sanitize r0 in
      match r0 with
      | EmptyString => bad
      | String b1 r1 =>
        if in_range 194 223 b0 then
          if cont 128 191 b1 then String b0 (String b1 (sanitize r1)) else bad
        else
          match r1 with
          | EmptyString => bad
          | String b2 r2 =>
            let lo1 := if (code b0 =? 224)%N then 160%N
                       else if (code b0 =? 240)%N then 144%N else 128%N in
            let hi1 := if (code b0 =? 237)%N then 159%N
                       else if (code b0 =? 244)%N then 143%N else 191%N in
            if in_range 224 239 b0 then
              if cont lo1 hi1 b1 && cont 128 191 b2
              then String b0 (String b1 (String b2 (sanitize r2))) else bad
            else
              match r2 with
              | EmptyString => bad
              | String b3 r3 =>
                if in_range 240 244 b0 && cont lo1 hi1 b1
                   && cont 128 191 b2 && cont 128 191 b3
                then String b0 (String b1 (String b2 (String b3 (sanitize r3))))
                else bad
              end
          end
      end
  end.

Definition is_high (r : N) : bool := ((55296 <=? r) && (r <? 56320))%N.
Definition is_low (r : N) : bool := ((56320 <=? r) && (r <? 57344))%N.

(** [utf16.DecodeRune] on a valid pair *)
Definition DecodePair (hi lo : N) : N :=
  ((hi - 55296) * 1024 + (lo - 56320) + 65536)%N.

Inductive unq_state : Type :=
| UPlain
| UEsc
| UHex (todo : nat) (acc : N).

Definition flush (pending : option N) : string :=
  match pending with
  | Some _ => RuneError
  | None => ""
  end.

Definition escape_char (c : ascii) : ascii :=
  match code c with
  | 98%N => byte 8       (* \b *)
  | 102%N => byte 12     (* \f *)
  | 110%N => byte 10     (* \n *)
  | 114%N => byte 13     (* \r *)
  | 116%N => byte 9      (* \t *)
  | _ => c               (* the quote, the backslash and the slash *)
  end.

(** The escapes of a literal the scanner has accepted. [pending] is a
    high surrogate read from a [\u] escape and not yet paired. *)
Fixpoint unescape (s : string) (st : unq_state) (pending : option N) : string :=
  match s with
  | EmptyString => flush pending
  | String c r =>
    match st with
    | UPlain =>
      if Ascii.eqb c "\" then unescape r UEsc pending
      else flush pending ++ String c (unescape r UPlain None)
    | UEsc =>
      if Ascii.eqb c "u" then unescape r (UHex 4 0) pending
      else flush pending ++ String (escape_char c) (unescape r UPlain None)
    | UHex todo acc =>
      let acc' := (acc * 16 + match hex_val c with Some v => v | None => 0 end)%N in
      match todo with
      | S (S todo') => unescape r (UHex (S todo') acc') pending
      | _ =>
        match pending with
        | Some hi =>
          if is_low acc' then EncodeRune (DecodePair hi acc') ++ unescape r UPlain None
          else if is_high acc' then RuneError ++ unescape r UPlain (Some acc')
          else RuneError ++ EncodeRune acc' ++ unescape r UPlain None
        | None =>
          if is_high acc' then unescape r UPlain (Some acc')
          else EncodeRune acc' ++ unescape r UPlain None
        end
      end
    end
  end.

Definition unquote (raw : string) : string := unescape (sanitize raw) UPlain None.

(** ** The scanner (scanner.go), in two layers: tokens, then nesting *)

Inductive token : Type :=
| TBeginObject | TEndObject | TBeginArray | TEndArray | TColon | TComma
| TStr (s : string)
| TNum (lit : string)
| TTrue | TFalse | TNull.

(** The states of a number literal: [stateNeg], [state0], [state1],
    [stateDot], [stateDot0], [stateE], [stateESign], [stateE0]. *)
Inductive num_state : Type := NNeg | N0 | N1 | NDot | NDot0 | NE | NESign | NE0.

Definition num_accepting (st : num_state) : bool :=
  match st with
  | N0 | N1 | NDot0 | NE0 => true
  | _ => false
  end.

Definition num_step (st : num_state) (c : ascii) : option num_state :=
  let e := Ascii.eqb c "e" || Ascii.eqb c "E" in
  match st with
  | NNeg => if Ascii.eqb c "0" then Some N0 else if is_digit19 c then Some N1 else None
  | N0 => if Ascii.eqb c "." then Some NDot else if e then Some NE else None
  | N1 => if is_digit c then Some N1
          else if Ascii.eqb c "." then Some NDot else if e then Some NE else None
  | NDot => if is_digit c then Some NDot0 else None
  | NDot0 => if is_digit c then Some NDot0 else if e then Some NE else None
  | NE => if Ascii.eqb c "+" || Ascii.eqb c "-" then Some NESign
          else if is_digit c then Some NE0 else None
  | NESign => if is_digit c then Some NE0 else None
  | NE0 => if is_digit c then Some NE0 else None
  end.

(** Strings under construction are kept reversed. *)
Fixpoint rev_string (s acc : string) : string :=
  match s with
  | EmptyString => acc
  | String c r => rev_string r (String c acc)
  end.

Inductive lex_state : Type :=
| LIdle
| LString (acc : string)
| LStringEsc (acc : string)
| LStringEscU (acc : string) (todo : nat)
| LNumber (acc : string) (st : num_state)
| LWord (rest : string) (tok : token).

(** [stateBeginValue] and the punctuation, on the first byte of a token *)
Definition idle_step (c : ascii) : option (lex_state * list token) :=
  if isSpace c then Some (LIdle, [])
  else if Ascii.eqb c "{" then Some (LIdle, [TBeginObject])
  else if Ascii.eqb c "}" then Some (LIdle, [TEndObject])
  else if Ascii.eqb c "[" then Some (LIdle, [TBeginArray])
  else if Ascii.eqb c "]" then Some (LIdle, [TEndArray])
  else if Ascii.eqb c ":" then Some (LIdle, [TColon])
  else if Ascii.eqb c "," then Some (LIdle, [TComma])
  else if Ascii.eqb c quote then Some (LString "", [])
  else if Ascii.eqb c "-" then Some (LNumber "-" NNeg, [])
  else if Ascii.eqb c "0" then Some (LNumber "0" N0, [])
  else if is_digit19 c then Some (LNumber (String c "") N1, [])
  else if Ascii.eqb c "t" then Some (LWord "rue" TTrue, [])
  else if Ascii.eqb c "f" then Some (LWord "alse" TFalse, [])
  else if Ascii.eqb c "n" then Some (LWord "ull" TNull, [])
  else None.

Definition is_escape (c : ascii) : bool :=
  match code c with
  | 98%N | 102%N | 110%N | 114%N | 116%N | 92%N | 47%N | 34%N => true
  | _ => false
  end.

Definition lex_step (st : lex_state) (c : ascii) : option (lex_state * list token) :=
  match st with
  | LIdle => idle_step c
  | LString acc =>                                        (* stateInString *)
    if Ascii.eqb c quote then Some (LIdle, [TStr (unquote (rev_string acc ""))])
    else if Ascii.eqb c "\" then Some (LStringEsc (String c acc), [])
    else if (code c <? 32)%N then None
    else Some (LString (String c acc), [])
  | LStringEsc acc =>                                     (* stateInStringEsc *)
    if is_escape c then Some (LString (String c acc), [])
    else if Ascii.eqb c "u" then Some (LStringEscU (String c acc) 4, [])
    else None
  | LStringEscU acc todo =>                               (* stateInStringEscU.. *)
    match hex_val c, todo with
    | Some _, S (S todo') => Some (LStringEscU (String c acc) (S todo'), [])
    | Some _, _ => Some (LString (String c acc), [])
    | None, _ => None
    end
  | LNumber acc nst =>
    match num_step nst c with
    | Some nst' => Some (LNumber (String c acc) nst', [])
    | None =>
      if num_accepting nst then
        match idle_step c with
        | Some (st', toks) => Some (st', TNum (rev_string acc "") :: toks)
        | None => None
        end
      else None
    end
  | LWord rest tok =>                                     (* stateT, stateTr, .. *)
    match rest with
    | String c' EmptyString => if Ascii.eqb c c' then Some (LIdle, [tok]) else None
    | String c' rest' => if Ascii.eqb c c' then Some (LWord rest' tok, []) else None
    | EmptyString => None
    end
  end.

(** The tokens of a text; [None] when a byte is refused or the text ends
    inside a token. *)
Fixpoint lex (s : string) (st : lex_state) : option (list token) :=
  match s with
  | EmptyString =>
    match st with
    | LIdle => Some []
    | LNumber acc nst => if num_accepting nst then Some [TNum (rev_string acc "")] else None
    | _ => None
    end
  | String c r =>
    match lex_step st c with
    | Some (st', toks) =>
      match lex r st' with
      | Some rest => Some (toks ++ rest)%list
      | None => None
      end
    | None => None
    end
  end.

(** The scanner run over the first part of a text: the state it is left
    in and the tokens it has produced. *)
Fixpoint lex_prefix (s : string) (st : lex_state) : option (lex_state * list token) :=
  match s with
  | EmptyString => Some (st, [])
  | String c r =>
    match lex_step st c with
    | Some (st', toks) =>
      match lex_prefix r st' with
      | Some (st'', rest) => Some (st'', (toks ++ rest)%list)
      | None => None
      end
    | None => None
    end
  end.

(** The nesting of values: the scanner's [parseState] stack, here with the
    values read so far. *)
Inductive frame : Type :=
| FArray (acc : list value)
| FObject (acc : list (string * value)) (key : option string).

Inductive mode : Type :=
| MValue         (* a value must start *)
| MArrayStart    (* after [[]: a value or []] *)
| MObjectStart   (* after [{]: a key or [}] *)
| MKey           (* after a comma in an object: a key *)
| MColon         (* after a key *)
| MAfter         (* after a value inside an array or object *)
| MDone (v : value).

Definition maxNestingDepth : N := 10000.

(** A value is complete: it goes to the enclosing array or object. *)
Definition complete (v : value) (stack : list frame) : option (list frame * mode) :=
  match stack with
  | [] => Some ([], MDone v)
  | FArray acc :: st => Some (FArray (v :: acc) :: st, MAfter)
  | FObject acc (Some k) :: st => Some (FObject ((k, v) :: acc) None :: st, MAfter)
  | FObject _ None :: _ => None
  end.

Definition push (f : frame) (m : mode) (stack : list frame) : option (list frame * mode) :=
  if (maxNestingDepth <? N.of_nat (S (length stack)))%N then None
  else Some (f :: stack, m).

Definition begin_value (t : token) (stack : list frame) : option (list frame * mode) :=
  match t with
  | TBeginObject => push (FObject [] None) MObjectStart stack
  | TBeginArray => push (FArray []) MArrayStart stack
  | TStr s => complete (Str s) stack
  | TNum lit => complete (Number lit) stack
  | TTrue => complete (Bool true) stack
  | TFalse => complete (Bool false) stack
  | TNull => complete Null stack
  | _ => None
  end.

Definition end_array (stack : list frame) : option (list frame * mode) :=
  match stack with
  | FArray acc :: st => complete (Array (rev acc)) st
  | _ => None
  end.

Definition end_object (stack : list frame) : option (list frame * mode) :=
  match stack with
  | FObject acc None :: st => complete (Object (rev acc)) st
  | _ => None
  end.

Definition set_key (k : string) (stack : list frame) : option (list frame * mode) :=
  match stack with
  | FObject acc None :: st => Some (FObject acc (Some k) :: st, MColon)
  | _ => None
  end.

Definition parse_step (stack : list frame) (m : mode) (t : token)
  : option (list frame * mode) :=
  match m, t with
  | MValue, _ => begin_value t stack
  | MArrayStart, TEndArray => end_array stack
  | MArrayStart, _ => begin_value t stack
  | MObjectStart, TEndObject => end_object stack
  | MObjectStart, TStr k => set_key k stack
  | MKey, TStr k => set_key k stack
  | MColon, TColon => Some (stack, MValue)
  | MAfter, TComma =>
    match stack with
    | FArray _ :: _ => Some (stack, MValue)
    | FObject _ _ :: _ => Some (stack, MKey)
    | [] => None
    end
  | MAfter, TEndArray => end_array stack
  | MAfter, TEndObject => end_object stack
  | _, _ => None
  end.

Fixpoint parse_tokens (ts : list token) (stack : list frame) (m : mode) : option value :=
  match ts with
  | [] => match m with MDone v => Some v | _ => None end
  | t :: rest =>
    match parse_step stack m t with
    | Some (stack', m') => parse_tokens rest stack' m'
    | None => None
    end
  end.

(** [checkValid] together with the tree the decoder walks: [None] is a
    syntax error. *)
Definition parse (s : string) : option value :=
  match lex s LIdle with
  | Some ts => parse_tokens ts [] MValue
  | None => None
  end.

(** ** Decoding into Go values (decode.go) *)

(** The name of a JSON value's kind in an [UnmarshalTypeError]. *)
Definition kind_name (v : value) : string :=
  match v with
  | Null => "null"
  | Bool _ => "bool"
  | Number _ => "number"
  | Str _ => "string"
  | Array _ => "array"
  | Object _ => "object"
  end.

(** fold.go, [foldName]: two keys name the same field when their folded
    names are equal. ASCII letters fold to upper case, U+017F (long s) to
    [S] and U+212A (Kelvin sign) to [K]; no other rune folds to an ASCII
    one, and the field names of this program are ASCII, so other bytes
    are left as they are. *)
Fixpoint foldName (s : string) : string :=
  match s with
  | EmptyString => EmptyString
  | String c r =>
    if in_range 97 122 c then String (byte (code c - 32)) (foldName r)
    else
      match r with
      | String c1 r1 =>
        if ((code c =? 197) && (code c1 =? 191))%N then String "S" (foldName r1)
        else
          match r1 with
          | String c2 r2 =>
            if ((code c =? 226) && (code c1 =? 132) && (code c2 =? 170))%N
            then String "K" (foldName r2)
            else String c (foldName r)
          | EmptyString => String c (foldName r)
          end
      | EmptyString => String c (foldName r)
      end
  end.

(** A struct field with a [json] tag: its name, and how a JSON value is
    stored into it. *)
Record field (T : Type) : Type := mkField {
  fname : string;
  fstore : value -> T -> result T
}.
Arguments mkField {T} fname fstore.
Arguments fname {T} f.
Arguments fstore {T} f.

(** The field a key selects: the one with exactly this name, otherwise
    the first whose name matches case-insensitively. *)
Definition find_field {T} (fs : list (field T)) (key : string) : option (field T) :=
  match find (fun f => String.eqb (fname f) key) fs with
  | Some f => Some f
  | None => find (fun f => String.eqb (foldName (fname f)) (foldName key)) fs
  end.

(** [decodeState.object] into a struct: members are stored in document
    order, a key that selects no field is skipped, and a later duplicate
    is stored over the earlier one. The first type error is the error of
    the whole decoding. *)
Fixpoint store_members {T} (fs : list (field T)) (ms : list (string * value)) (cur : T)
  : result T :=
  match ms with
  | [] => OK cur
  | (k, v) :: rest =>
    match find_field fs k with
    | None => store_members fs rest cur
    | Some f =>
      match fstore f v cur with
      | OK cur' => store_members fs rest cur'
      | Err e => Err e
      end
    end
  end.

(** A struct as the target: [null] leaves it as it is. *)
Definition store_struct {T} (where_ : string) (fs : list (field T)) (v : value) (cur : T)
  : result T :=
  match v with
  | Object ms => store_members fs ms cur
  | Null => OK cur
  | _ => Err (UnmarshalTypeError (kind_name v) where_)
  end.

(** A [string] as the target ([literalStore]): [null] leaves it as it is. *)
Definition store_string (where_ : string) (v : value) (cur : string) : result string :=
  match v with
  | Str s => OK s
  | Null => OK cur
  | _ => Err (UnmarshalTypeError (kind_name v) where_)
  end.

(** [decodeState.array] into a slice: element [i] is stored into the
    slice's element [i] when it has one, into a zero value otherwise;
    [null] sets the slice to nil. (A slice that shrank keeps stale
    elements in its backing array; they can only show through a key
    given three times, and are read as zero here.) *)
Fixpoint store_elems {T} (zero : T) (store : value -> T -> result T)
  (vs : list value) (cur : list T) : result (list T) :=
  match vs with
  | [] => OK []
  | v :: rest =>
    match store v (hd zero cur) with
    | OK x =>
      match store_elems zero store rest (tl cur) with
      | OK xs => OK (x :: xs)
      | Err e => Err e
      end
    | Err e => Err e
    end
  end.

Definition store_slice {T} (where_ : string) (zero : T) (store : value -> T -> result T)
  (v : value) (cur : list T) : result (list T) :=
  match v with
  | Array vs => store_elems zero store vs cur
  | Null => OK []
  | _ => Err (UnmarshalTypeError (kind_name v) where_)
  end.

(** A number literal as [mantissa digits * 10 ^ exponent]. *)
Record decimal : Type := mkDecimal {
  dec_digits : N;       (* the digits of the integer and fraction parts *)
  dec_count : Z;        (* how many digits that is *)
  dec_frac : Z;         (* how many of them follow the point *)
  dec_exp_neg : bool;
  dec_exp : N
}.

Inductive num_part : Type := PInt | PFrac | PExp.

Fixpoint read_decimal (s : string) (p : num_part) (d : decimal) : decimal :=
  match s with
  | EmptyString => d
  | String c r =>
    if Ascii.eqb c "." then read_decimal r PFrac d
    else if Ascii.eqb c "e" || Ascii.eqb c "E" then read_decimal r PExp d
    else if Ascii.eqb c "-" then
      read_decimal r p
        (match p with
         | PExp => mkDecimal (dec_digits d) (dec_count d) (dec_frac d) true (dec_exp d)
         | _ => d
         end)
    else if is_digit c then
      let v := (code c - 48)%N in
      read_decimal r p
        (match p with
         | PInt => mkDecimal (dec_digits d * 10 + v) (dec_count d + 1) (dec_frac d)
                     (dec_exp_neg d) (dec_exp d)
         | PFrac => mkDecimal (dec_digits d * 10 + v) (dec_count d + 1) (dec_frac d + 1)
                      (dec_exp_neg d) (dec_exp d)
         | PExp => mkDecimal (dec_digits d) (dec_count d) (dec_frac d)
                     (dec_exp_neg d) (dec_exp d * 10 + v)
         end)
    else read_decimal r p d
  end.

(** [strconv.ParseFloat(lit, 64)] fails (with [ErrRange]) exactly when the
    literal rounds to an infinity: when its magnitude is at least
    [2^1024 - 2^970], half an ulp above the largest float64. *)
Definition float64_overflows (lit : string) : bool :=
  let d := read_decimal lit PInt (mkDecimal 0 0 0 false 0) in
  let e := ((if dec_exp_neg d then - Z.of_N (dec_exp d) else Z.of_N (dec_exp d))
            - dec_frac d)%Z in
  let limit := (2 ^ 1024 - 2 ^ 970)%Z in
  if (dec_digits d =? 0)%N then false
  else if (0 <=? e)%Z then
    if (400 <? e)%Z then true else (limit <=? Z.of_N (dec_digits d) * 10 ^ e)%Z
  else
    if (dec_count d + e <? 300)%Z then false
    else (limit * 10 ^ (- e) <=? Z.of_N (dec_digits d))%Z.

(** An [any] as the target ([valueInterface]): every value is accepted,
    except that each number must fit a float64. The stored Go value is
    kept as the tree it was read from. *)
Fixpoint first_bad_number (v : value) : option string :=
  match v with
  | Number lit => if float64_overflows lit then Some lit else None
  | Array vs =>
    (fix go (l : list value) : option string :=
       match l with
       | [] => None
       | x :: r => match first_bad_number x with Some b => Some b | None => go r end
       end) vs
  | Object ms =>
    (fix go (l : list (string * value)) : option string :=
       match l with
       | [] => None
       | (_, x) :: r => match first_bad_number x with Some b => Some b | None => go r end
       end) ms
  | _ => None
  end.

Definition store_any (where_ : string) (v : value) (cur : value) : result value :=
  match first_bad_number v with
  | Some lit => Err (UnmarshalTypeError ("number " ++ lit) where_)
  | None => OK v
  end.

(** [json.Unmarshal(data, &x)] for a struct [x] with fields [fs] and
    current contents [zero]. *)
Definition Unmarshal {T} (where_ : string) (fs : list (field T)) (zero : T) (data : string)
  : result T :=
  match parse data with
  | None => Err (SyntaxError "invalid JSON text")
  | Some v => store_struct where_ fs v zero
  end.

End GoJSON.

(* ===================================================================== *)
(** * package llm: the response contract *)
(* ===================================================================== *)

Module LLM.
Import GoJSON.
Local Open Scope go_scope.

Record PatchOp : Type := mkPatchOp {
  PatchOp_Op : string;          (* json:"op" *)
  PatchOp_Path : string;        (* json:"path" *)
  PatchOp_Value : value         (* json:"value", an [any]; [Null] is nil *)
}.

Record Target : Type := mkTarget {
  Target_Kind : string;             (* json:"kind" *)
  Target_LabelSelector : string     (* json:"labelSelector" *)
}.

Record HealAction : Type := mkHealAction {
  HealAction_Namespace : string;              (* json:"namespace" *)
  HealAction_Action : string;                 (* json:"action" *)
  HealAction_Reason : string;                 (* json:"reason" *)
  HealAction_Detail : string;                 (* json:"detail" *)
  HealAction_PatchFile : string;              (* json:"patch_file" *)
  HealAction_PatchContent : list PatchOp;     (* json:"patch_content" *)
  HealAction_Target : Target;                 (* json:"target" *)
  HealAction_SuggestedDuration : string;      (* json:"suggested_duration" *)
  HealAction_RiskLevel : string               (* json:"risk_level" *)
}.

Record NoopAction : Type := mkNoopAction {
  NoopAction_Action : string;       (* json:"action" *)
  NoopAction_Reason : string        (* json:"reason" *)
}.

(** The struct [base] declared inside [ParseAutoHealResponse]. *)
Record base : Type := mkBase {
  base_Action : string;             (* json:"action" *)
  base_Reason : string              (* json:"reason" *)
}.

(** The zero values [var x T] starts from. *)
Definition zero_PatchOp : PatchOp := mkPatchOp "" "" Null.
Definition zero_Target : Target := mkTarget "" "".
Definition zero_HealAction : HealAction :=
  mkHealAction "" "" "" "" "" [] zero_Target "" "".
Definition zero_NoopAction : NoopAction := mkNoopAction "" "".
Definition zero_base : base := mkBase "" "".

(** The fields of each struct, in declaration order, with the store of
    each one. *)
Definition PatchOp_fields : list (field PatchOp) :=
  [ mkField "op" (fun v x =>
      s <- store_string "PatchOp.op" v (PatchOp_Op x) ;;
      OK (mkPatchOp s (PatchOp_Path x) (PatchOp_Value x)));
    mkField "path" (fun v x =>
      s <- store_string "PatchOp.path" v (PatchOp_Path x) ;;
      OK (mkPatchOp (PatchOp_Op x) s (PatchOp_Value x)));
    mkField "value" (fun v x =>
      a <- store_any "PatchOp.value" v (PatchOp_Value x) ;;
      OK (mkPatchOp (PatchOp_Op x) (PatchOp_Path x) a)) ].

Definition Target_fields : list (field Target) :=
  [ mkField "kind" (fun v x =>
      s <- store_string "Target.kind" v (Target_Kind x) ;;
      OK (mkTarget s (Target_LabelSelector x)));
    mkField "labelSelector" (fun v x =>
      s <- store_string "Target.labelSelector" v (Target_LabelSelector x) ;;
      OK (mkTarget (Target_Kind x) s)) ].

Definition HealAction_fields : list (field HealAction) :=
  [ mkField "namespace" (fun v x =>
      s <- store_string "HealAction.namespace" v (HealAction_Namespace x) ;;
      OK (mkHealAction s (HealAction_Action x) (HealAction_Reason x) (HealAction_Detail x)
            (HealAction_PatchFile x) (HealAction_PatchContent x) (HealAction_Target x)
            (HealAction_SuggestedDuration x) (HealAction_RiskLevel x)));
    mkField "action" (fun v x =>
      s <- store_string "HealAction.action" v (HealAction_Action x) ;;
      OK (mkHealAction (HealAction_Namespace x) s (HealAction_Reason x) (HealAction_Detail x)
            (HealAction_PatchFile x) (HealAction_PatchContent x) (HealAction_Target x)
            (HealAction_SuggestedDuration x) (HealAction_RiskLevel x)));
    mkField "reason" (fun v x =>
      s <- store_string "HealAction.reason" v (HealAction_Reason x) ;;
      OK (mkHealAction (HealAction_Namespace x) (HealAction_Action x) s (HealAction_Detail x)
            (HealAction_PatchFile x) (HealAction_PatchContent x) (HealAction_Target x)
            (HealAction_SuggestedDuration x) (HealAction_RiskLevel x)));
    mkField "detail" (fun v x =>
      s <- store_string "HealAction.detail" v (HealAction_Detail x) ;;
      OK (mkHealAction (HealAction_Namespace x) (HealAction_Action x) (HealAction_Reason x) s
            (HealAction_PatchFile x) (HealAction_PatchContent x) (HealAction_Target x)
            (HealAction_SuggestedDuration x) (HealAction_RiskLevel x)));
    mkField "patch_file" (fun v x =>
      s <- store_string "HealAction.patch_file" v (HealAction_PatchFile x) ;;
      OK (mkHealAction (HealAction_Namespace x) (HealAction_Action x) (HealAction_Reason x)
            (HealAction_Detail x) s (HealAction_PatchContent x) (HealAction_Target x)
            (HealAction_SuggestedDuration x) (HealAction_RiskLevel x)));
    mkField "patch_content" (fun v x =>
      l <- store_slice "HealAction.patch_content" zero_PatchOp
             (store_struct "HealAction.patch_content" PatchOp_fields)
             v (HealAction_PatchContent x) ;;
      OK (mkHealAction (HealAction_Namespace x) (HealAction_Action x) (HealAction_Reason x)
            (HealAction_Detail x) (HealAction_PatchFile x) l (HealAction_Target x)
            (HealAction_SuggestedDuration x) (HealAction_RiskLevel x)));
    mkField "target" (fun v x =>
      t <- store_struct "HealAction.target" Target_fields v (HealAction_Target x) ;;
      OK (mkHealAction (HealAction_Namespace x) (HealAction_Action x) (HealAction_Reason x)
            (HealAction_Detail x) (HealAction_PatchFile x) (HealAction_PatchContent x) t
            (HealAction_SuggestedDuration x) (HealAction_RiskLevel x)));
    mkField "suggested_duration" (fun v x =>
      s <- store_string "HealAction.suggested_duration" v (HealAction_SuggestedDuration x) ;;
      OK (mkHealAction (HealAction_Namespace x) (HealAction_Action x) (HealAction_Reason x)
            (HealAction_Detail x) (HealAction_PatchFile x) (HealAction_PatchContent x)
            (HealAction_Target x) s (HealAction_RiskLevel x)));
    mkField "risk_level" (fun v x =>
      s <- store_string "HealAction.risk_level" v (HealAction_RiskLevel x) ;;
      OK (mkHealAction (HealAction_Namespace x) (HealAction_Action x) (HealAction_Reason x)
            (HealAction_Detail x) (HealAction_PatchFile x) (HealAction_PatchContent x)
            (HealAction_Target x) (HealAction_SuggestedDuration x) s)) ].

Definition NoopAction_fields : list (field NoopAction) :=
  [ mkField "action" (fun v x =>
      s <- store_string "NoopAction.action" v (NoopAction_Action x) ;;
      OK (mkNoopAction s (NoopAction_Reason x)));
    mkField "reason" (fun v x =>
      s <- store_string "NoopAction.reason" v (NoopAction_Reason x) ;;
      OK (mkNoopAction (NoopAction_Action x) s)) ].

Definition base_fields : list (field base) :=
  [ mkField "action" (fun v x =>
      s <- store_string "base.action" v (base_Action x) ;;
      OK (mkBase s (base_Reason x)));
    mkField "reason" (fun v x =>
      s <- store_string "base.reason" v (base_Reason x) ;;
      OK (mkBase (base_Action x) s)) ].

(** [json.Unmarshal([]byte(jsonStr), &x)] at the three targets the
    package decodes into, each starting from its zero value. *)
Definition Unmarshal_base (jsonStr : string) : result base :=
  Unmarshal "base" base_fields zero_base jsonStr.

Definition Unmarshal_HealAction (jsonStr : string) : result HealAction :=
  Unmarshal "HealAction" HealAction_fields zero_HealAction jsonStr.

Definition Unmarshal_NoopAction (jsonStr : string) : result NoopAction :=
  Unmarshal "NoopAction" NoopAction_fields zero_NoopAction jsonStr.

(** [ParseJSONTo(jsonStr, target)]: [unmarshal] is [json.Unmarshal] at
    the type of [target]. *)
Definition ParseJSONTo {T} (unmarshal : string -> result T) (jsonStr : string) : result T :=
  match unmarshal jsonStr with
  | Err err => Err (Errorf_w "json unmarshal failed: " err)
  | OK x => OK x
  end.

(** What [ParseAutoHealResponse] returns as its [any]: a [*HealAction]
    or a [*NoopAction]. *)
Inductive response : Type :=
| Heal (heal : HealAction)
| Noop (noop : NoopAction).

Definition ParseAutoHealResponse (jsonStr : string) : result response :=
  match Unmarshal_base jsonStr with
  | Err err => Err (Errorf_w "parse base failed: " err)
  | OK b =>
    if String.eqb (base_Action b) "heal" then
      match ParseJSONTo Unmarshal_HealAction jsonStr with
      | Err err => Err err
      | OK heal =>
        if negb (String.eqb (HealAction_RiskLevel heal) "low")
           && negb (String.eqb (HealAction_RiskLevel heal) "medium")
           && negb (String.eqb (HealAction_RiskLevel heal) "high")
        then Err (Errorf_s "invalid risk_level: " (HealAction_RiskLevel heal))
        else OK (Heal heal)
      end
    else if String.eqb (base_Action b) "noop" then
      match ParseJSONTo Unmarshal_NoopAction jsonStr with
      | Err err => Err err
      | OK noop => OK (Noop noop)
      end
    else Err (Errorf_s "unknown action: " (base_Action b))
  end.

(** ** The vocabulary of the response contract *)

Definition valid_risk_level (s : string) : Prop :=
  s = "low" \/ s = "medium" \/ s = "high".

Definition valid_op (s : string) : Prop :=
  s = "replace" \/ s = "add" \/ s = "remove".

(** The error [ParseAutoHealResponse] returns when the first decoding
    fails. *)
Definition is_parse_error (e : error) : Prop :=
  exists err, e = Errorf_w "parse base failed: " err.

(** A key that selects the [action] field of [base]. *)
Definition names_action (key : string) : bool :=
  match find_field base_fields key with
  | Some f => String.eqb (fname f) "action"
  | None => false
  end.

(** A JSON text that carries the discriminant: an object with a member
    that selects [action]. *)
Definition has_action (v : value) : bool :=
  match v with
  | Object ms => existsb (fun kv => names_action (fst kv)) ms
  | _ => false
  end.

(** A byte that stands for itself in a string literal: printable ASCII
    other than the quote and the backslash. *)
Definition plain_char (c : ascii) : bool :=
  in_range 32 126 c && negb (Ascii.eqb c quote) && negb (Ascii.eqb c "\").

Fixpoint plain (s : string) : bool :=
  match s with
  | EmptyString => true
  | String c r => plain_char c && plain r
  end.

(** A string literal of a JSON text. *)
Definition literal (s : string) (rest : string) : string :=
  String quote (s ++ String quote rest).

(** Families of responses, one for each value of a member. *)
Definition heal_with_op (op : string) : string :=
  dq "{'action':'heal','risk_level':'low','patch_content':[{'op':"
  ++ literal op (dq ",'path':'/spec/replicas'}]}").

(** What [heal_with_op op] decodes to. *)
Definition heal_action_with_op (op : string) : HealAction :=
  mkHealAction "" "heal" "" "" "" [ mkPatchOp op "/spec/replicas" Null ]
    zero_Target "" "low".

Definition heal_with_risk_level (risk : string) : string :=
  dq "{'action':'heal','namespace':'order-prod','risk_level':" ++ literal risk "}".

Definition response_with_action (action : string) : string :=
  dq "{'reason':'as observed','action':" ++ literal action "}".

End LLM.

(* ===================================================================== *)
(** * The card builder of the first dispatch path *)
(* ===================================================================== *)

(** [CardVariables], [CardMessage], [NewCardMessage] (sendCard.go) and
    [CreateHealActionCardMessage], which the stand-alone [main] calls on
    the [*HealAction] it parsed. *)
Module Card.
Import LLM.

Record CardVariables : Type := mkCardVariables {
  CardVariables_ResolveFunction : string;   (* json:"resolve_fuction" *)
  CardVariables_Namespace : string;         (* json:"namespace" *)
  CardVariables_Name : string;              (* json:"name" *)
  CardVariables_RequestID : string          (* json:"request_id" *)
}.

Record CardMessage : Type := mkCardMessage {
  CardMessage_ReceiveID : string;
  CardMessage_ReceiveType : string;
  CardMessage_TemplateID : string;
  CardMessage_Version : string;
  CardMessage_Variables : CardVariables
}.

Definition NewCardMessage (receiveID receiveType templateID version : string)
  (vars : CardVariables) : CardMessage :=
  mkCardMessage receiveID receiveType templateID version vars.

(** [reflect.ValueOf(v).Elem().FieldByName(..)] on the two struct types
    a response can point to: a field that the struct lacks is not valid
    and leaves the empty string. *)
Definition field_Reason (v : response) : string :=
  match v with
  | Heal heal => HealAction_Reason heal
  | Noop noop => NoopAction_Reason noop
  end.

Definition field_Target_Kind (v : response) : string :=
  match v with
  | Heal heal => Target_Kind (HealAction_Target heal)
  | Noop _ => ""
  end.

Definition field_Target_LabelSelector (v : response) : string :=
  match v with
  | Heal heal => Target_LabelSelector (HealAction_Target heal)
  | Noop _ => ""
  end.

Definition CreateHealActionCardMessage (v : response)
  (receiveID receiveType templateID version : string) : CardMessage :=
  let reason := field_Reason v in
  let targetKind := field_Target_Kind v in
  let targetLabelSelector := field_Target_LabelSelector v in
  let vars := mkCardVariables reason "default" targetLabelSelector "FEISHU-TEST-ABC-123" in
  NewCardMessage receiveID receiveType templateID version vars.

End Card.

(* ===================================================================== *)
(** * package feishu, as the controller imports it *)
(* ===================================================================== *)

Module Feishu.
Import GoJSON.

(** Modelled from the spec: the declaration of [feishu.PatchOp] is
    missing from the sources; its fields are the ones the composite
    literal in [Reconcile] names (one opaque (op, path, value) edit
    instruction). *)
Record PatchOp : Type := mkPatchOp {
  PatchOp_Op : string;
  PatchOp_Path : string;
  PatchOp_Value : value
}.

(** Modelled from the spec: the declaration of the seven-field
    [feishu.CardVariables] that [Reconcile] fills in is missing from the
    sources (only the four-field version above is there). The fields are
    the ones the composite literal in [Reconcile] names, which are the
    spec's notification payload fields: reason, namespace, target
    name/selector, rendered patch text, technical detail, request
    identifier. *)
Record CardVariables : Type := mkCardVariables {
  CardVariables_Reason : string;
  CardVariables_Patch : string;
  CardVariables_Patches : list PatchOp;
  CardVariables_ResolveFunction : string;
  CardVariables_Namespace : string;
  CardVariables_Name : string;
  CardVariables_RequestID : string
}.

(** [CardMessage] and [NewCardMessage] are those of sendCard.go, over
    the [CardVariables] above. *)
Record CardMessage : Type := mkCardMessage {
  CardMessage_ReceiveID : string;
  CardMessage_ReceiveType : string;
  CardMessage_TemplateID : string;
  CardMessage_Version : string;
  CardMessage_Variables : CardVariables
}.

Definition NewCardMessage (receiveID receiveType templateID version : string)
  (vars : CardVariables) : CardMessage :=
  mkCardMessage receiveID receiveType templateID version vars.

End Feishu.

(* ===================================================================== *)
(** * package controller *)
(* ===================================================================== *)

Module Controller.
Import GoJSON.
Local Open Scope go_scope.

(** ** The Kubernetes objects the controller reads *)

(** metav1.LabelSelector; [None] is a nil map or slice. *)
Record LabelSelectorRequirement : Type := mkRequirement {
  Requirement_Key : string;
  Requirement_Operator : string;
  Requirement_Values : list string
}.

Record LabelSelector : Type := mkLabelSelector {
  LabelSelector_MatchLabels : option (list (string * string));
  LabelSelector_MatchExpressions : option (list LabelSelectorRequirement)
}.

(** labels.Selector, the form [client.List] takes. *)
Inductive Selector : Type :=
| mkSelector (requirements : list LabelSelectorRequirement).

(** api/v1 *)
Record TargetSelector : Type := mkTargetSelector {
  TargetSelector_Namespace : string;          (* json:"namespace,omitempty" *)
  TargetSelector_Selector : LabelSelector     (* json:"selector" *)
}.

Record FeishuNotification : Type := mkFeishuNotification {
  Feishu_ReceiveIDType : string;
  Feishu_ReceiveID : string;
  Feishu_MentionUsers : list string;
  Feishu_MentionRoles : list string;
  Feishu_ApprovalTimeout : string
}.

(** The fields of the spec the controller reads. *)
Record AIOpsAnalyzerSpec : Type := mkAIOpsAnalyzerSpec {
  Spec_Target : TargetSelector;
  Spec_AnalysisInterval : string;
  Spec_Feishu : FeishuNotification
}.

Record AIOpsAnalyzer : Type := mkAIOpsAnalyzer {
  AIOpsAnalyzer_Spec : AIOpsAnalyzerSpec
}.

(** client.ListOptions; [None] is a nil selector. *)
Record ListOptions : Type := mkListOptions {
  ListOptions_Namespace : string;
  ListOptions_LabelSelector : option Selector
}.

(** corev1.NamespaceDefault *)
Definition NamespaceDefault : string := "default".

(** metav1.ObjectMeta. A nil slice or map is the empty list; the zero
    [metav1.Time] is [None]. *)
Record OwnerReference : Type := mkOwnerReference {
  OwnerReference_APIVersion : string;
  OwnerReference_Kind : string;
  OwnerReference_Name : string;
  OwnerReference_UID : string
}.

Record ManagedFieldsEntry : Type := mkManagedFieldsEntry {
  ManagedFields_Manager : string;
  ManagedFields_Operation : string;
  ManagedFields_Time : option string
}.

Record ObjectMeta : Type := mkObjectMeta {
  ObjectMeta_Name : string;
  ObjectMeta_GenerateName : string;
  ObjectMeta_Namespace : string;
  ObjectMeta_UID : string;
  ObjectMeta_ResourceVersion : string;
  ObjectMeta_Generation : Z;
  ObjectMeta_CreationTimestamp : option string;
  ObjectMeta_Labels : list (string * string);
  ObjectMeta_Annotations : list (string * string);
  ObjectMeta_OwnerReferences : list OwnerReference;
  ObjectMeta_Finalizers : list string;
  ObjectMeta_ManagedFields : list ManagedFieldsEntry
}.

(** corev1.Pod, with the parts of its spec and status that matter to a
    reader of the evidence report. *)
Record Container : Type := mkContainer {
  Container_Name : string;
  Container_Image : string
}.

Record PodSpec : Type := mkPodSpec {
  PodSpec_NodeName : string;
  PodSpec_Containers : list Container
}.

Record PodCondition : Type := mkPodCondition {
  PodCondition_Type : string;
  PodCondition_Status : string;
  PodCondition_LastTransitionTime : option string;
  PodCondition_Reason : string;
  PodCondition_Message : string
}.

Record ContainerState : Type := mkContainerState {
  ContainerState_Waiting : option string;       (* the reason *)
  ContainerState_Running : option string;       (* startedAt *)
  ContainerState_Terminated : option Z          (* the exit code *)
}.

Definition zero_ContainerState : ContainerState := mkContainerState None None None.

Record ContainerStatus : Type := mkContainerStatus {
  ContainerStatus_Name : string;
  ContainerStatus_State : ContainerState;
  ContainerStatus_LastTerminationState : ContainerState;
  ContainerStatus_Ready : bool;
  ContainerStatus_RestartCount : Z;
  ContainerStatus_Image : string;
  ContainerStatus_ContainerID : string
}.

Record PodStatus : Type := mkPodStatus {
  PodStatus_Phase : string;
  PodStatus_Conditions : list PodCondition;
  PodStatus_Message : string;
  PodStatus_Reason : string;
  PodStatus_HostIP : string;
  PodStatus_PodIP : string;
  PodStatus_StartTime : option string;
  PodStatus_ContainerStatuses : list ContainerStatus
}.

Record Pod : Type := mkPod {
  Pod_ObjectMeta : ObjectMeta;
  Pod_Spec : PodSpec;
  Pod_Status : PodStatus
}.

(** corev1.PodReady *)
Definition PodReady : string := "Ready".

(** ** The reconciler and its collaborators *)

(** The receiver [r] with the client it embeds, and with it the library
    calls that reach outside the process: each one is an arbitrary
    function of its arguments. *)
Record AIOpsAnalyzerReconciler : Type := mkReconciler {
  (* r.Get(ctx, req.NamespacedName, &aiopsAnalyzer) *)
  Get : string -> result AIOpsAnalyzer;
  (* r.List(ctx, &pods, listOptions) *)
  List : ListOptions -> result (list Pod);
  (* metav1.LabelSelectorAsSelector *)
  LabelSelectorAsSelector : LabelSelector -> result Selector;
  (* serializer.Encode(&pod, &yamlBuilder): what it writes *)
  Encode : Pod -> result string;
  (* the Prometheus query of a target: http.Get and the decoding of the
     response body into a map[string]interface{} *)
  QueryPrometheus : TargetSelector -> result value;
  (* the same for Loki: a non-200 status is an error *)
  QueryLoki : TargetSelector -> result value;
  (* fmt's %s of a value that is neither a string nor nil *)
  Sprint_s : value -> string;
  (* fmt.Sprintf("%v", v.PatchContent) *)
  Sprint_v : list LLM.PatchOp -> string;
  (* llm.NewOpenAIClient and its SendMessage *)
  SendMessage : string -> result string;
  (* feishu.SendTemplateCard *)
  SendTemplateCard : Feishu.CardMessage -> result unit;
  (* time.Now().Format("20060102-150405") when the request is built *)
  NowFormat : string;
  (* time.Now().Unix() when the card is built *)
  NowUnix : Z
}.

(** ** GetTargetPods *)

Definition GetTargetPods (r : AIOpsAnalyzerReconciler) (target : TargetSelector)
  : result (list Pod) :=
  let namespace := TargetSelector_Namespace target in
  let namespace := if String.eqb namespace "" then NamespaceDefault else namespace in
  let listOptions := mkListOptions namespace None in
  listOptions <-
    (match LabelSelector_MatchLabels (TargetSelector_Selector target),
           LabelSelector_MatchExpressions (TargetSelector_Selector target) with
     | None, None => OK listOptions
     | _, _ =>
       selector <- LabelSelectorAsSelector r (TargetSelector_Selector target) ;;
       OK (mkListOptions (ListOptions_Namespace listOptions) (Some selector))
     end) ;;
  List r listOptions.

(** ** FilterPodFields *)

Definition FilterPodFields (pod : Pod) : outcome Pod :=
  let filtered := pod in                                   (* pod.DeepCopy() *)
  let m := Pod_ObjectMeta filtered in
  let meta :=
    mkObjectMeta (ObjectMeta_Name m) (ObjectMeta_GenerateName m) (ObjectMeta_Namespace m)
      ""                              (* UID = "" *)
      ""                              (* ResourceVersion = "" *)
      0%Z                             (* Generation = 0 *)
      None                            (* CreationTimestamp = metav1.Time{} *)
      (ObjectMeta_Labels m) (ObjectMeta_Annotations m)
      []                              (* OwnerReferences = nil *)
      []                              (* Finalizers = nil *)
      []                              (* ManagedFields = nil *) in
  let st := Pod_Status filtered in
  last <~ index (PodStatus_Conditions st) (len (PodStatus_Conditions st) - 1) ;;
  first <~ index (PodStatus_ContainerStatuses st) 0 ;;
  Return
    (mkPod meta (Pod_Spec filtered)
       (mkPodStatus (PodStatus_Phase st)
          [ mkPodCondition PodReady (PodCondition_Status last) None "" "" ]
          "" "" "" "" None
          [ mkContainerStatus (ContainerStatus_Name first) (ContainerStatus_State first)
              zero_ContainerState (ContainerStatus_Ready first) 0%Z "" "" ])).

(** ** GetTargetResourceYAML *)

(** [for i, pod := range pods { filteredPods[i] = *FilterPodFields(&pod) }] *)
Fixpoint filter_all (pods : list Pod) : outcome (list Pod) :=
  match pods with
  | [] => Return []
  | pod :: rest =>
    f <~ FilterPodFields pod ;;
    fs <~ filter_all rest ;;
    Return (f :: fs)
  end.

(** The loop over [filteredPods]: a pod that fails to encode is logged
    and skipped, every other one is followed by a record delimiter. *)
Fixpoint encode_all (r : AIOpsAnalyzerReconciler) (filteredPods : list Pod) : string :=
  match filteredPods with
  | [] => ""
  | pod :: rest =>
    match Encode r pod with
    | Err _ => encode_all r rest
    | OK text => text ++ "---" ++ nl ++ encode_all r rest
    end
  end.

Definition GetTargetResourceYAML (r : AIOpsAnalyzerReconciler) (target : TargetSelector)
  : outcome string :=
  pods <~ of_result (GetTargetPods r target) ;;
  if (len pods =? 0)%Z then Return ""
  else
    filteredPods <~ filter_all pods ;;
    Return (encode_all r filteredPods).

(** ** GetPrometheusAlerts and GetLokiLogs *)

(** [m[key]] on a map[string]interface{} decoded from a JSON object: the
    last member with this key, nil ([Null]) when there is none. *)
Fixpoint map_get (m : list (string * value)) (key : string) : value :=
  match m with
  | [] => Null
  | (k, v) :: rest =>
    if existsb (fun kv => String.eqb (fst kv) key) rest then map_get rest key
    else if String.eqb k key then v
    else Null
  end.

(** [result[key]] on the decoded response, which is a nil map when the
    body was [null]. *)
Definition top_get (result : value) (key : string) : value :=
  match result with
  | Object m => map_get m key
  | _ => Null
  end.

(** [fmt.Sprintf("%s", x)] for an [interface{}] *)
Definition format_s (r : AIOpsAnalyzerReconciler) (x : value) : string :=
  match x with
  | Str s => s
  | Null => "%!s(<nil>)"
  | _ => Sprint_s r x
  end.

Definition alert_stanza (r : AIOpsAnalyzerReconciler) (item : value) : string :=
  match item with
  | Object alert =>
    match map_get alert "metric" with
    | Object metric =>
      "Alert: " ++ format_s r (map_get metric "alertname") ++ nl
      ++ "  Namespace: " ++ format_s r (map_get metric "namespace") ++ nl
      ++ (match map_get metric "pod" with
          | Str pod => "  Pod: " ++ pod ++ nl
          | _ => ""
          end)
      ++ nl
    | _ => ""
    end
  | _ => ""
  end.

Definition format_alerts (r : AIOpsAnalyzerReconciler) (result : value) : string :=
  match top_get result "data" with
  | Object data =>
    match map_get data "resultType", map_get data "result" with
    | Str resultType, Array results =>
      if String.eqb resultType "vector"
      then String.concat "" (map (alert_stanza r) results)
      else ""
    | _, _ => ""
    end
  | _ => ""
  end.

Definition GetPrometheusAlerts (r : AIOpsAnalyzerReconciler) (target : TargetSelector)
  : result string :=
  result <- QueryPrometheus r target ;;
  OK (format_alerts r result).

Definition log_line (r : AIOpsAnalyzerReconciler) (value : value) : string :=
  match value with
  | Array (ts :: line :: _) => format_s r ts ++ ": " ++ format_s r line ++ nl
  | _ => ""
  end.

Definition stream_lines (r : AIOpsAnalyzerReconciler) (stream : value) : string :=
  match stream with
  | Object streamData =>
    match map_get streamData "values" with
    | Array values => String.concat "" (map (log_line r) values)
    | _ => ""
    end
  | _ => ""
  end.

Definition format_logs (r : AIOpsAnalyzerReconciler) (result : value) : string :=
  match top_get result "data" with
  | Object data =>
    match map_get data "resultType", map_get data "result" with
    | Str resultType, Array streams =>
      if String.eqb resultType "streams"
      then String.concat "" (map (stream_lines r) streams)
      else ""
    | _, _ => ""
    end
  | _ => ""
  end.

Definition GetLokiLogs (r : AIOpsAnalyzerReconciler) (target : TargetSelector)
  : result string :=
  result <- QueryLoki r target ;;
  OK (format_logs r result).

(** ** BuildEventString *)

Definition header_resource : string := "=== Target Resource Information ===" ++ nl.
Definition header_alerts : string := "=== Prometheus Alerts ===" ++ nl.
Definition header_logs : string := "=== Loki Error Logs ===" ++ nl.

Definition BuildEventString (r : AIOpsAnalyzerReconciler) (target : TargetSelector)
  : outcome string :=
  resourceYAML <~ GetTargetResourceYAML r target ;;
  prometheusAlerts <~ of_result (GetPrometheusAlerts r target) ;;
  lokiLogs <~ of_result (GetLokiLogs r target) ;;
  Return
    (header_resource
     ++ resourceYAML
     ++ nl ++ header_alerts
     ++ (if String.eqb prometheusAlerts "" then "No firing alerts" ++ nl
         else prometheusAlerts)
     ++ nl ++ header_logs
     ++ (if String.eqb lokiLogs "" then "No error logs" ++ nl else lokiLogs)).

(** ** Reconcile *)

(** ctrl.Result; the delay in seconds. *)
Record Result : Type := mkResult {
  Result_RequeueAfter : Z
}.

(** What a run of [Reconcile] leaves: its two results and the cards it
    handed to [SendTemplateCard]. *)
Record reconciled : Type := mkReconciled {
  reconciled_Result : Result;
  reconciled_err : option error;
  reconciled_cards : list Feishu.CardMessage
}.

Definition convert_patches (content : list LLM.PatchOp) : list Feishu.PatchOp :=
  map (fun op => Feishu.mkPatchOp (LLM.PatchOp_Op op) (LLM.PatchOp_Path op)
                   (LLM.PatchOp_Value op)) content.

(** The [case *llm.HealAction] branch up to the call of
    [feishu.SendTemplateCard]: the card it builds. *)
Definition heal_card (r : AIOpsAnalyzerReconciler) (aiopsAnalyzer : AIOpsAnalyzer)
  (v : LLM.HealAction) : Feishu.CardMessage :=
  let patches := convert_patches (LLM.HealAction_PatchContent v) in
  Feishu.NewCardMessage
    (Feishu_ReceiveID (Spec_Feishu (AIOpsAnalyzer_Spec aiopsAnalyzer)))
    (Feishu_ReceiveIDType (Spec_Feishu (AIOpsAnalyzer_Spec aiopsAnalyzer)))
    "AAqhGHg0Wgux8"
    "0.0.9"
    (Feishu.mkCardVariables
       (LLM.HealAction_Reason v)
       (Sprint_v r (LLM.HealAction_PatchContent v))
       patches
       (LLM.HealAction_Detail v)
       (LLM.HealAction_Namespace v)
       (LLM.Target_LabelSelector (LLM.HealAction_Target v))
       (LLM.HealAction_PatchFile v ++ "-" ++ NilZero.string_of_int (Z.to_int (NowUnix r)))).

(** Step 8 of [Reconcile], the switch on the parsed response: the cards
    sent. A failed delivery is logged and changes nothing else. *)
Definition dispatch (r : AIOpsAnalyzerReconciler) (aiopsAnalyzer : AIOpsAnalyzer)
  (result : LLM.response) : list Feishu.CardMessage :=
  match result with
  | LLM.Heal v =>
    let cardMsg := heal_card r aiopsAnalyzer v in
    match SendTemplateCard r cardMsg with
    | Err _ => [cardMsg]
    | OK _ => [cardMsg]
    end
  | LLM.Noop v => []
  end.

(** The request text: the fixed template with the current time and the
    evidence report filled in. *)
Definition request_content (currentTime eventString : string) : string :=
  "### 当前应用信息（请原样使用）：
- 应用标签选择器：app.kubernetes.io/name=order-service
- 命名空间：product-a
- 当前副本数：1
- 当前 CPU limits：2000m
- 当前 CPU requests：1000m
- 当前内存 limits：4Gi
- 当前时间: " ++ currentTime ++ "

### 告警/监控数据：
" ++ eventString ++ dq "

请立即决定是否需要自愈，如果需要，按以下 JSON 格式输出（只能输出这个 JSON）：

{
  'action': 'heal' | 'noop',
  'namespace': 'order-prod',
  'reason': '一句话中文原因，用于 git commit（≤50字）',
  'detail': '详细技术说明，包含问题说明，以及解决方案简述，用于 PR body（≤300字）',
  'patch_file': '20251126-204555-cpu-spike.yaml',
  'patch_content': [
    {
      'op': 'replace',
      'path': '/spec/replicas',
      'value': 20
    }
  ],
  'target': {
    'kind': 'Deployment',
    'labelSelector': 'app.kubernetes.io/name=order-service'
  },
  'suggested_duration': '30m',
  'risk_level': 'low' | 'medium' | 'high'
}

如果不需要自愈，输出：
{
  'action': 'noop',
  'reason': '当前指标正常，无需干预'
}".

(** The pods are listed here and again inside [BuildEventString]; both
    listings ask the same [List], so they agree here, which two calls
    to a live cluster need not. *)
Definition Reconcile (r : AIOpsAnalyzerReconciler) (req : string) : outcome reconciled :=
  match Get r req with
  | Err err => Return (mkReconciled (mkResult 0) (Some err) [])
  | OK aiopsAnalyzer =>
    let target := Spec_Target (AIOpsAnalyzer_Spec aiopsAnalyzer) in
    match LabelSelector_MatchLabels (TargetSelector_Selector target),
          LabelSelector_MatchExpressions (TargetSelector_Selector target) with
    | None, None => Return (mkReconciled (mkResult 0) None [])
    | _, _ =>
      match GetTargetPods r target with
      | Err err => Return (mkReconciled (mkResult 0) (Some err) [])
      | OK targetPods =>
        match BuildEventString r target with
        | Panics p => Panics p
        | Fails err => Return (mkReconciled (mkResult 10) (Some err) [])
        | Return eventString =>
          let content := request_content (NowFormat r) eventString in
          match SendMessage r content with
          | Err err => Return (mkReconciled (mkResult 0) (Some err) [])
          | OK response =>
            match LLM.ParseAutoHealResponse response with
            | Err err => Return (mkReconciled (mkResult 0) (Some err) [])
            | OK result =>
              Return (mkReconciled (mkResult 0) None (dispatch r aiopsAnalyzer result))
            end
          end
        end
      end
    end
  end.

(** ** The vocabulary of the evidence report *)

(** The bookkeeping fields of a pod are cleared. *)
Definition stripped (pod : Pod) : Prop :=
  ObjectMeta_ResourceVersion (Pod_ObjectMeta pod) = ""
  /\ ObjectMeta_Generation (Pod_ObjectMeta pod) = 0%Z
  /\ ObjectMeta_OwnerReferences (Pod_ObjectMeta pod) = []
  /\ ObjectMeta_Finalizers (Pod_ObjectMeta pod) = []
  /\ ObjectMeta_ManagedFields (Pod_ObjectMeta pod) = [].

(** The same pod with other bookkeeping. *)
Definition with_bookkeeping (resourceVersion : string) (generation : Z)
  (owners : list OwnerReference) (finalizers : list string)
  (managed : list ManagedFieldsEntry) (pod : Pod) : Pod :=
  let m := Pod_ObjectMeta pod in
  mkPod
    (mkObjectMeta (ObjectMeta_Name m) (ObjectMeta_GenerateName m) (ObjectMeta_Namespace m)
       (ObjectMeta_UID m) resourceVersion generation (ObjectMeta_CreationTimestamp m)
       (ObjectMeta_Labels m) (ObjectMeta_Annotations m) owners finalizers managed)
    (Pod_Spec pod) (Pod_Status pod).

(** [needle] stands in [report] at byte offset [p]. *)
Definition occurs_at (p : nat) (needle report : string) : Prop :=
  substring p (String.length needle) report = needle.

(** [strings.Split(s, "\n")]; [cur] is the line being read, reversed. *)
Fixpoint split_lines (s : string) (cur : string) : list string :=
  match s with
  | EmptyString => [GoJSON.rev_string cur ""]
  | String c r =>
    if Ascii.eqb c (ascii_of_nat 10) then GoJSON.rev_string cur "" :: split_lines r ""
    else split_lines r (String c cur)
  end.

Definition lines (s : string) : list string := split_lines s "".

(** The line under the first line that reads [header]. *)
Fixpoint line_under (header : string) (ls : list string) : option string :=
  match ls with
  | [] => None
  | l :: rest =>
    if String.eqb l header then hd_error rest else line_under header rest
  end.

End Controller.

(* ===================================================================== *)
(** * Concrete inputs *)
(* ===================================================================== *)

Module Examples.
Import GoJSON LLM Controller.

(** Responses of the reasoning service. *)
Definition heal_critical : string :=
  dq "{'action':'heal','namespace':'order-prod','risk_level':'critical'}".

Definition heal_empty_risk : string :=
  dq "{'action':'heal','namespace':'order-prod','risk_level':''}".

Definition heal_low : string :=
  dq "{'action':'heal','namespace':'order-prod','reason':'cpu spike',
       'detail':'raise replicas','patch_file':'20251126-204555-cpu-spike.yaml',
       'patch_content':[{'op':'replace','path':'/spec/replicas','value':20}],
       'target':{'kind':'Deployment','labelSelector':'app.kubernetes.io/name=order-service'},
       'suggested_duration':'30m','risk_level':'low'}".

Definition heal_move : string :=
  dq "{'action':'heal','risk_level':'low',
       'patch_content':[{'op':'move','path':'/spec/replicas','value':20}]}".

Definition action_ignore : string := dq "{'action':'ignore','reason':'nothing to do'}".

Definition empty_object : string := "{}".

Definition not_json : string := "I think you should scale up.".

(** The [HealAction] that [heal_low] decodes to. *)
Definition heal_low_action : HealAction :=
  mkHealAction "order-prod" "heal" "cpu spike" "raise replicas"
    "20251126-204555-cpu-spike.yaml"
    [ mkPatchOp "replace" "/spec/replicas" (Number "20") ]
    (mkTarget "Deployment" "app.kubernetes.io/name=order-service")
    "30m" "low".

(** Pods. *)
Definition meta0 : ObjectMeta :=
  mkObjectMeta "order-5d8f" "order-" "order-prod" "a1b2" "88123" 3 (Some "2025-11-26T12:00:00Z")
    [("app", "order")] [] [ mkOwnerReference "apps/v1" "ReplicaSet" "order-5d8f" "c3d4" ]
    ["example.com/protect"] [ mkManagedFieldsEntry "kubelet" "Update" None ].

Definition running_pod : Pod :=
  mkPod meta0 (mkPodSpec "node-1" [ mkContainer "app" "order:1.0" ])
    (mkPodStatus "Running"
       [ mkPodCondition "Initialized" "True" None "" "";
         mkPodCondition "Ready" "False" None "ContainersNotReady" "" ]
       "" "" "10.0.0.1" "10.1.0.7" (Some "2025-11-26T12:00:01Z")
       [ mkContainerStatus "app" (mkContainerState (Some "CrashLoopBackOff") None None)
           zero_ContainerState false 7 "order:1.0" "containerd://ab" ]).

(** A pod the scheduler has not placed yet: no condition, no container
    status. *)
Definition pending_pod : Pod :=
  mkPod meta0 (mkPodSpec "" [ mkContainer "app" "order:1.0" ])
    (mkPodStatus "Pending" [] "" "" "" "" None []).

(** A pod with conditions whose containers have not been created. *)
Definition unstarted_pod : Pod :=
  mkPod meta0 (mkPodSpec "node-1" [ mkContainer "app" "order:1.0" ])
    (mkPodStatus "Pending" [ mkPodCondition "PodScheduled" "True" None "" "" ]
       "" "" "" "" None []).

(** A cluster and its monitoring: [pods] is what every list call
    returns, [alerts] and [logs] are the decoded responses. *)
Definition show_meta (m : ObjectMeta) : string :=
  "name: " ++ ObjectMeta_Name m ++ nl
  ++ (if String.eqb (ObjectMeta_ResourceVersion m) "" then ""
      else "resourceVersion: " ++ ObjectMeta_ResourceVersion m ++ nl).

Definition reconciler (pods : list Pod) (alerts logs : value) (response : string)
  : AIOpsAnalyzerReconciler :=
  mkReconciler
    (fun _ => Err (externalError "not found"))
    (fun _ => OK pods)
    (fun sel => OK (mkSelector []))
    (fun pod => OK (show_meta (Pod_ObjectMeta pod)))
    (fun _ => OK alerts)
    (fun _ => OK logs)
    (fun _ => "%!s(?)")
    (fun _ => "[]")
    (fun _ => OK response)
    (fun _ => OK tt)
    "20251126-204733"
    1764161253.

Definition no_records (resultType : string) : value :=
  Object [("status", Str "success");
          ("data", Object [("resultType", Str resultType); ("result", Array [])])].

Definition quiet : AIOpsAnalyzerReconciler :=
  reconciler [] (no_records "vector") (no_records "streams") "".

Definition one_alert : value :=
  Object [("data", Object [("resultType", Str "vector");
     ("result", Array [Object [("metric",
        Object [("alertname", Str "CPUUsageHigh"); ("namespace", Str "order-prod");
                ("pod", Str "order-5d8f")])]])])].

Definition one_log : value :=
  Object [("data", Object [("resultType", Str "streams");
     ("result", Array [Object [("values",
        Array [Array [Str "1764161000000000000"; Str "panic: nil map"]])]])])].

Definition noisy : AIOpsAnalyzerReconciler :=
  reconciler [running_pod] one_alert one_log heal_low.

Definition noisy_without_logs : AIOpsAnalyzerReconciler :=
  reconciler [running_pod] one_alert (no_records "streams") heal_low.

(** A client whose list call fails with the namespace it was given. *)
Definition namespace_echo : AIOpsAnalyzerReconciler :=
  mkReconciler
    (fun _ => Err (externalError "not found"))
    (fun opts => Err (externalError (ListOptions_Namespace opts)))
    (fun sel => OK (mkSelector []))
    (fun pod => OK "")
    (fun _ => OK Null)
    (fun _ => OK Null)
    (fun _ => "")
    (fun _ => "")
    (fun _ => OK "")
    (fun _ => OK tt)
    ""
    0.

Definition order_target : TargetSelector :=
  mkTargetSelector "order-prod" (mkLabelSelector (Some [("app", "order")]) None).

Definition unnamed_target : TargetSelector :=
  mkTargetSelector "" (mkLabelSelector (Some [("app", "order")]) None).

End Examples.

(* ===================================================================== *)
(** * The queries of the alert and log sources *)
(* ===================================================================== *)

(** The query texts [GetPrometheusAlerts] and [GetLokiLogs] build and the
    request URLs they go into, [BuildLabelSelector], and [url.QueryEscape]. *)
Module Queries.
Import GoJSON Controller.

Definition prometheusQueryEndpoint : string := "http://127.0.0.1:9090/api/v1/query".
Definition lokiQueryEndpoint : string := "http://127.0.0.1:3100/loki/api/v1/query".

(** [for k, v := range MatchLabels { query += fmt.Sprintf(",%s=Q%sQ", k, v) }]
    for a quote [Q], over the labels in the order the map yields them. *)
Fixpoint add_matchers (q : string) (query : string) (labels : list (string * string))
  : string :=
  match labels with
  | [] => query
  | (k, v) :: rest => add_matchers q (query ++ "," ++ k ++ "=" ++ q ++ v ++ q) rest
  end.

Definition range_labels (q : string) (query : string) (target : TargetSelector) : string :=
  match LabelSelector_MatchLabels (TargetSelector_Selector target) with
  | Some labels => add_matchers q query labels
  | None => query
  end.

(** The query of [GetPrometheusAlerts]. *)
Definition PrometheusQuery (target : TargetSelector) : string :=
  let query := "ALERTS{namespace='" ++ TargetSelector_Namespace target ++ "'}" in
  let query := range_labels "'" query target in
  query ++ " and ALERTS.state='firing'".

(** The query of [GetLokiLogs]. *)
Definition LokiQuery (target : TargetSelector) : string :=
  let q := String quote "" in
  let query := "{namespace=" ++ q ++ TargetSelector_Namespace target ++ q in
  let query := range_labels q query target in
  query ++ "} |~ " ++ q ++ "(?i)(error|panic|fatal|critical)" ++ q.

(** The query of the first version of [GetLokiLogs]
    (internal/controller/aiopsanalyzer_controller.go). *)
Definition LokiQuery_first (target : TargetSelector) : string :=
  let q := String quote "" in
  let query := "{namespace='" ++ TargetSelector_Namespace target ++ "'}" in
  let query := range_labels "'" query target in
  query ++ " |= " ++ q ++ "error" ++ q ++ " or |= " ++ q ++ "ERROR" ++ q
        ++ " or |= " ++ q ++ "panic" ++ q ++ " or |= " ++ q ++ "PANIC" ++ q.

(** [url.QueryEscape]: letters, digits and [-_.~] stand for themselves,
    the space becomes [+], every other byte [%XX] in upper-case hex. *)
Definition unreserved (c : ascii) : bool :=
  in_range 97 122 c || in_range 65 90 c || in_range 48 57 c
  || Ascii.eqb c "-" || Ascii.eqb c "_" || Ascii.eqb c "." || Ascii.eqb c "~".

Definition upperhex (n : N) : ascii :=
  if (n <? 10)%N then byte (48 + n) else byte (55 + n).

Fixpoint QueryEscape (s : string) : string :=
  match s with
  | EmptyString => EmptyString
  | String c r =>
    if unreserved c then String c (QueryEscape r)
    else if Ascii.eqb c " " then String "+" (QueryEscape r)
    else String "%" (String (upperhex (code c / 16)) (String (upperhex (code c mod 16))
           (QueryEscape r)))
  end.

(** [fmt.Sprintf("%s?query=%s", prometheusQueryEndpoint, url.QueryEscape(query))] *)
Definition PrometheusURL (target : TargetSelector) : string :=
  prometheusQueryEndpoint ++ "?query=" ++ QueryEscape (PrometheusQuery target).

(** [fmt.Sprintf("%s?query=%s&start=%d", lokiQueryEndpoint, url.QueryEscape(query), timeRange)] *)
Definition LokiURL (target : TargetSelector) (timeRange : Z) : string :=
  lokiQueryEndpoint ++ "?query=" ++ QueryEscape (LokiQuery target)
  ++ "&start=" ++ NilZero.string_of_int (Z.to_int timeRange).

(** [BuildLabelSelector]: the labels are copied into a fresh map, so
    [MatchLabels] is never nil, also for a nil argument. *)
Definition BuildLabelSelector (labels : option (list (string * string)))
  : result LabelSelector :=
  let matchLabels := match labels with Some l => l | None => [] end in
  OK (mkLabelSelector (Some matchLabels) None).

(** [strings.Join(parts, sep)] *)
Fixpoint Join (parts : list string) (sep : string) : string :=
  match parts with
  | [] => ""
  | [p] => p
  | p :: rest => p ++ sep ++ Join rest sep
  end.

(** A label matcher [k=QvQ]. *)
Definition matcher (q : string) (kv : string * string) : string :=
  fst kv ++ "=" ++ q ++ snd kv ++ q.

(** The bytes a URL query value may hold without ending it. *)
Definition query_safe (c : ascii) : bool :=
  unreserved c || Ascii.eqb c "+" || Ascii.eqb c "%".

Fixpoint all_chars (p : ascii -> bool) (s : string) : bool :=
  match s with
  | EmptyString => true
  | String c r => p c && all_chars p r
  end.

End Queries.

(* ===================================================================== *)
(** * The client of the reasoning service *)
(* ===================================================================== *)

Module OpenAI.

Record ChatCompletionMessage : Type := mkMessage {
  Message_Role : string;
  Message_Content : string
}.

Record ChatCompletionRequest : Type := mkRequest {
  Request_Model : string;
  Request_Messages : list ChatCompletionMessage
}.

Record ChatCompletionChoice : Type := mkChoice {
  Choice_Index : Z;
  Choice_Message : ChatCompletionMessage
}.

Record ChatCompletionResponse : Type := mkResponse {
  Response_Choices : list ChatCompletionChoice
}.

(** The system prompt of [SendMessage]. *)
Definition prompt : string :=
  "你是一个拥有 10 年 Kubernetes 生产运维经验的资深 SRE，目前负责一个严格使用 ArgoCD + Kustomize + GitOps 的集群。
你正在执行全自动 AIOps 自愈闭环，你只能通过生成 JSON 6902 Patch + target 选择器来修改资源，禁止任何其他方式。

### 严格要求（必须 100% 遵守，否则自愈失败）：
1. 只能使用 RFC6902 JSON Patch 格式
2. 必须使用 target + labelSelector 定位资源，严禁写死 metadata.name
3. 只允许修改 Deployment、StatefulSet、HorizontalPodAutoscaler
4. 扩容时必须同时提升 requests 和 limits，防止 CPU Throttling
5. 所有数值必须是合理生产值（replicas ≤ 100，CPU ≤ 8，内存 ≤ 16Gi）
6. patch_file 字段必须使用当前真实时间戳 + 简短英文描述，格式严格为：YYYYMMDD-HHMMSS-short-desc.yaml
   - 当前时间（北京时间）：20251126-204733
   - 示例：20251126-204733-cpu-spike.yaml
7. 输出必须是合法的 JSON，禁止任何解释、markdown、换行符外的文字".

(** [SendMessage]; [CreateChatCompletion] is the call of the client. *)
Definition SendMessage
  (CreateChatCompletion : ChatCompletionRequest -> result ChatCompletionResponse)
  (content : string) : result string :=
  let req := mkRequest "Qwen/Qwen2.5-72B-Instruct"
               [ mkMessage "system" prompt; mkMessage "user" content ] in
  match CreateChatCompletion req with
  | Err err => Err err
  | OK resp =>
    if (len (Response_Choices resp) =? 0)%Z then Err (errorString "no response from OpenAI")
    else
      match Response_Choices resp with
      | first :: _ => OK (Message_Content (Choice_Message first))
      | [] => Err (errorString "no response from OpenAI")
      end
  end.

End OpenAI.

(* ===================================================================== *)
(** * Reconcilers to run *)
(* ===================================================================== *)

Module Runs.
Import GoJSON Controller Examples.

(** The reconciler [r] with another delivery of cards. *)
Definition with_SendTemplateCard (r : AIOpsAnalyzerReconciler)
  (send : Feishu.CardMessage -> result unit) : AIOpsAnalyzerReconciler :=
  mkReconciler (Get r) (List r) (LabelSelectorAsSelector r) (Encode r)
    (QueryPrometheus r) (QueryLoki r) (Sprint_s r) (Sprint_v r) (SendMessage r)
    send (NowFormat r) (NowUnix r).

Definition order_analyzer : AIOpsAnalyzer :=
  mkAIOpsAnalyzer
    (mkAIOpsAnalyzerSpec order_target "5m"
       (mkFeishuNotification "chat_id" "oc_fb3b64606e33897e741fc355529e5784" [] [] "30m")).

(** A cluster that holds [order_analyzer] and [pods], with the answers
    of the alert source, the log source, the reasoning service and the
    card delivery. *)
Definition cluster (pods : list Pod) (alerts logs : result value) (response : result string)
  (delivery : result unit) : AIOpsAnalyzerReconciler :=
  mkReconciler
    (fun _ => OK order_analyzer)
    (fun _ => OK pods)
    (fun sel => OK (mkSelector []))
    (fun pod => OK (show_meta (Pod_ObjectMeta pod)))
    (fun _ => alerts)
    (fun _ => logs)
    (fun _ => "%!s(?)")
    (fun _ => "[]")
    (fun _ => response)
    (fun _ => delivery)
    "20251126-204733"
    1764161253.

End Runs.

(* ===================================================================== *)
(** * More vocabulary of the properties *)
(* ===================================================================== *)

Module Notions.
Import GoJSON LLM Controller Queries.

(** The name of a field as keys are compared with it when no field has
    exactly the name of the key. *)
Definition folded {T} (f : field T) : string := foldName (fname f).

(** The NoopAction with the contents of a [base]. *)
Definition as_noop (b : base) : NoopAction :=
  mkNoopAction (base_Action b) (base_Reason b).


(** Inside a token, the scanner produces a token before it accepts. *)
Definition busy (st : lex_state) : Prop := st <> LIdle.

(** A pod the filter can summarise: it has a condition and a container
    status. *)
Definition summarisable (pod : Pod) : Prop :=
  PodStatus_Conditions (Pod_Status pod) <> []
  /\ PodStatus_ContainerStatuses (Pod_Status pod) <> [].

(** The error is a [*json.UnmarshalTypeError]. *)
Definition type_error (e : error) : Prop :=
  exists val field, e = UnmarshalTypeError val field.

(** A JSON value a string field takes: a string, or [null], which
    leaves the field as it is. *)
Definition stringish (v : value) : bool :=
  match v with
  | Str _ | Null => true
  | _ => false
  end.

(** The first member of an object that selects a field of [base] and
    holds a value the field does not take: the name of the field and
    the value. *)
Fixpoint first_mistyped (ms : list (string * value)) : option (string * value) :=
  match ms with
  | [] => None
  | (k, v) :: rest =>
    match find_field base_fields k with
    | Some f => if stringish v then first_mistyped rest else Some (fname f, v)
    | None => first_mistyped rest
    end
  end.

(** The action the members of an object name: the string of the last
    member that selects [action] and holds a string; [cur] when there
    is none. *)
Fixpoint action_of (ms : list (string * value)) (cur : string) : string :=
  match ms with
  | [] => cur
  | (k, v) :: rest =>
    action_of rest
      (if names_action k then match v with Str s => s | _ => cur end else cur)
  end.

(** The text [s] holds [needle]. *)
Fixpoint contains (needle s : string) : bool :=
  String.prefix needle s
  || match s with
     | EmptyString => false
     | String _ r => contains needle r
     end.

(** The stores of the fields [fs] fail with type errors only. *)
Definition typed {T} (fs : list (field T)) : Prop :=
  forall f, In f fs -> forall v cur e, fstore f v cur = Err e -> type_error e.

End Notions.

(* ===================================================================== *)
(** * Facts about strings *)
(* ===================================================================== *)

(** Two results of one call are the same result. *)
Ltac same_result :=
  repeat match goal with
         | H : OK _ = OK _ |- _ => inversion H; subst; clear H
         | H : Return _ = Return _ |- _ => inversion H; subst; clear H
         | H : Some _ = Some _ |- _ => inversion H; subst; clear H
         end;
  try reflexivity; try assumption; try congruence; try contradiction.

Lemma append_assoc (a b c : string) : (a ++ b) ++ c = a ++ (b ++ c).
Proof.
  induction a as [|x a IH]; simpl; [reflexivity | rewrite IH; reflexivity].
Qed.

Lemma append_nil_r (a : string) : a ++ "" = a.
Proof.
  induction a as [|x a IH]; simpl; [reflexivity | rewrite IH; reflexivity].
Qed.

(* ===================================================================== *)
(** * Properties of the response parser *)
(* ===================================================================== *)

Module ResponseContract.
Import GoJSON LLM Examples Notions.

Lemma ParseJSONTo_OK {T} (unmarshal : string -> result T) jsonStr x :
  ParseJSONTo unmarshal jsonStr = OK x <-> unmarshal jsonStr = OK x.
Proof.
  unfold ParseJSONTo. destruct (unmarshal jsonStr); split; congruence.
Qed.

(** The three-way test of [risk_level] is the negation of
    [valid_risk_level]. *)
Lemma risk_check_spec (s : string) :
  negb (String.eqb s "low") && negb (String.eqb s "medium") && negb (String.eqb s "high")
  = true <-> ~ valid_risk_level s.
Proof.
  unfold valid_risk_level.
  destruct (String.eqb_spec s "low"), (String.eqb_spec s "medium"),
    (String.eqb_spec s "high"); simpl; split; intros; try congruence; tauto.
Qed.

Lemma find_field_In {T} (fs : list (field T)) key f :
  find_field fs key = Some f -> In f fs.
Proof.
  unfold find_field. intros H.
  destruct (find (fun f0 => String.eqb (fname f0) key) fs) eqn:E.
  - inversion H; subst. apply find_some in E. tauto.
  - apply find_some in H. tauto.
Qed.

(** ** The first decoding, member by member *)

(** The first decoding of the members of an object fails on the first
    member that selects [action] or [reason] and holds neither a string
    nor [null], with a type error that names the field and the kind of
    the value; without such a member it succeeds, and the action it
    reads is the one the members name. *)
Lemma store_members_base_cases :
  forall ms cur,
    match first_mistyped ms with
    | Some (field, x) =>
      store_members base_fields ms cur
      = Err (UnmarshalTypeError (kind_name x) ("base." ++ field))
    | None =>
      exists b,
        store_members base_fields ms cur = OK b
        /\ base_Action b = action_of ms (base_Action cur)
    end.
Proof.
  induction ms as [|[k v] ms IH]; intros cur.
  - simpl. exists cur. split; reflexivity.
  - simpl. unfold names_action.
    destruct (find_field base_fields k) as [f|] eqn:F.
    + pose proof (find_field_In _ _ _ F) as Hin.
      simpl in Hin. destruct Hin as [<-|[<-|[]]]; simpl;
        destruct v; simpl; try reflexivity;
        match goal with
        | |- context [store_members base_fields ms ?c] => exact (IH c)
        end.
    + apply IH.
Qed.

Lemma Unmarshal_base_cases jsonStr ms :
  parse jsonStr = Some (Object ms) ->
  match first_mistyped ms with
  | Some (field, x) =>
    Unmarshal_base jsonStr = Err (UnmarshalTypeError (kind_name x) ("base." ++ field))
  | None =>
    exists b, Unmarshal_base jsonStr = OK b /\ base_Action b = action_of ms ""
  end.
Proof.
  intros Hp. unfold Unmarshal_base, Unmarshal. rewrite Hp. simpl.
  apply (store_members_base_cases ms zero_base).
Qed.

(** Without a member that selects [action], the members name no action
    and only [reason] can be mistyped. *)
Lemma action_of_without_action ms cur :
  existsb (fun kv => names_action (fst kv)) ms = false ->
  action_of ms cur = cur
  /\ forall field x, first_mistyped ms = Some (field, x) -> field = "reason".
Proof.
  revert cur. induction ms as [|[k v] ms IH]; simpl; intros cur Hno.
  - split; [reflexivity | discriminate].
  - apply orb_false_iff in Hno. destruct Hno as [Hk Hms].
    rewrite Hk. destruct (IH cur Hms) as [Ha Hf]. split; [exact Ha|].
    intros field x. unfold names_action in Hk.
    destruct (find_field base_fields k) as [f|] eqn:F; [|apply Hf].
    pose proof (find_field_In _ _ _ F) as Hin.
    simpl in Hin. destruct Hin as [<-|[<-|[]]]; simpl in Hk; [discriminate|].
    destruct (stringish v); [apply Hf|].
    intros H. inversion H. reflexivity.
Qed.

(** The [case "heal"] branch, as an equation. *)
Lemma ParseAutoHealResponse_heal jsonStr b :
  Unmarshal_base jsonStr = OK b ->
  base_Action b = "heal" ->
  ParseAutoHealResponse jsonStr =
    match Unmarshal_HealAction jsonStr with
    | Err err => Err (Errorf_w "json unmarshal failed: " err)
    | OK heal =>
      if negb (String.eqb (HealAction_RiskLevel heal) "low")
         && negb (String.eqb (HealAction_RiskLevel heal) "medium")
         && negb (String.eqb (HealAction_RiskLevel heal) "high")
      then Err (Errorf_s "invalid risk_level: " (HealAction_RiskLevel heal))
      else OK (Heal heal)
    end.
Proof.
  intros Hb Ha. unfold ParseAutoHealResponse, ParseJSONTo.
  rewrite Hb, Ha. simpl.
  destruct (Unmarshal_HealAction jsonStr); reflexivity.
Qed.

Lemma valid_risk_level_is_accepted jsonStr b heal :
  Unmarshal_base jsonStr = OK b ->
  base_Action b = "heal" ->
  Unmarshal_HealAction jsonStr = OK heal ->
  valid_risk_level (HealAction_RiskLevel heal) ->
  ParseAutoHealResponse jsonStr = OK (Heal heal).
Proof.
  intros Hb Ha Hh Hv.
  rewrite (ParseAutoHealResponse_heal jsonStr b Hb Ha), Hh.
  destruct (negb (String.eqb (HealAction_RiskLevel heal) "low")
            && negb (String.eqb (HealAction_RiskLevel heal) "medium")
            && negb (String.eqb (HealAction_RiskLevel heal) "high")) eqn:E;
    [|reflexivity].
  apply risk_check_spec in E. contradiction.
Qed.

Lemma invalid_risk_level_is_refused jsonStr b heal :
  Unmarshal_base jsonStr = OK b ->
  base_Action b = "heal" ->
  Unmarshal_HealAction jsonStr = OK heal ->
  ~ valid_risk_level (HealAction_RiskLevel heal) ->
  ParseAutoHealResponse jsonStr
  = Err (errorString ("invalid risk_level: " ++ HealAction_RiskLevel heal)).
Proof.
  intros Hb Ha Hh Hv.
  rewrite (ParseAutoHealResponse_heal jsonStr b Hb Ha), Hh.
  apply risk_check_spec in Hv. rewrite Hv. reflexivity.
Qed.

(** A response that is valid JSON with action "heal" and a risk level
    outside the three, whose [detail] is a number: the error is the one
    of the second decoding, not the validation error. *)
Lemma mistyped_member_is_not_a_validation_error :
  parse (dq "{'action':'heal','risk_level':'critical','detail':7}")
  = Some (Object [("action", Str "heal"); ("risk_level", Str "critical");
                  ("detail", Number "7")])
  /\ action_of [("action", Str "heal"); ("risk_level", Str "critical");
                ("detail", Number "7")] "" = "heal"
  /\ ~ valid_risk_level "critical"
  /\ ParseAutoHealResponse (dq "{'action':'heal','risk_level':'critical','detail':7}")
     = Err (Errorf_w "json unmarshal failed: " (UnmarshalTypeError "number" "HealAction.detail"))
  /\ Errorf_w "json unmarshal failed: " (UnmarshalTypeError "number" "HealAction.detail")
     <> errorString "invalid risk_level: critical".
Proof.
  split; [reflexivity|]. split; [reflexivity|]. split; [|split].
  - intros [H|[H|H]]; discriminate.
  - reflexivity.
  - discriminate.
Qed.

(** C1, as the code has it. For a response that is a JSON object naming
    the action "heal": when a member that selects [action] or [reason]
    holds neither a string nor [null], the result is the error of the
    first decoding; otherwise, when the HealAction cannot be decoded,
    the result is the error of the second decoding, whatever the risk
    level; otherwise the decoded HealAction is returned, unchanged,
    exactly when its risk_level is "low", "medium" or "high", and every
    other risk_level, the empty string included, gives the error
    "invalid risk_level: <value>". A NoopAction is never returned. *)
Theorem heal_requires_valid_risk_level :
  forall jsonStr ms,
    parse jsonStr = Some (Object ms) ->
    action_of ms "" = "heal" ->
    match first_mistyped ms with
    | Some (field, x) =>
      ParseAutoHealResponse jsonStr
      = Err (Errorf_w "parse base failed: "
               (UnmarshalTypeError (kind_name x) ("base." ++ field)))
    | None =>
      match Unmarshal_HealAction jsonStr with
      | Err err =>
        ParseAutoHealResponse jsonStr = Err (Errorf_w "json unmarshal failed: " err)
      | OK heal =>
        (valid_risk_level (HealAction_RiskLevel heal) ->
         ParseAutoHealResponse jsonStr = OK (Heal heal))
        /\ (~ valid_risk_level (HealAction_RiskLevel heal) ->
            ParseAutoHealResponse jsonStr
            = Err (errorString ("invalid risk_level: " ++ HealAction_RiskLevel heal)))
      end
    end
    /\ (forall heal,
          ParseAutoHealResponse jsonStr = OK (Heal heal) ->
          Unmarshal_HealAction jsonStr = OK heal
          /\ valid_risk_level (HealAction_RiskLevel heal))
    /\ (forall noop, ParseAutoHealResponse jsonStr <> OK (Noop noop)).
Proof.
  intros jsonStr ms Hp Ha.
  pose proof (Unmarshal_base_cases jsonStr ms Hp) as Hb.
  destruct (first_mistyped ms) as [[field x]|].
  - assert (E : ParseAutoHealResponse jsonStr
                = Err (Errorf_w "parse base failed: "
                         (UnmarshalTypeError (kind_name x) ("base." ++ field)))).
    { unfold ParseAutoHealResponse. rewrite Hb. reflexivity. }
    rewrite E. split; [reflexivity|]. split; intros; discriminate.
  - destruct Hb as (b & Hb & Hact). rewrite Ha in Hact.
    pose proof (ParseAutoHealResponse_heal jsonStr b Hb Hact) as E.
    split; [|split].
    + destruct (Unmarshal_HealAction jsonStr) as [heal|err] eqn:Hh; [|exact E].
      split; intros Hv.
      * apply (valid_risk_level_is_accepted jsonStr b heal Hb Hact Hh Hv).
      * apply (invalid_risk_level_is_refused jsonStr b heal Hb Hact Hh Hv).
    + intros heal H. rewrite E in H.
      destruct (Unmarshal_HealAction jsonStr) as [h|e]; [|discriminate].
      destruct (negb (String.eqb (HealAction_RiskLevel h) "low")
                && negb (String.eqb (HealAction_RiskLevel h) "medium")
                && negb (String.eqb (HealAction_RiskLevel h) "high")) eqn:Hr;
        [discriminate|].
      inversion H; subst. split; [reflexivity|].
      destruct (String.eqb_spec (HealAction_RiskLevel heal) "low"); [left; assumption|].
      destruct (String.eqb_spec (HealAction_RiskLevel heal) "medium");
        [right; left; assumption|].
      destruct (String.eqb_spec (HealAction_RiskLevel heal) "high");
        [right; right; assumption | discriminate].
    + intros noop H. rewrite E in H.
      destruct (Unmarshal_HealAction jsonStr) as [h|e]; [|discriminate].
      destruct (negb _ && _ && _); discriminate.
Qed.

Lemma heal_requires_valid_risk_level_witness :
  ParseAutoHealResponse heal_critical = Err (errorString "invalid risk_level: critical")
  /\ (forall heal,
        ParseAutoHealResponse heal_critical = OK (Heal heal) ->
        Unmarshal_HealAction heal_critical = OK heal
        /\ valid_risk_level (HealAction_RiskLevel heal))
  /\ (forall noop, ParseAutoHealResponse heal_critical <> OK (Noop noop)).
Proof.
  destruct (heal_requires_valid_risk_level heal_critical
              [("action", Str "heal"); ("namespace", Str "order-prod");
               ("risk_level", Str "critical")] eq_refl eq_refl) as (H1 & H2 & H3).
  split; [|split; assumption].
  apply (proj2 H1). intros [H|[H|H]]; discriminate.
Defined.

(** The spec's examples: "critical" and the empty risk level are
    refused, and a member name is matched case-insensitively while its
    value is not. *)
Example risk_level_critical_refused :
  ParseAutoHealResponse heal_critical = Err (errorString "invalid risk_level: critical").
Proof. reflexivity. Qed.

Example risk_level_empty_refused :
  ParseAutoHealResponse heal_empty_risk = Err (errorString "invalid risk_level: ").
Proof. reflexivity. Qed.

Example risk_level_missing_refused :
  ParseAutoHealResponse (dq "{'action':'heal'}") = Err (errorString "invalid risk_level: ").
Proof. reflexivity. Qed.

Example risk_level_value_is_case_sensitive :
  ParseAutoHealResponse (dq "{'action':'heal','RISK_LEVEL':'High'}")
  = Err (errorString "invalid risk_level: High").
Proof. reflexivity. Qed.

Example heal_low_accepted :
  ParseAutoHealResponse heal_low = OK (Heal heal_low_action).
Proof. reflexivity. Qed.

(** A response that is valid JSON with the action "ignore", whose
    [reason] is a number: the error is the one of the first decoding,
    and its text does not hold the action. *)
Lemma mistyped_reason_hides_the_action :
  parse (dq "{'action':'ignore','reason':5}")
  = Some (Object [("action", Str "ignore"); ("reason", Number "5")])
  /\ action_of [("action", Str "ignore"); ("reason", Number "5")] "" = "ignore"
  /\ ParseAutoHealResponse (dq "{'action':'ignore','reason':5}")
     = Err (Errorf_w "parse base failed: " (UnmarshalTypeError "number" "base.reason"))
  /\ contains "ignore"
       (Error (Errorf_w "parse base failed: " (UnmarshalTypeError "number" "base.reason")))
     = false.
Proof. repeat split. Qed.

(** C3, as the code has it. For a response that is a JSON object naming
    an action other than "heal" and "noop", neither a NoopAction nor a
    HealAction is returned. The error is "unknown action: <value>",
    which names the action, when every member that selects [action] or
    [reason] holds a string or [null]; when one of them holds another
    kind of value it is the error of the first decoding, which names
    that field and the kind of the value, not the action. *)
Theorem unknown_action_is_an_error :
  forall jsonStr ms,
    parse jsonStr = Some (Object ms) ->
    action_of ms "" <> "heal" ->
    action_of ms "" <> "noop" ->
    match first_mistyped ms with
    | Some (field, x) =>
      ParseAutoHealResponse jsonStr
      = Err (Errorf_w "parse base failed: "
               (UnmarshalTypeError (kind_name x) ("base." ++ field)))
    | None =>
      ParseAutoHealResponse jsonStr
      = Err (errorString ("unknown action: " ++ action_of ms ""))
      /\ Error (errorString ("unknown action: " ++ action_of ms ""))
         = "unknown action: " ++ action_of ms ""
    end
    /\ (forall noop, ParseAutoHealResponse jsonStr <> OK (Noop noop))
    /\ (forall heal, ParseAutoHealResponse jsonStr <> OK (Heal heal)).
Proof.
  intros jsonStr ms Hp Hheal Hnoop.
  pose proof (Unmarshal_base_cases jsonStr ms Hp) as Hb.
  destruct (first_mistyped ms) as [[field x]|].
  - assert (E : ParseAutoHealResponse jsonStr
                = Err (Errorf_w "parse base failed: "
                         (UnmarshalTypeError (kind_name x) ("base." ++ field)))).
    { unfold ParseAutoHealResponse. rewrite Hb. reflexivity. }
    rewrite E. split; [reflexivity|]. split; intros; discriminate.
  - destruct Hb as (b & Hb & Hact).
    assert (E : ParseAutoHealResponse jsonStr
                = Err (errorString ("unknown action: " ++ action_of ms ""))).
    { unfold ParseAutoHealResponse. rewrite Hb, Hact.
      apply String.eqb_neq in Hheal. apply String.eqb_neq in Hnoop.
      rewrite Hheal, Hnoop. reflexivity. }
    rewrite E. split; [split; reflexivity|]. split; intros; discriminate.
Qed.

Lemma unknown_action_is_an_error_witness :
  (ParseAutoHealResponse action_ignore = Err (errorString "unknown action: ignore")
   /\ Error (errorString "unknown action: ignore") = "unknown action: ignore")
  /\ (forall noop, ParseAutoHealResponse action_ignore <> OK (Noop noop))
  /\ (forall heal, ParseAutoHealResponse action_ignore <> OK (Heal heal)).
Proof.
  apply (unknown_action_is_an_error action_ignore
           [("action", Str "ignore"); ("reason", Str "nothing to do")]);
    [reflexivity | discriminate | discriminate].
Defined.

(** ** Without a discriminant *)

Lemma empty_action_is_unknown jsonStr b :
  Unmarshal_base jsonStr = OK b ->
  base_Action b = "" ->
  ParseAutoHealResponse jsonStr = Err (errorString "unknown action: ").
Proof.
  intros Hb Ha. unfold ParseAutoHealResponse. rewrite Hb, Ha. reflexivity.
Qed.

(** The text [{}] is valid JSON without the discriminant, and the error
    it gets is not the one of a failed first decoding. *)
Lemma empty_object_is_not_a_parse_error :
  parse empty_object = Some (Object [])
  /\ has_action (Object []) = false
  /\ ParseAutoHealResponse empty_object = Err (errorString "unknown action: ")
  /\ ~ is_parse_error (errorString "unknown action: ").
Proof.
  repeat split. intros [err H]. discriminate.
Qed.

(** C4, as the code has it. A text that is not valid JSON gets the error
    "parse base failed: ..". A valid JSON text without the action
    discriminant gets an error too, and never a HealAction or a
    NoopAction. For [null], and for an object in which every member
    that selects [reason] holds a string or [null], the error is
    "unknown action: ", naming the empty action. For an object in which
    a member that selects [reason] holds another kind of value, it is
    "parse base failed: .." with the type error of the first such
    member; for a text that is no object at all, it is "parse base
    failed: .." with the type error of the text. *)
Theorem no_outcome_without_action :
  forall jsonStr,
    (parse jsonStr = None ->
     ParseAutoHealResponse jsonStr
     = Err (Errorf_w "parse base failed: " (SyntaxError "invalid JSON text")))
    /\ (forall v,
        parse jsonStr = Some v ->
        has_action v = false ->
        (forall outcome, ParseAutoHealResponse jsonStr <> OK outcome)
        /\ match v with
           | Null => ParseAutoHealResponse jsonStr = Err (errorString "unknown action: ")
           | Object ms =>
             match first_mistyped ms with
             | None =>
               ParseAutoHealResponse jsonStr = Err (errorString "unknown action: ")
             | Some (field, x) =>
               field = "reason"
               /\ ParseAutoHealResponse jsonStr
                  = Err (Errorf_w "parse base failed: "
                           (UnmarshalTypeError (kind_name x) "base.reason"))
             end
           | _ =>
             ParseAutoHealResponse jsonStr
             = Err (Errorf_w "parse base failed: " (UnmarshalTypeError (kind_name v) "base"))
           end).
Proof.
  intros jsonStr. split.
  - intros Hp. unfold ParseAutoHealResponse, Unmarshal_base, Unmarshal.
    rewrite Hp. reflexivity.
  - intros v Hp Hno.
    destruct v as [| | | |vs|ms];
      try (unfold ParseAutoHealResponse, Unmarshal_base, Unmarshal; rewrite Hp;
           split; [intros outcome H; discriminate | reflexivity]).
    simpl in Hno.
    destruct (action_of_without_action ms "" Hno) as [Hact Hfield].
    pose proof (Unmarshal_base_cases jsonStr ms Hp) as Hb.
    destruct (first_mistyped ms) as [[field x]|].
    + rewrite (Hfield field x eq_refl) in Hb.
      assert (E : ParseAutoHealResponse jsonStr
                  = Err (Errorf_w "parse base failed: "
                           (UnmarshalTypeError (kind_name x) "base.reason"))).
      { unfold ParseAutoHealResponse. rewrite Hb. reflexivity. }
      split; [intros outcome H; congruence|].
      split; [apply (Hfield field x eq_refl) | exact E].
    + destruct Hb as (b & Hb & Ha). rewrite Hact in Ha.
      pose proof (empty_action_is_unknown jsonStr b Hb Ha) as E.
      split; [intros outcome H; congruence | exact E].
Qed.

Lemma no_outcome_without_action_witness :
  ParseAutoHealResponse not_json
  = Err (Errorf_w "parse base failed: " (SyntaxError "invalid JSON text"))
  /\ (forall outcome, ParseAutoHealResponse empty_object <> OK outcome)
  /\ ParseAutoHealResponse empty_object = Err (errorString "unknown action: ")
  /\ (forall outcome, ParseAutoHealResponse (dq "{'reason':5}") <> OK outcome)
  /\ ParseAutoHealResponse (dq "{'reason':5}")
     = Err (Errorf_w "parse base failed: " (UnmarshalTypeError "number" "base.reason")).
Proof.
  split; [|split; [|split; [|split]]].
  - apply (proj1 (no_outcome_without_action not_json)). reflexivity.
  - apply (proj2 (no_outcome_without_action empty_object) (Object []));
      reflexivity.
  - apply (proj2 (no_outcome_without_action empty_object) (Object []));
      reflexivity.
  - apply (proj2 (no_outcome_without_action (dq "{'reason':5}"))
             (Object [("reason", Number "5")])); reflexivity.
  - apply (proj2 (no_outcome_without_action (dq "{'reason':5}"))
             (Object [("reason", Number "5")])); reflexivity.
Defined.

(** Both halves at work: a text that is not JSON, and objects without
    the discriminant. *)
Example not_json_is_a_parse_error :
  parse not_json = None
  /\ ParseAutoHealResponse not_json
     = Err (wrapError "parse base failed: invalid JSON text" (SyntaxError "invalid JSON text")).
Proof. split; reflexivity. Qed.

Example reason_only_is_unknown_action :
  ParseAutoHealResponse (dq "{'reason':'all good'}") = Err (errorString "unknown action: ").
Proof. reflexivity. Qed.

Example array_is_a_parse_error :
  ParseAutoHealResponse "[1]"
  = Err (Errorf_w "parse base failed: " (UnmarshalTypeError "array" "base")).
Proof. reflexivity. Qed.


(** ** The ops of a patch *)

(** Reading a plain string literal: the scanner collects it byte by
    byte, and unquoting gives it back. *)
Lemma rev_string_app (s acc : string) :
  rev_string s acc = rev_string s "" ++ acc.
Proof.
  revert acc. induction s as [|c s IH]; intros acc; simpl.
  - reflexivity.
  - rewrite IH, (IH (String c "")). rewrite append_assoc. reflexivity.
Qed.

Lemma rev_string_involutive (s acc tail : string) :
  rev_string (rev_string s acc) tail = rev_string acc (s ++ tail).
Proof.
  revert acc tail. induction s as [|c s IH]; intros acc tail; simpl.
  - reflexivity.
  - rewrite IH. reflexivity.
Qed.

Lemma plain_char_facts (c : ascii) :
  plain_char c = true ->
  Ascii.eqb c quote = false /\ Ascii.eqb c "\" = false
  /\ (code c <? 32)%N = false /\ (code c <? 128)%N = true.
Proof.
  unfold plain_char, in_range. intros H.
  apply andb_true_iff in H. destruct H as [H Hb].
  apply andb_true_iff in H. destruct H as [H Hq].
  apply andb_true_iff in H. destruct H as [Hlo Hhi].
  apply negb_true_iff in Hq. apply negb_true_iff in Hb.
  apply N.leb_le in Hlo. apply N.leb_le in Hhi.
  repeat split; try assumption.
  - apply N.ltb_ge. assumption.
  - apply N.ltb_lt. lia.
Qed.

Lemma lex_plain :
  forall s acc rest,
    plain s = true ->
    lex (s ++ String quote rest) (LString acc)
    = match lex rest LIdle with
      | Some ts => Some (TStr (unquote (rev_string (rev_string s acc) "")) :: ts)
      | None => None
      end.
Proof.
  induction s as [|c s IH]; intros acc rest Hp.
  - cbn [append lex lex_step]. rewrite Ascii.eqb_refl.
    destruct (lex rest LIdle); reflexivity.
  - cbn [plain] in Hp. apply andb_true_iff in Hp. destruct Hp as [Hc Hs].
    destruct (plain_char_facts c Hc) as (Hq & Hb & Hctl & _).
    cbn [append lex lex_step]. rewrite Hq, Hb, Hctl.
    rewrite (IH (String c acc) rest Hs). cbn [app rev_string].
    destruct (lex rest LIdle); reflexivity.
Qed.

Lemma sanitize_plain (s : string) : plain s = true -> sanitize s = s.
Proof.
  induction s as [|c s IH]; intros Hp.
  - reflexivity.
  - cbn [plain] in Hp. apply andb_true_iff in Hp. destruct Hp as [Hc Hs].
    destruct (plain_char_facts c Hc) as (_ & _ & _ & Hascii).
    cbn [sanitize]. rewrite Hascii, (IH Hs). reflexivity.
Qed.

Lemma unescape_plain (s : string) : plain s = true -> unescape s UPlain None = s.
Proof.
  induction s as [|c s IH]; intros Hp.
  - reflexivity.
  - cbn [plain] in Hp. apply andb_true_iff in Hp. destruct Hp as [Hc Hs].
    destruct (plain_char_facts c Hc) as (_ & Hb & _ & _).
    cbn [unescape]. rewrite Hb, (IH Hs). reflexivity.
Qed.

Lemma unquote_plain (s : string) : plain s = true -> unquote s = s.
Proof.
  intros Hp. unfold unquote. rewrite (sanitize_plain s Hp). apply unescape_plain, Hp.
Qed.

Lemma lex_string_literal :
  forall s rest,
    plain s = true ->
    lex (String quote (s ++ String quote rest)) LIdle
    = match lex rest LIdle with
      | Some ts => Some (TStr s :: ts)
      | None => None
      end.
Proof.
  intros s rest Hp.
  change (lex (String quote (s ++ String quote rest)) LIdle)
    with (match lex (s ++ String quote rest) (LString "") with
          | Some r => Some ([] ++ r)%list
          | None => None
          end).
  rewrite (lex_plain s "" rest Hp).
  rewrite rev_string_involutive. cbn [rev_string].
  rewrite append_nil_r.
  rewrite (unquote_plain s Hp).
  destruct (lex rest LIdle); reflexivity.
Qed.


Lemma lex_app :
  forall a b st,
    lex (a ++ b) st
    = match lex_prefix a st with
      | Some (st', toks) =>
        match lex b st' with
        | Some rest => Some (toks ++ rest)%list
        | None => None
        end
      | None => None
      end.
Proof.
  induction a as [|c a IH]; intros b st.
  - cbn [append lex_prefix]. destruct (lex b st); reflexivity.
  - cbn [append lex lex_prefix].
    destruct (lex_step st c) as [[st' toks]|]; [|reflexivity].
    rewrite IH.
    destruct (lex_prefix a st') as [[st'' rest]|]; [|reflexivity].
    destruct (lex b st''); [|reflexivity].
    rewrite app_assoc. reflexivity.
Qed.

(** A text made of a fixed beginning, a plain string literal and a fixed
    end: its tokens. *)
Lemma lex_around_literal :
  forall before s after toks1 toks2,
    plain s = true ->
    lex_prefix before LIdle = Some (LIdle, toks1) ->
    lex after LIdle = Some toks2 ->
    lex (before ++ literal s after) LIdle = Some (toks1 ++ TStr s :: toks2)%list.
Proof.
  intros before s after toks1 toks2 Hp H1 H2.
  rewrite lex_app, H1. unfold literal.
  rewrite (lex_string_literal s after Hp), H2. reflexivity.
Qed.

(** Rewrites the tokens of such a text in the goal. *)
Ltac lex_literal s Hp :=
  match goal with
  | |- context [lex (?before ++ literal s ?after) LIdle] =>
    let r1 := eval vm_compute in (lex_prefix before LIdle) in
    let r2 := eval vm_compute in (lex after LIdle) in
    match r1 with
    | Some (LIdle, ?t1) =>
      match r2 with
      | Some ?t2 =>
        rewrite (lex_around_literal before s after t1 t2 Hp);
        [ | vm_compute; reflexivity | vm_compute; reflexivity ]
      end
    end
  end.

Lemma parse_heal_with_op (op : string) :
  plain op = true ->
  parse (heal_with_op op)
  = Some (Object [("action", Str "heal"); ("risk_level", Str "low");
                  ("patch_content",
                   Array [Object [("op", Str op); ("path", Str "/spec/replicas")]])]).
Proof.
  intros Hp. unfold parse, heal_with_op.
  lex_literal op Hp. reflexivity.
Qed.

(** Every plain op, whatever it says, is accepted and carried through. *)
Lemma any_op_is_accepted (op : string) :
  plain op = true ->
  ParseAutoHealResponse (heal_with_op op) = OK (Heal (heal_action_with_op op)).
Proof.
  intros Hp.
  unfold ParseAutoHealResponse, ParseJSONTo, Unmarshal_base, Unmarshal_HealAction, Unmarshal.
  rewrite (parse_heal_with_op op Hp). reflexivity.
Qed.

(** The response [heal_move] is valid JSON with action "heal" and risk
    level "low"; it is accepted although its op is "move". *)
Lemma move_op_is_accepted :
  Unmarshal_base heal_move = OK (mkBase "heal" "")
  /\ ParseAutoHealResponse heal_move
     = OK (Heal (mkHealAction "" "heal" "" "" ""
                   [ mkPatchOp "move" "/spec/replicas" (Number "20") ]
                   zero_Target "" "low"))
  /\ ~ valid_op "move".
Proof.
  repeat split. unfold valid_op. intros [H|[H|H]]; discriminate.
Qed.

(** C8, as the code has it. For a response that is valid JSON with
    action "heal" whose decoding succeeds with a valid risk_level, the
    decoded HealAction is returned as it is: the op of a patch element
    is an unconstrained string that is never checked. In particular the
    response with a single patch element of op [op] is accepted for
    every plain string [op], with that op in the HealAction. *)
Theorem patch_ops_are_not_validated :
  forall jsonStr b heal,
    Unmarshal_base jsonStr = OK b ->
    base_Action b = "heal" ->
    Unmarshal_HealAction jsonStr = OK heal ->
    valid_risk_level (HealAction_RiskLevel heal) ->
    ParseAutoHealResponse jsonStr = OK (Heal heal)
    /\ (forall op,
        plain op = true ->
        exists accepted,
          ParseAutoHealResponse (heal_with_op op) = OK (Heal accepted)
          /\ map PatchOp_Op (HealAction_PatchContent accepted) = [op]).
Proof.
  intros jsonStr b heal Hb Ha Hh Hv. split.
  - apply (valid_risk_level_is_accepted jsonStr b heal Hb Ha Hh Hv).
  - intros op Hp. exists (heal_action_with_op op). split.
    + apply any_op_is_accepted, Hp.
    + reflexivity.
Qed.

Lemma patch_ops_are_not_validated_witness :
  ParseAutoHealResponse heal_move
  = OK (Heal (mkHealAction "" "heal" "" "" ""
                [ mkPatchOp "move" "/spec/replicas" (Number "20") ]
                zero_Target "" "low"))
  /\ (forall op,
      plain op = true ->
      exists accepted,
        ParseAutoHealResponse (heal_with_op op) = OK (Heal accepted)
        /\ map PatchOp_Op (HealAction_PatchContent accepted) = [op]).
Proof.
  apply (patch_ops_are_not_validated heal_move (mkBase "heal" "")).
  - reflexivity.
  - reflexivity.
  - reflexivity.
  - left. reflexivity.
Defined.


(** ** Families of responses *)

Lemma parse_heal_with_risk_level (risk : string) :
  plain risk = true ->
  parse (heal_with_risk_level risk)
  = Some (Object [("action", Str "heal"); ("namespace", Str "order-prod");
                  ("risk_level", Str risk)]).
Proof.
  intros Hp. unfold parse, heal_with_risk_level.
  lex_literal risk Hp. reflexivity.
Qed.

(** Every plain risk level other than the three is refused by name;
    each of the three is accepted. *)
Lemma every_other_risk_level_is_refused (risk : string) :
  plain risk = true ->
  (~ valid_risk_level risk ->
   ParseAutoHealResponse (heal_with_risk_level risk)
   = Err (errorString ("invalid risk_level: " ++ risk)))
  /\ (valid_risk_level risk ->
      ParseAutoHealResponse (heal_with_risk_level risk)
      = OK (Heal (mkHealAction "order-prod" "heal" "" "" "" [] zero_Target "" risk))).
Proof.
  intros Hp.
  assert (Hb : Unmarshal_base (heal_with_risk_level risk) = OK (mkBase "heal" "")).
  { unfold Unmarshal_base, Unmarshal. rewrite (parse_heal_with_risk_level risk Hp).
    reflexivity. }
  assert (Hh : Unmarshal_HealAction (heal_with_risk_level risk)
               = OK (mkHealAction "order-prod" "heal" "" "" "" [] zero_Target "" risk)).
  { unfold Unmarshal_HealAction, Unmarshal. rewrite (parse_heal_with_risk_level risk Hp).
    reflexivity. }
  rewrite (ParseAutoHealResponse_heal _ _ Hb eq_refl), Hh. cbn [HealAction_RiskLevel].
  destruct (negb (String.eqb risk "low") && negb (String.eqb risk "medium")
            && negb (String.eqb risk "high")) eqn:E.
  - apply risk_check_spec in E. split; intros; [reflexivity | contradiction].
  - split; intros H; [|reflexivity].
    apply risk_check_spec in H. congruence.
Qed.

Lemma parse_response_with_action (action : string) :
  plain action = true ->
  parse (response_with_action action)
  = Some (Object [("reason", Str "as observed"); ("action", Str action)]).
Proof.
  intros Hp. unfold parse, response_with_action.
  lex_literal action Hp. reflexivity.
Qed.

(** Every plain action other than "heal" and "noop" is refused by name. *)
Lemma every_other_action_is_refused (action : string) :
  plain action = true ->
  action <> "heal" ->
  action <> "noop" ->
  ParseAutoHealResponse (response_with_action action)
  = Err (errorString ("unknown action: " ++ action)).
Proof.
  intros Hp Hheal Hnoop.
  assert (Hb : Unmarshal_base (response_with_action action)
               = OK (mkBase action "as observed")).
  { unfold Unmarshal_base, Unmarshal. rewrite (parse_response_with_action action Hp).
    reflexivity. }
  unfold ParseAutoHealResponse. rewrite Hb. cbn [base_Action].
  apply String.eqb_neq in Hheal. apply String.eqb_neq in Hnoop.
  rewrite Hheal, Hnoop. reflexivity.
Qed.

End ResponseContract.

(* ===================================================================== *)
(** * Properties of the pod filter *)
(* ===================================================================== *)

Module PodSnapshot.
Import Controller Examples.
Local Open Scope Z_scope.

Lemma index_empty {A} (i : Z) : @index A [] i = Panics (IndexOutOfRange i 0).
Proof.
  unfold index. destruct (i <? 0); [reflexivity|].
  destruct (Z.to_nat i); reflexivity.
Qed.

Lemma index_last {A} (s : list A) (x : A) :
  index (s ++ [x]) (len (s ++ [x]) - 1) = Return x.
Proof.
  unfold index, len. rewrite length_app. simpl length.
  replace (Z.of_nat (length s + 1) - 1) with (Z.of_nat (length s)) by lia.
  destruct (Z.of_nat (length s) <? 0) eqn:E; [apply Z.ltb_lt in E; lia|].
  rewrite Nat2Z.id, nth_error_app2, Nat.sub_diag by lia. reflexivity.
Qed.

(** When the filter returns and when it panics. *)
Lemma FilterPodFields_returns (pod : Pod) :
  PodStatus_Conditions (Pod_Status pod) <> [] ->
  PodStatus_ContainerStatuses (Pod_Status pod) <> [] ->
  exists filtered, FilterPodFields pod = Return filtered.
Proof.
  intros Hc Hs. unfold FilterPodFields.
  destruct (exists_last Hc) as (cs & c & ->).
  rewrite index_last.
  destruct (PodStatus_ContainerStatuses (Pod_Status pod)) as [|s ss]; [contradiction|].
  simpl. eexists. reflexivity.
Qed.

Lemma FilterPodFields_panics_without_conditions (pod : Pod) :
  PodStatus_Conditions (Pod_Status pod) = [] ->
  FilterPodFields pod = Panics (IndexOutOfRange (-1) 0).
Proof.
  intros Hc. unfold FilterPodFields. rewrite Hc, index_empty. reflexivity.
Qed.

Lemma FilterPodFields_panics_without_statuses (pod : Pod) :
  PodStatus_Conditions (Pod_Status pod) <> [] ->
  PodStatus_ContainerStatuses (Pod_Status pod) = [] ->
  FilterPodFields pod = Panics (IndexOutOfRange 0 0).
Proof.
  intros Hc Hs. unfold FilterPodFields.
  destruct (exists_last Hc) as (cs & c & ->).
  rewrite index_last, Hs. reflexivity.
Qed.

(** C2. The filter is not total: on a pod without conditions, and on a
    pod without container statuses, it panics with an index out of
    range instead of returning a filtered pod. *)
Theorem FilterPodFields_panics_on_empty_status :
  FilterPodFields pending_pod = Panics (IndexOutOfRange (-1) 0)
  /\ FilterPodFields unstarted_pod = Panics (IndexOutOfRange 0 0)
  /\ (forall filtered, FilterPodFields pending_pod <> Return filtered)
  /\ (forall filtered, FilterPodFields unstarted_pod <> Return filtered).
Proof.
  repeat split; intros; discriminate.
Qed.

(** The panic reaches the evidence report: with such a pod among the
    matches, no report is built. *)
Example BuildEventString_panics_on_pending_pod :
  BuildEventString (reconciler [running_pod; pending_pod] one_alert one_log "") order_target
  = Panics (IndexOutOfRange (-1) 0).
Proof. reflexivity. Qed.

Lemma filter_all_stripped :
  forall pods filteredPods,
    filter_all pods = Return filteredPods -> Forall stripped filteredPods.
Proof.
  induction pods as [|pod pods IH]; simpl; intros fs H.
  - same_result. constructor.
  - destruct (FilterPodFields pod) as [f| |] eqn:Hf; simpl in H; try discriminate.
    destruct (filter_all pods) as [fs'| |]; simpl in H; try discriminate.
    same_result. constructor; [|apply IH; reflexivity].
    unfold FilterPodFields in Hf.
    destruct (index _ _); simpl in Hf; try discriminate.
    destruct (index _ _); simpl in Hf; try discriminate.
    same_result. repeat split.
Qed.

(** C7. Whenever the filter returns, the pod it returns has an empty
    resource version, generation zero and no owner references,
    finalizers or managed fields; the result does not depend on what
    these fields held; and every pod the resource YAML is encoded from
    has them cleared. *)
Theorem filtered_pod_has_no_bookkeeping :
  (forall pod filtered, FilterPodFields pod = Return filtered -> stripped filtered)
  /\ (forall resourceVersion generation owners finalizers managed pod,
      FilterPodFields (with_bookkeeping resourceVersion generation owners finalizers managed pod)
      = FilterPodFields pod)
  /\ (forall r target yaml,
      GetTargetResourceYAML r target = Return yaml ->
      exists pods filteredPods,
        GetTargetPods r target = OK pods
        /\ filter_all pods = Return filteredPods
        /\ Forall stripped filteredPods
        /\ yaml = encode_all r filteredPods).
Proof.
  split; [|split].
  - intros pod filtered H.
    assert (Hall : Forall stripped [filtered]).
    { apply (filter_all_stripped [pod]). simpl. rewrite H. reflexivity. }
    inversion Hall; assumption.
  - intros. reflexivity.
  - intros r target yaml H. unfold GetTargetResourceYAML in H.
    destruct (GetTargetPods r target) as [pods|e]; simpl in H; [|discriminate].
    destruct pods as [|pod pods].
    + change (Return "" = Return yaml) in H. same_result.
      exists [], []. repeat split. constructor.
    + assert (E : (len (pod :: pods) =? 0) = false).
      { apply Z.eqb_neq. unfold len. simpl length. lia. }
      rewrite E in H.
      destruct (filter_all (pod :: pods)) as [fs| |] eqn:Hf; simpl in H; try discriminate.
      same_result. exists (pod :: pods), fs.
      split; [reflexivity|]. split; [exact Hf|]. split; [|reflexivity].
      apply (filter_all_stripped (pod :: pods) fs Hf).
Qed.

Lemma filtered_pod_has_no_bookkeeping_witness :
  stripped
    (mkPod
       (mkObjectMeta "order-5d8f" "order-" "order-prod" "" "" 0 None [("app", "order")] []
          [] [] [])
       (mkPodSpec "node-1" [ mkContainer "app" "order:1.0" ])
       (mkPodStatus "Running" [ mkPodCondition "Ready" "False" None "" "" ]
          "" "" "" "" None
          [ mkContainerStatus "app" (mkContainerState (Some "CrashLoopBackOff") None None)
              zero_ContainerState false 0 "" "" ]))
  /\ exists pods filteredPods,
       GetTargetPods noisy order_target = OK pods
       /\ filter_all pods = Return filteredPods
       /\ Forall stripped filteredPods
       /\ ("name: order-5d8f" ++ nl ++ "---" ++ nl)%string = encode_all noisy filteredPods.
Proof.
  split.
  - apply (proj1 filtered_pod_has_no_bookkeeping running_pod). reflexivity.
  - apply (proj2 (proj2 filtered_pod_has_no_bookkeeping) noisy order_target). reflexivity.
Defined.

End PodSnapshot.

(* ===================================================================== *)
(** * Properties of target resolution *)
(* ===================================================================== *)

Module TargetResolution.
Import Controller Examples.

(** The namespace [GetTargetPods] lists in. *)
Lemma listed_namespace_cases (target : TargetSelector) :
  let namespace :=
    if String.eqb (TargetSelector_Namespace target) "" then NamespaceDefault
    else TargetSelector_Namespace target in
  (TargetSelector_Namespace target = "" -> namespace = "default")
  /\ (TargetSelector_Namespace target <> "" -> namespace = TargetSelector_Namespace target)
  /\ namespace <> "".
Proof.
  simpl. destruct (String.eqb_spec (TargetSelector_Namespace target) "") as [E|E].
  - repeat split; intros; try reflexivity; try contradiction. discriminate.
  - repeat split; intros; try reflexivity; try contradiction. assumption.
Qed.

(** C10. Whatever the client and the selector conversion do, the list
    call of [GetTargetPods] is made with namespace "default" when the
    target's namespace is empty and with the target's namespace
    otherwise, never with the empty namespace that would list across
    all namespaces; when the selector cannot be converted no list call
    is made and the conversion error is returned. *)
Theorem GetTargetPods_lists_in_one_namespace :
  forall (r : AIOpsAnalyzerReconciler) (target : TargetSelector),
  exists namespace,
    (TargetSelector_Namespace target = "" -> namespace = "default")
    /\ (TargetSelector_Namespace target <> "" -> namespace = TargetSelector_Namespace target)
    /\ namespace <> ""
    /\ match LabelSelector_MatchLabels (TargetSelector_Selector target),
             LabelSelector_MatchExpressions (TargetSelector_Selector target) with
       | None, None =>
         GetTargetPods r target = List r (mkListOptions namespace None)
       | _, _ =>
         match LabelSelectorAsSelector r (TargetSelector_Selector target) with
         | OK selector =>
           GetTargetPods r target = List r (mkListOptions namespace (Some selector))
         | Err err => GetTargetPods r target = Err err
         end
       end.
Proof.
  intros r target.
  exists (if String.eqb (TargetSelector_Namespace target) "" then NamespaceDefault
          else TargetSelector_Namespace target).
  destruct (listed_namespace_cases target) as (H1 & H2 & H3).
  repeat split; try assumption.
  unfold GetTargetPods.
  destruct (LabelSelector_MatchLabels (TargetSelector_Selector target)),
    (LabelSelector_MatchExpressions (TargetSelector_Selector target));
    simpl; try reflexivity;
    destruct (LabelSelectorAsSelector r (TargetSelector_Selector target)); reflexivity.
Qed.

(** A client that answers with the namespace it was asked to list. *)
Example unnamed_target_lists_default :
  GetTargetPods namespace_echo unnamed_target = Err (externalError "default").
Proof. reflexivity. Qed.

Example named_target_lists_its_namespace :
  GetTargetPods namespace_echo order_target = Err (externalError "order-prod").
Proof. reflexivity. Qed.

End TargetResolution.

(* ===================================================================== *)
(** * Properties of the evidence report *)
(* ===================================================================== *)

Module EvidenceReport.
Import GoJSON Controller Examples.

Lemma length_append (a b : string) :
  String.length (a ++ b) = String.length a + String.length b.
Proof.
  induction a as [|x a IH]; simpl; [reflexivity | rewrite IH; reflexivity].
Qed.

Lemma substring_prefix (h b : string) :
  substring 0 (String.length h) (h ++ b) = h.
Proof.
  induction h as [|x h IH]; simpl.
  - destruct b; reflexivity.
  - rewrite IH. reflexivity.
Qed.

(** A string stands right after what precedes it. *)
Lemma occurs_after (a h b : string) : occurs_at (String.length a) h (a ++ h ++ b).
Proof.
  unfold occurs_at. induction a as [|x a IH]; simpl.
  - apply substring_prefix.
  - exact IH.
Qed.

(** ** After the three sub-queries have returned *)

Section AfterTheQueries.

Variable r : AIOpsAnalyzerReconciler.
Variable target : TargetSelector.
Variables resourceYAML prometheusAlerts lokiLogs : string.

Hypothesis resource_returned : GetTargetResourceYAML r target = Return resourceYAML.
Hypothesis alerts_returned : GetPrometheusAlerts r target = OK prometheusAlerts.
Hypothesis logs_returned : GetLokiLogs r target = OK lokiLogs.

(** The report as a function of the three texts. *)
Lemma BuildEventString_eq :
  BuildEventString r target
  = Return
      (header_resource ++ resourceYAML ++ nl ++ header_alerts
       ++ (if String.eqb prometheusAlerts "" then "No firing alerts" ++ nl
           else prometheusAlerts)
       ++ nl ++ header_logs
       ++ (if String.eqb lokiLogs "" then "No error logs" ++ nl else lokiLogs)).
Proof.
  unfold BuildEventString.
  rewrite resource_returned, alerts_returned, logs_returned. reflexivity.
Qed.

(** C5. Whatever the three sub-queries returned, empty or not, the
    report holds the three section headers, each on a line of its own,
    in the order resource information, alerts, logs: the resource header
    at the very start, the alerts header after the resource block and a
    line feed, the logs header after the alerts block and a line feed. *)
Theorem report_sections_in_order :
  exists report alertsBlock logsBlock p_alerts p_logs,
    BuildEventString r target = Return report
    /\ report = "=== Target Resource Information ===" ++ nl ++ resourceYAML
                ++ nl ++ "=== Prometheus Alerts ===" ++ nl ++ alertsBlock
                ++ nl ++ "=== Loki Error Logs ===" ++ nl ++ logsBlock
    /\ occurs_at 0 ("=== Target Resource Information ===" ++ nl) report
    /\ occurs_at p_alerts (nl ++ "=== Prometheus Alerts ===" ++ nl) report
    /\ occurs_at p_logs (nl ++ "=== Loki Error Logs ===" ++ nl) report
    /\ String.length ("=== Target Resource Information ===" ++ nl) <= p_alerts
    /\ p_alerts + String.length (nl ++ "=== Prometheus Alerts ===" ++ nl) <= p_logs.
Proof.
  set (alertsBlock := if String.eqb prometheusAlerts "" then "No firing alerts" ++ nl
                      else prometheusAlerts).
  set (logsBlock := if String.eqb lokiLogs "" then "No error logs" ++ nl else lokiLogs).
  set (h1 := "=== Target Resource Information ===" ++ nl).
  set (h2 := nl ++ "=== Prometheus Alerts ===" ++ nl).
  set (h3 := nl ++ "=== Loki Error Logs ===" ++ nl).
  assert (E : header_resource ++ resourceYAML ++ nl ++ header_alerts ++ alertsBlock
              ++ nl ++ header_logs ++ logsBlock
              = h1 ++ resourceYAML ++ h2 ++ alertsBlock ++ h3 ++ logsBlock).
  { unfold header_resource, header_alerts, header_logs, h1, h2, h3.
    repeat rewrite append_assoc. reflexivity. }
  exists (h1 ++ resourceYAML ++ h2 ++ alertsBlock ++ h3 ++ logsBlock), alertsBlock, logsBlock,
    (String.length (h1 ++ resourceYAML)),
    (String.length ((h1 ++ resourceYAML) ++ h2 ++ alertsBlock)).
  split; [|split; [|split; [|split; [|split; [|split]]]]].
  - rewrite BuildEventString_eq. fold alertsBlock logsBlock. rewrite E. reflexivity.
  - unfold h1, h2, h3. repeat rewrite append_assoc. reflexivity.
  - apply (occurs_after "" h1).
  - rewrite <- (append_assoc h1 resourceYAML). apply occurs_after.
  - replace (h1 ++ resourceYAML ++ h2 ++ alertsBlock ++ h3 ++ logsBlock)
      with (((h1 ++ resourceYAML) ++ h2 ++ alertsBlock) ++ h3 ++ logsBlock)
      by (repeat rewrite append_assoc; reflexivity).
    apply occurs_after.
  - rewrite length_append. lia.
  - repeat rewrite length_append. lia.
Qed.

(** C6, as the code has it. The alerts section and the logs section
    carry a sentinel line right under their header when their source
    returned no records ("No firing alerts", "No error logs") and the
    text of the source otherwise. The resource section carries the
    resource YAML as it is: when no pod matched, its header is followed
    at once by the blank line before the alerts header. *)
Theorem sentinels_under_alerts_and_logs :
  exists alertsBlock logsBlock,
    BuildEventString r target
    = Return ("=== Target Resource Information ===" ++ nl ++ resourceYAML
              ++ nl ++ "=== Prometheus Alerts ===" ++ nl ++ alertsBlock
              ++ nl ++ "=== Loki Error Logs ===" ++ nl ++ logsBlock)
    /\ (prometheusAlerts = "" -> alertsBlock = "No firing alerts" ++ nl)
    /\ (prometheusAlerts <> "" -> alertsBlock = prometheusAlerts)
    /\ (lokiLogs = "" -> logsBlock = "No error logs" ++ nl)
    /\ (lokiLogs <> "" -> logsBlock = lokiLogs).
Proof.
  exists (if String.eqb prometheusAlerts "" then "No firing alerts" ++ nl
          else prometheusAlerts),
    (if String.eqb lokiLogs "" then "No error logs" ++ nl else lokiLogs).
  split.
  - rewrite BuildEventString_eq.
    unfold header_resource, header_alerts, header_logs.
    repeat rewrite append_assoc. reflexivity.
  - destruct (String.eqb_spec prometheusAlerts ""), (String.eqb_spec lokiLogs "");
      repeat split; intros; try reflexivity; contradiction.
Qed.

End AfterTheQueries.

Lemma report_sections_in_order_witness :
  exists report alertsBlock logsBlock p_alerts p_logs,
    BuildEventString quiet order_target = Return report
    /\ report = "=== Target Resource Information ===" ++ nl ++ ""
                ++ nl ++ "=== Prometheus Alerts ===" ++ nl ++ alertsBlock
                ++ nl ++ "=== Loki Error Logs ===" ++ nl ++ logsBlock
    /\ occurs_at 0 ("=== Target Resource Information ===" ++ nl) report
    /\ occurs_at p_alerts (nl ++ "=== Prometheus Alerts ===" ++ nl) report
    /\ occurs_at p_logs (nl ++ "=== Loki Error Logs ===" ++ nl) report
    /\ String.length ("=== Target Resource Information ===" ++ nl) <= p_alerts
    /\ p_alerts + String.length (nl ++ "=== Prometheus Alerts ===" ++ nl) <= p_logs.
Proof.
  apply (report_sections_in_order quiet order_target "" "" ""); reflexivity.
Defined.

Lemma sentinels_under_alerts_and_logs_witness :
  exists alertsBlock logsBlock,
    BuildEventString noisy_without_logs order_target
    = Return ("=== Target Resource Information ===" ++ nl
              ++ ("name: order-5d8f" ++ nl ++ "---" ++ nl)
              ++ nl ++ "=== Prometheus Alerts ===" ++ nl ++ alertsBlock
              ++ nl ++ "=== Loki Error Logs ===" ++ nl ++ logsBlock)
    /\ ("Alert: CPUUsageHigh" ++ nl ++ "  Namespace: order-prod" ++ nl
        ++ "  Pod: order-5d8f" ++ nl ++ nl = "" -> alertsBlock = "No firing alerts" ++ nl)
    /\ ("Alert: CPUUsageHigh" ++ nl ++ "  Namespace: order-prod" ++ nl
        ++ "  Pod: order-5d8f" ++ nl ++ nl <> "" ->
        alertsBlock = "Alert: CPUUsageHigh" ++ nl ++ "  Namespace: order-prod" ++ nl
                      ++ "  Pod: order-5d8f" ++ nl ++ nl)
    /\ ("" = "" -> logsBlock = "No error logs" ++ nl)
    /\ ("" <> "" -> logsBlock = "").
Proof.
  apply (sentinels_under_alerts_and_logs noisy_without_logs order_target); reflexivity.
Defined.

(** ** Sentinels *)

(** A source without records gives an empty text. *)
Lemma no_pods_no_yaml r target :
  GetTargetPods r target = OK [] -> GetTargetResourceYAML r target = Return "".
Proof.
  intros H. unfold GetTargetResourceYAML. rewrite H. reflexivity.
Qed.

Lemma no_alerts_no_text r m data :
  map_get m "data" = Object data ->
  map_get data "result" = Array [] ->
  format_alerts r (Object m) = "".
Proof.
  intros Hd Hr. unfold format_alerts, top_get. rewrite Hd, Hr.
  destruct (map_get data "resultType"); try reflexivity.
  destruct (String.eqb s "vector"); reflexivity.
Qed.

Lemma no_streams_no_text r m data :
  map_get m "data" = Object data ->
  map_get data "result" = Array [] ->
  format_logs r (Object m) = "".
Proof.
  intros Hd Hr. unfold format_logs, top_get. rewrite Hd, Hr.
  destruct (map_get data "resultType"); try reflexivity.
  destruct (String.eqb s "streams"); reflexivity.
Qed.

(** With no pod, no alert and no log line, the line under the alerts
    header and the line under the logs header are sentinels, and the
    line under the resource header is empty. *)
Lemma resource_section_has_no_sentinel :
  GetTargetPods quiet order_target = OK []
  /\ GetTargetResourceYAML quiet order_target = Return ""
  /\ GetPrometheusAlerts quiet order_target = OK ""
  /\ GetLokiLogs quiet order_target = OK ""
  /\ exists report,
       BuildEventString quiet order_target = Return report
       /\ line_under "=== Target Resource Information ===" (lines report) = Some ""
       /\ line_under "=== Prometheus Alerts ===" (lines report) = Some "No firing alerts"
       /\ line_under "=== Loki Error Logs ===" (lines report) = Some "No error logs".
Proof.
  repeat split. eexists. repeat split.
Qed.

Example quiet_report :
  BuildEventString quiet order_target
  = Return ("=== Target Resource Information ===" ++ nl
            ++ nl ++ "=== Prometheus Alerts ===" ++ nl ++ "No firing alerts" ++ nl
            ++ nl ++ "=== Loki Error Logs ===" ++ nl ++ "No error logs" ++ nl).
Proof. reflexivity. Qed.

Example noisy_report :
  BuildEventString noisy order_target
  = Return ("=== Target Resource Information ===" ++ nl
            ++ "name: order-5d8f" ++ nl ++ "---" ++ nl
            ++ nl ++ "=== Prometheus Alerts ===" ++ nl
            ++ "Alert: CPUUsageHigh" ++ nl ++ "  Namespace: order-prod" ++ nl
            ++ "  Pod: order-5d8f" ++ nl ++ nl
            ++ nl ++ "=== Loki Error Logs ===" ++ nl
            ++ "1764161000000000000: panic: nil map" ++ nl).
Proof. reflexivity. Qed.

End EvidenceReport.

(* ===================================================================== *)
(** * Properties of the dispatch step *)
(* ===================================================================== *)

Module Dispatch.
Import LLM Controller Examples.

(** The card [Reconcile] builds carries the namespace and the label
    selector of the HealAction unchanged. *)
Lemma heal_card_round_trip r aiopsAnalyzer (v : HealAction) :
  Feishu.CardVariables_Namespace (Feishu.CardMessage_Variables (heal_card r aiopsAnalyzer v))
  = HealAction_Namespace v
  /\ Feishu.CardVariables_Name (Feishu.CardMessage_Variables (heal_card r aiopsAnalyzer v))
     = Target_LabelSelector (HealAction_Target v).
Proof. split; reflexivity. Qed.

Lemma dispatch_round_trip r aiopsAnalyzer (v : HealAction) :
  forall card,
    In card (dispatch r aiopsAnalyzer (Heal v)) ->
    Feishu.CardVariables_Namespace (Feishu.CardMessage_Variables card) = HealAction_Namespace v
    /\ Feishu.CardVariables_Name (Feishu.CardMessage_Variables card)
       = Target_LabelSelector (HealAction_Target v).
Proof.
  intros card H. unfold dispatch in H.
  destruct (SendTemplateCard r (heal_card r aiopsAnalyzer v));
    destruct H as [<-|[]]; apply heal_card_round_trip.
Qed.

(** Every card a run of [Reconcile] sends comes from a response that
    parsed as a HealAction with a valid risk level, and carries its
    namespace and label selector. *)
Lemma Reconcile_cards_round_trip r req out :
  Reconcile r req = Return out ->
  forall card,
    In card (reconciled_cards out) ->
    exists content response v,
      SendMessage r content = OK response
      /\ ParseAutoHealResponse response = OK (Heal v)
      /\ Feishu.CardVariables_Namespace (Feishu.CardMessage_Variables card)
         = HealAction_Namespace v
      /\ Feishu.CardVariables_Name (Feishu.CardMessage_Variables card)
         = Target_LabelSelector (HealAction_Target v).
Proof.
  unfold Reconcile. intros H card Hin.
  repeat match type of H with
         | context [match ?x with _ => _ end] => destruct x eqn:?
         end;
    try discriminate; same_result; try contradiction;
    match goal with
    | Hparse : ParseAutoHealResponse _ = OK ?res |- _ =>
      destruct res as [v|n]; [|contradiction];
      eexists _, _, v; split; [eassumption|]; split; [exact Hparse|];
      eapply dispatch_round_trip; eassumption
    end.
Qed.

(** A no-op decision sends no card. *)
Lemma noop_sends_nothing r aiopsAnalyzer (v : NoopAction) :
  dispatch r aiopsAnalyzer (Noop v) = [].
Proof. reflexivity. Qed.

(** The card of [CreateHealActionCardMessage] carries the label
    selector, and the namespace "default" whatever the HealAction says. *)
Lemma CreateHealActionCardMessage_fields (v : HealAction)
  (receiveID receiveType templateID version : string) :
  let card := Card.CreateHealActionCardMessage (Heal v) receiveID receiveType templateID version in
  Card.CardVariables_Name (Card.CardMessage_Variables card)
  = Target_LabelSelector (HealAction_Target v)
  /\ Card.CardVariables_Namespace (Card.CardMessage_Variables card) = "default".
Proof. split; reflexivity. Qed.

(** C9. For the HealAction of namespace "order-prod" that [heal_low]
    decodes to, the card of [CreateHealActionCardMessage] has namespace
    "default": the namespace is not the HealAction's. *)
Theorem CreateHealActionCardMessage_drops_namespace :
  ParseAutoHealResponse heal_low = OK (Heal heal_low_action)
  /\ HealAction_Namespace heal_low_action = "order-prod"
  /\ Card.CardVariables_Namespace
       (Card.CardMessage_Variables
          (Card.CreateHealActionCardMessage (Heal heal_low_action)
             "oc_fb3b64606e33897e741fc355529e5784" "chat_id" "AAqhGHg0Wgux8" "0.0.6"))
     = "default"
  /\ Card.CardVariables_Namespace
       (Card.CardMessage_Variables
          (Card.CreateHealActionCardMessage (Heal heal_low_action)
             "oc_fb3b64606e33897e741fc355529e5784" "chat_id" "AAqhGHg0Wgux8" "0.0.6"))
     <> HealAction_Namespace heal_low_action
  /\ Card.CardVariables_Name
       (Card.CardMessage_Variables
          (Card.CreateHealActionCardMessage (Heal heal_low_action)
             "oc_fb3b64606e33897e741fc355529e5784" "chat_id" "AAqhGHg0Wgux8" "0.0.6"))
     = Target_LabelSelector (HealAction_Target heal_low_action).
Proof.
  repeat split. discriminate.
Qed.

End Dispatch.

(* ===================================================================== *)
(** * More properties of the response parser *)
(* ===================================================================== *)

Module ResponseDecoding.
Import GoJSON LLM Examples Notions.

(** ** Which field a key selects *)

Lemma find_field_sound {T} (fs : list (field T)) key f :
  find_field fs key = Some f -> In f fs /\ folded f = foldName key.
Proof.
  unfold find_field, folded. intros H.
  destruct (find (fun f0 => String.eqb (fname f0) key) fs) eqn:E.
  - inversion H; subst. apply find_some in E. destruct E as [Hin Heq].
    apply String.eqb_eq in Heq. rewrite Heq. tauto.
  - apply find_some in H. destruct H as [Hin Heq].
    apply String.eqb_eq in Heq. tauto.
Qed.

Lemma find_field_none {T} (fs : list (field T)) key :
  find_field fs key = None -> forall f, In f fs -> folded f <> foldName key.
Proof.
  unfold find_field, folded. intros H f Hin Heq.
  destruct (find (fun f0 => String.eqb (fname f0) key) fs); [discriminate|].
  apply (find_none _ _ H) in Hin. simpl in Hin.
  apply String.eqb_neq in Hin. contradiction.
Qed.

Lemma same_folded_same_field {T} (fs : list (field T)) f g :
  NoDup (map folded fs) -> In f fs -> In g fs -> folded f = folded g -> f = g.
Proof.
  induction fs as [|x fs IH]; simpl; intros Hnd Hf Hg Heq; [contradiction|].
  inversion Hnd as [|? ? Hnotin Hnd']; subst.
  destruct Hf as [<-|Hf], Hg as [<-|Hg].
  - reflexivity.
  - exfalso. apply Hnotin. rewrite Heq. apply in_map, Hg.
  - exfalso. apply Hnotin. rewrite <- Heq. apply in_map, Hf.
  - apply IH; assumption.
Qed.

(** When no two fields of a struct fold to the same name, a key selects
    exactly the field whose folded name is the key's. *)
Lemma find_field_complete {T} (fs : list (field T)) key f :
  NoDup (map folded fs) -> In f fs -> folded f = foldName key ->
  find_field fs key = Some f.
Proof.
  intros Hnd Hin Heq.
  destruct (find_field fs key) as [g|] eqn:E.
  - destruct (find_field_sound fs key g E) as [Hg Hgk].
    f_equal. apply (same_folded_same_field fs g f Hnd Hg Hin). congruence.
  - exfalso. apply (find_field_none fs key E f Hin Heq).
Qed.

Ltac distinct_names :=
  cbv [map folded fname]; simpl;
  repeat (constructor; [simpl; intuition discriminate|]); constructor.

Lemma base_fields_distinct : NoDup (map folded base_fields).
Proof. unfold base_fields. distinct_names. Qed.

Lemma NoopAction_fields_distinct : NoDup (map folded NoopAction_fields).
Proof. unfold NoopAction_fields. distinct_names. Qed.

Lemma HealAction_fields_distinct : NoDup (map folded HealAction_fields).
Proof. unfold HealAction_fields. distinct_names. Qed.

(** ** The second decoding against the first *)

(** [base] and [NoopAction] have the same fields: what decodes into one
    decodes into the other, with the same contents. *)
Lemma noop_decodes_like_base :
  forall ms cur b,
    store_members base_fields ms cur = OK b ->
    store_members NoopAction_fields ms (as_noop cur) = OK (as_noop b).
Proof.
  induction ms as [|[k v] ms IH]; simpl; intros cur b H.
  - same_result.
  - destruct (find_field base_fields k) as [f|] eqn:Fb.
    + destruct (find_field_sound _ _ _ Fb) as [Hin Hfold].
      simpl in Hin. destruct Hin as [<-|[<-|[]]].
      * rewrite (find_field_complete NoopAction_fields k
                   (nth 0 NoopAction_fields (mkField "" (fun _ x => OK x)))
                   NoopAction_fields_distinct (or_introl eq_refl) Hfold).
        simpl in *.
        destruct (store_string "base.action" v (base_Action cur)) as [s|e] eqn:Hs;
          simpl in H; [|discriminate].
        assert (Hs' : store_string "NoopAction.action" v (base_Action cur) = OK s)
          by (destruct v; simpl in *; congruence).
        rewrite Hs'. simpl. apply (IH (mkBase s (base_Reason cur)) b H).
      * rewrite (find_field_complete NoopAction_fields k
                   (nth 1 NoopAction_fields (mkField "" (fun _ x => OK x)))
                   NoopAction_fields_distinct (or_intror (or_introl eq_refl)) Hfold).
        simpl in *.
        destruct (store_string "base.reason" v (base_Reason cur)) as [s|e] eqn:Hs;
          simpl in H; [|discriminate].
        assert (Hs' : store_string "NoopAction.reason" v (base_Reason cur) = OK s)
          by (destruct v; simpl in *; congruence).
        rewrite Hs'. simpl. apply (IH (mkBase (base_Action cur) s) b H).
    + destruct (find_field NoopAction_fields k) as [g|] eqn:Fn.
      * exfalso. destruct (find_field_sound _ _ _ Fn) as [Hin Hfold].
        simpl in Hin. destruct Hin as [<-|[<-|[]]].
        -- apply (find_field_none _ _ Fb (nth 0 base_fields (mkField "" (fun _ x => OK x)))
                    (or_introl eq_refl) Hfold).
        -- apply (find_field_none _ _ Fb (nth 1 base_fields (mkField "" (fun _ x => OK x)))
                    (or_intror (or_introl eq_refl)) Hfold).
      * apply (IH cur b H).
Qed.

Lemma Unmarshal_NoopAction_like_base jsonStr b :
  Unmarshal_base jsonStr = OK b ->
  Unmarshal_NoopAction jsonStr = OK (as_noop b).
Proof.
  unfold Unmarshal_base, Unmarshal_NoopAction, Unmarshal.
  destruct (parse jsonStr) as [v|]; [|discriminate].
  destruct v; simpl; try discriminate.
  - intros H. same_result.
  - apply (noop_decodes_like_base members zero_base b).
Qed.

(** X1. Once the first decoding has read action "noop", the call
    succeeds: it returns the NoopAction with action "noop" and the
    reason the first decoding read, whatever else the text holds. *)
Theorem noop_response_is_always_accepted :
  forall jsonStr b,
    Unmarshal_base jsonStr = OK b ->
    base_Action b = "noop" ->
    ParseAutoHealResponse jsonStr = OK (Noop (mkNoopAction "noop" (base_Reason b))).
Proof.
  intros jsonStr b Hb Ha.
  unfold ParseAutoHealResponse, ParseJSONTo.
  rewrite Hb, Ha, (Unmarshal_NoopAction_like_base jsonStr b Hb).
  unfold as_noop. rewrite Ha. reflexivity.
Qed.

Lemma noop_response_is_always_accepted_witness :
  ParseAutoHealResponse
    (dq "{'action':'noop','reason':'CPU usage nominal','risk_level':7,'patch_content':'none'}")
  = OK (Noop (mkNoopAction "noop" "CPU usage nominal")).
Proof.
  apply (noop_response_is_always_accepted _ (mkBase "noop" "CPU usage nominal"));
    reflexivity.
Defined.


(** The HealAction decoded from a text agrees with the [base] decoded
    from it on the two fields they share. *)
Lemma heal_decodes_like_base :
  forall ms cb ch b h,
    base_Action cb = HealAction_Action ch ->
    base_Reason cb = HealAction_Reason ch ->
    store_members base_fields ms cb = OK b ->
    store_members HealAction_fields ms ch = OK h ->
    base_Action b = HealAction_Action h /\ base_Reason b = HealAction_Reason h.
Proof.
  induction ms as [|[k v] ms IH]; simpl; intros cb ch b h Ia Ir Hb Hh.
  - same_result. tauto.
  - destruct (find_field base_fields k) as [fb|] eqn:Fb;
      destruct (find_field HealAction_fields k) as [fh|] eqn:Fh.
    + destruct (find_field_sound _ _ _ Fb) as [Hinb Hfb].
      destruct (find_field_sound _ _ _ Fh) as [Hinh Hfh].
      assert (Hsame : folded fb = folded fh) by congruence.
      clear Fb Fh Hfb Hfh.
      simpl in Hinb. destruct Hinb as [<-|[<-|[]]];
        simpl in Hinh;
        repeat (destruct Hinh as [<-|Hinh]; [try (cbv in Hsame; discriminate)|]);
        try contradiction;
        simpl in Hb, Hh; destruct v; simpl in Hb, Hh; try discriminate;
        refine (IH _ _ b h _ _ Hb Hh); simpl; congruence.
    + exfalso. destruct (find_field_sound _ _ _ Fb) as [Hinb Hfb].
      simpl in Hinb. destruct Hinb as [<-|[<-|[]]].
      * apply (find_field_none _ _ Fh (nth 1 HealAction_fields (mkField "" (fun _ x => OK x))));
          [simpl; tauto | exact Hfb].
      * apply (find_field_none _ _ Fh (nth 2 HealAction_fields (mkField "" (fun _ x => OK x))));
          [simpl; tauto | exact Hfb].
    + destruct (find_field_sound _ _ _ Fh) as [Hinh Hfh].
      simpl in Hinh.
      repeat (destruct Hinh as [<-|Hinh]);
        try contradiction;
        try (exfalso;
             apply (find_field_none _ _ Fb (nth 0 base_fields (mkField "" (fun _ x => OK x))));
             [simpl; tauto | exact Hfh]);
        try (exfalso;
             apply (find_field_none _ _ Fb (nth 1 base_fields (mkField "" (fun _ x => OK x))));
             [simpl; tauto | exact Hfh]);
        simpl in Hh;
        match type of Hh with
        | context [rbind ?x _] => destruct x eqn:?; simpl in Hh; [|discriminate]
        | context [match ?x with OK _ => _ | Err _ => _ end] =>
          destruct x eqn:?; simpl in Hh; [|discriminate]
        end;
        refine (IH _ _ b h _ _ Hb Hh); simpl; assumption.
    + eapply IH; eassumption.
Qed.


Lemma Unmarshal_HealAction_like_base jsonStr b h :
  Unmarshal_base jsonStr = OK b ->
  Unmarshal_HealAction jsonStr = OK h ->
  HealAction_Action h = base_Action b /\ HealAction_Reason h = base_Reason b.
Proof.
  unfold Unmarshal_base, Unmarshal_HealAction, Unmarshal.
  destruct (parse jsonStr) as [v|]; [|discriminate].
  destruct v; simpl; try discriminate.
  - intros Hb Hh. same_result. split; reflexivity.
  - intros Hb Hh.
    destruct (heal_decodes_like_base members zero_base zero_HealAction b h
                eq_refl eq_refl Hb Hh) as [Ha Hr].
    split; congruence.
Qed.

(** What an accepted response went through. *)
Lemma ParseAutoHealResponse_OK_inv jsonStr r :
  ParseAutoHealResponse jsonStr = OK r ->
  exists b,
    Unmarshal_base jsonStr = OK b
    /\ ((base_Action b = "heal"
         /\ exists heal, r = Heal heal
                         /\ Unmarshal_HealAction jsonStr = OK heal
                         /\ valid_risk_level (HealAction_RiskLevel heal))
        \/ (base_Action b = "noop"
            /\ exists noop, r = Noop noop /\ Unmarshal_NoopAction jsonStr = OK noop)).
Proof.
  unfold ParseAutoHealResponse, ParseJSONTo. intros H.
  destruct (Unmarshal_base jsonStr) as [b|e]; [|discriminate].
  exists b. split; [reflexivity|].
  destruct (String.eqb_spec (base_Action b) "heal") as [Eh|Eh].
  - left. split; [assumption|].
    destruct (Unmarshal_HealAction jsonStr) as [h|e]; [|discriminate].
    destruct (negb (String.eqb (HealAction_RiskLevel h) "low")
              && negb (String.eqb (HealAction_RiskLevel h) "medium")
              && negb (String.eqb (HealAction_RiskLevel h) "high")) eqn:E;
      [discriminate|].
    same_result. exists h. repeat split.
    unfold valid_risk_level.
    destruct (String.eqb_spec (HealAction_RiskLevel h) "low"); [tauto|].
    destruct (String.eqb_spec (HealAction_RiskLevel h) "medium"); [tauto|].
    destruct (String.eqb_spec (HealAction_RiskLevel h) "high"); [tauto|discriminate].
  - destruct (String.eqb_spec (base_Action b) "noop") as [En|En]; [|discriminate].
    right. split; [assumption|].
    destruct (Unmarshal_NoopAction jsonStr) as [n|e]; [|discriminate].
    same_result. exists n. split; reflexivity.
Qed.

(** X2. The discriminant of what is returned is the one that selected
    the branch: a returned HealAction has action "heal" and a returned
    NoopAction has action "noop", and each carries the reason the first
    decoding read. *)
Theorem returned_action_matches_variant :
  forall jsonStr r,
    ParseAutoHealResponse jsonStr = OK r ->
    exists b,
      Unmarshal_base jsonStr = OK b
      /\ match r with
         | Heal heal =>
           HealAction_Action heal = "heal" /\ HealAction_Reason heal = base_Reason b
         | Noop noop =>
           NoopAction_Action noop = "noop" /\ NoopAction_Reason noop = base_Reason b
         end.
Proof.
  intros jsonStr r H.
  destruct (ParseAutoHealResponse_OK_inv jsonStr r H)
    as (b & Hb & [(Ha & heal & -> & Hh & _) | (Ha & noop & -> & Hn)]).
  - exists b. split; [assumption|].
    destruct (Unmarshal_HealAction_like_base jsonStr b heal Hb Hh) as [E1 E2].
    split; congruence.
  - exists b. split; [assumption|].
    rewrite (Unmarshal_NoopAction_like_base jsonStr b Hb) in Hn.
    same_result. unfold as_noop. simpl. split; [assumption | reflexivity].
Qed.

Lemma returned_action_matches_variant_witness :
  exists b,
    Unmarshal_base heal_low = OK b
    /\ HealAction_Action heal_low_action = "heal"
    /\ HealAction_Reason heal_low_action = base_Reason b.
Proof.
  apply (returned_action_matches_variant heal_low (Heal heal_low_action)). reflexivity.
Defined.

End ResponseDecoding.

(* ===================================================================== *)
(** * Properties of the response text around the JSON value *)
(* ===================================================================== *)

Module ResponseText.
Import GoJSON LLM Examples Queries Notions.


Lemma syntax_error_is_parse_error (s : string) :
  parse s = None ->
  ParseAutoHealResponse s
  = Err (Errorf_w "parse base failed: " (SyntaxError "invalid JSON text")).
Proof.
  intros H. unfold ParseAutoHealResponse, Unmarshal_base, Unmarshal. rewrite H. reflexivity.
Qed.

(** ** Blanks before and after *)

Lemma lex_blank_prefix (ws s : string) :
  all_chars isSpace ws = true -> lex (ws ++ s) LIdle = lex s LIdle.
Proof.
  induction ws as [|c ws IH]; simpl; intros H; [reflexivity|].
  apply andb_true_iff in H. destruct H as [Hc Hws].
  unfold idle_step. rewrite Hc, (IH Hws).
  destruct (lex s LIdle); reflexivity.
Qed.






Lemma lex_nil_r s st :
  lex s st
  = match lex_prefix s st with
    | Some (st', toks) =>
      match lex "" st' with
      | Some rest => Some (toks ++ rest)%list
      | None => None
      end
    | None => None
    end.
Proof.
  rewrite <- (ResponseContract.lex_app s "" st), append_nil_r. reflexivity.
Qed.






(** ** Text before and after *)

(** X4. A response whose first byte after leading blanks cannot start a
    JSON value (a letter of an explanation, a back quote of a markdown
    fence) is refused with the parse error, whatever follows. *)
Theorem leading_text_is_a_parse_error :
  forall before c rest,
    all_chars isSpace before = true ->
    idle_step c = None ->
    ParseAutoHealResponse (before ++ String c rest)
    = Err (Errorf_w "parse base failed: " (SyntaxError "invalid JSON text")).
Proof.
  intros before c rest Hb Hc.
  apply syntax_error_is_parse_error. unfold parse.
  rewrite (lex_blank_prefix before (String c rest) Hb).
  cbn [lex lex_step]. rewrite Hc. reflexivity.
Qed.

Lemma leading_text_is_a_parse_error_witness :
  ParseAutoHealResponse (nl ++ String "`" ("``json" ++ nl ++ heal_low ++ nl ++ "```"))
  = Err (Errorf_w "parse base failed: " (SyntaxError "invalid JSON text")).
Proof.
  apply (leading_text_is_a_parse_error nl "`"); reflexivity.
Defined.

(** Once a value is complete no token may follow. *)
Lemma parse_tokens_complete :
  forall ts stack m v t more,
    parse_tokens ts stack m = Some v ->
    parse_tokens (ts ++ t :: more) stack m = None.
Proof.
  induction ts as [|x ts IH]; simpl; intros stack m v t more H.
  - destruct m; try discriminate. destruct t; reflexivity.
  - destruct (parse_step stack m x) as [[stack' m']|]; [|discriminate].
    apply (IH stack' m' v t more H).
Qed.

(** A text that ends in a number is a number. *)
Lemma parse_tokens_ends_in_number :
  forall ts stack m lit v,
    parse_tokens (ts ++ [TNum lit]) stack m = Some v -> v = Number lit.
Proof.
  induction ts as [|x ts IH]; simpl; intros stack m lit v H.
  - destruct (parse_step stack m (TNum lit)) as [[stack' m']|] eqn:E; [|discriminate].
    destruct m'; try discriminate. inversion H; subst.
    destruct m; simpl in E; try discriminate;
      destruct stack as [|[acc|acc [key|]] stack]; simpl in E; inversion E; reflexivity.
  - destruct (parse_step stack m x) as [[stack' m']|]; [|discriminate].
    apply (IH stack' m' lit v H).
Qed.

Lemma idle_step_progress c st toks :
  isSpace c = false -> idle_step c = Some (st, toks) -> toks <> [] \/ busy st.
Proof.
  unfold idle_step, busy. intros Hc. rewrite Hc.
  repeat match goal with
         | |- context [if ?b then _ else _] => destruct b
         end; intros H; inversion H; subst;
    try (left; discriminate); right; discriminate.
Qed.

Lemma lex_step_progress st c st' toks :
  busy st -> lex_step st c = Some (st', toks) -> toks <> [] \/ busy st'.
Proof.
  unfold busy. destruct st; simpl; intros Hst H.
  - contradiction.
  - repeat match type of H with
           | context [if ?b then _ else _] => destruct b
           end; inversion H; subst; try (left; discriminate); right; discriminate.
  - repeat match type of H with
           | context [if ?b then _ else _] => destruct b
           end; inversion H; subst; try (left; discriminate); right; discriminate.
  - destruct (hex_val c); [|discriminate].
    destruct todo as [|[|todo]]; inversion H; subst; right; discriminate.
  - destruct (num_step st c); [inversion H; subst; right; discriminate|].
    destruct (num_accepting st); [|discriminate].
    destruct (idle_step c) as [[st0 toks0]|]; [|discriminate].
    inversion H; subst. left. discriminate.
  - destruct rest as [|c' [|c'' rest]]; try discriminate;
      destruct (Ascii.eqb c c'); inversion H; subst;
      try (left; discriminate); right; discriminate.
Qed.

Lemma lex_busy_nonempty :
  forall s st ts, busy st -> lex s st = Some ts -> ts <> [].
Proof.
  induction s as [|c s IH]; simpl; intros st ts Hst H.
  - destruct st; try discriminate; [exfalso; apply Hst; reflexivity|].
    destruct (num_accepting st); inversion H; discriminate.
  - destruct (lex_step st c) as [[st' toks]|] eqn:E; [|discriminate].
    destruct (lex s st') as [rest|] eqn:E2; [|discriminate].
    inversion H; subst.
    destruct (lex_step_progress st c st' toks Hst E) as [Hn|Hb].
    + destruct toks; [contradiction | discriminate].
    + pose proof (IH st' rest Hb E2) as Hr.
      destruct toks; [assumption | discriminate].
Qed.

Lemma lex_text_nonempty c rest ts :
  isSpace c = false -> lex (String c rest) LIdle = Some ts -> ts <> [].
Proof.
  cbn [lex lex_step]. intros Hc H.
  destruct (idle_step c) as [[st toks]|] eqn:E; [|discriminate].
  destruct (lex rest st) as [more|] eqn:E2; [|discriminate].
  inversion H; subst.
  destruct (idle_step_progress c st toks Hc E) as [Hn|Hb].
  - destruct toks; [contradiction | discriminate].
  - pose proof (lex_busy_nonempty rest st more Hb E2).
    destruct toks; [assumption | discriminate].
Qed.

Lemma text_after_object_is_not_json s members c rest :
  parse s = Some (Object members) ->
  isSpace c = false ->
  parse (s ++ String c rest) = None.
Proof.
  unfold parse. intros H Hc.
  rewrite (lex_nil_r s LIdle) in H. rewrite ResponseContract.lex_app.
  destruct (lex_prefix s LIdle) as [[st toks]|]; [|reflexivity].
  destruct st as [|acc|acc|acc todo|acc nst|w tok]; simpl in H; try discriminate.
  - rewrite app_nil_r in H.
    destruct (lex (String c rest) LIdle) as [more|] eqn:E; [|reflexivity].
    pose proof (lex_text_nonempty c rest more Hc E) as Hne.
    destruct more as [|t more]; [contradiction|].
    apply (parse_tokens_complete toks [] MValue (Object members) t more H).
  - destruct (num_accepting nst); [|discriminate].
    apply parse_tokens_ends_in_number in H. discriminate.
Qed.

Lemma accepted_response_is_an_object jsonStr r :
  ParseAutoHealResponse jsonStr = OK r ->
  exists members, parse jsonStr = Some (Object members).
Proof.
  intros H.
  destruct (ResponseDecoding.ParseAutoHealResponse_OK_inv jsonStr r H) as (b & Hb & Hcase).
  unfold Unmarshal_base, Unmarshal in Hb.
  destruct (parse jsonStr) as [v|]; [|discriminate].
  destruct v; simpl in Hb; try discriminate.
  - same_result. destruct Hcase as [[Ha _]|[Ha _]]; discriminate.
  - eexists. reflexivity.
Qed.

(** X5. An accepted response followed by anything but blanks is
    refused: text after the JSON object makes the whole response a
    parse error. *)
Theorem trailing_text_is_a_parse_error :
  forall jsonStr r c rest,
    ParseAutoHealResponse jsonStr = OK r ->
    isSpace c = false ->
    ParseAutoHealResponse (jsonStr ++ String c rest)
    = Err (Errorf_w "parse base failed: " (SyntaxError "invalid JSON text")).
Proof.
  intros s r c rest H Hc.
  destruct (accepted_response_is_an_object s r H) as [members Hp].
  apply syntax_error_is_parse_error.
  apply (text_after_object_is_not_json s members c rest Hp Hc).
Qed.

Lemma trailing_text_is_a_parse_error_witness :
  ParseAutoHealResponse (heal_low ++ String "T" "his raises the replica count.")
  = Err (Errorf_w "parse base failed: " (SyntaxError "invalid JSON text")).
Proof.
  apply (trailing_text_is_a_parse_error heal_low (Heal heal_low_action)); reflexivity.
Defined.

End ResponseText.

(* ===================================================================== *)
(** * More properties of the pod filter and the resource YAML *)
(* ===================================================================== *)

Module ResourceBlock.
Import Controller Examples Notions.
Local Open Scope Z_scope.

Lemma summarisable_dec (pod : Pod) : {summarisable pod} + {~ summarisable pod}.
Proof.
  unfold summarisable.
  destruct (PodStatus_Conditions (Pod_Status pod)),
    (PodStatus_ContainerStatuses (Pod_Status pod));
    try (right; intros [H1 H2]; congruence); left; split; discriminate.
Qed.

(** The filter either returns, on a summarisable pod, or panics. *)
Lemma FilterPodFields_cases (pod : Pod) :
  (summarisable pod /\ exists filtered, FilterPodFields pod = Return filtered)
  \/ (~ summarisable pod
      /\ exists index length, FilterPodFields pod = Panics (IndexOutOfRange index length)).
Proof.
  destruct (summarisable_dec pod) as [Hs|Hn].
  - left. split; [exact Hs|].
    apply (PodSnapshot.FilterPodFields_returns pod (proj1 Hs) (proj2 Hs)).
  - right. split; [exact Hn|].
    destruct (PodStatus_Conditions (Pod_Status pod)) as [|c cs] eqn:Ec.
    + exists (-1), 0. apply PodSnapshot.FilterPodFields_panics_without_conditions, Ec.
    + destruct (PodStatus_ContainerStatuses (Pod_Status pod)) as [|s ss] eqn:Es.
      * exists 0, 0. apply PodSnapshot.FilterPodFields_panics_without_statuses.
        -- rewrite Ec. discriminate.
        -- exact Es.
      * exfalso. apply Hn. unfold summarisable. rewrite Ec, Es.
        split; discriminate.
Qed.

(** X6. The filter returns a pod exactly when the pod has at least one
    condition and at least one container status; in every other case it
    panics with an index out of range, and it never returns an error. *)
Theorem FilterPodFields_returns_iff_summarisable :
  forall pod,
    ((exists filtered, FilterPodFields pod = Return filtered) <-> summarisable pod)
    /\ ((exists index length, FilterPodFields pod = Panics (IndexOutOfRange index length))
        <-> ~ summarisable pod)
    /\ (forall e, FilterPodFields pod <> Fails e).
Proof.
  intros pod.
  destruct (FilterPodFields_cases pod) as [[Hs [f Hf]] | [Hn (i & l & Hp)]].
  - rewrite Hf. split; [|split].
    + split; [intros _; exact Hs | intros _; exists f; reflexivity].
    + split; [intros (i & l & H); discriminate | intros H; contradiction].
    + intros e H. discriminate.
  - rewrite Hp. split; [|split].
    + split; [intros [f H]; discriminate | intros H; contradiction].
    + split; [intros _; exact Hn | intros _; exists i, l; reflexivity].
    + intros e H. discriminate.
Qed.

(** What a filtered pod holds. *)
Lemma FilterPodFields_shape (pod filtered : Pod) :
  FilterPodFields pod = Return filtered ->
  exists conditions final first statuses,
    PodStatus_Conditions (Pod_Status pod) = (conditions ++ [final])%list
    /\ PodStatus_ContainerStatuses (Pod_Status pod) = first :: statuses
    /\ filtered
       = mkPod
           (mkObjectMeta (ObjectMeta_Name (Pod_ObjectMeta pod))
              (ObjectMeta_GenerateName (Pod_ObjectMeta pod))
              (ObjectMeta_Namespace (Pod_ObjectMeta pod))
              "" "" 0 None
              (ObjectMeta_Labels (Pod_ObjectMeta pod))
              (ObjectMeta_Annotations (Pod_ObjectMeta pod)) [] [] [])
           (Pod_Spec pod)
           (mkPodStatus (PodStatus_Phase (Pod_Status pod))
              [ mkPodCondition PodReady (PodCondition_Status final) None "" "" ]
              "" "" "" "" None
              [ mkContainerStatus (ContainerStatus_Name first) (ContainerStatus_State first)
                  zero_ContainerState (ContainerStatus_Ready first) 0 "" "" ]).
Proof.
  intros H.
  assert (Hs : summarisable pod).
  { destruct (FilterPodFields_cases pod) as [[Hs _] | [_ (i & l & Hp)]]; [exact Hs|].
    rewrite Hp in H. discriminate. }
  destruct Hs as [Hc Hs].
  destruct (exists_last Hc) as (cs & c & Ec).
  destruct (PodStatus_ContainerStatuses (Pod_Status pod)) as [|s ss] eqn:Es; [contradiction|].
  exists cs, c, s, ss. split; [exact Ec|]. split; [reflexivity|].
  unfold FilterPodFields in H. rewrite Ec, PodSnapshot.index_last, Es in H.
  simpl in H. same_result.
Qed.

(** X7. Filtering is idempotent: a pod the filter returned passes the
    filter again unchanged. *)
Theorem FilterPodFields_idempotent :
  forall pod filtered,
    FilterPodFields pod = Return filtered ->
    FilterPodFields filtered = Return filtered.
Proof.
  intros pod filtered H.
  destruct (FilterPodFields_shape pod filtered H) as (cs & c & s & ss & _ & _ & ->).
  reflexivity.
Qed.

Lemma FilterPodFields_idempotent_witness :
  exists filtered,
    FilterPodFields running_pod = Return filtered
    /\ FilterPodFields filtered = Return filtered.
Proof.
  eexists. split; [reflexivity|].
  apply (FilterPodFields_idempotent running_pod). reflexivity.
Defined.

(** X8. A filtered pod keeps the name, namespace, labels, annotations,
    spec and phase of the pod, drops its UID and creation timestamp, and
    summarises the status in one condition and one container status:
    the condition is typed Ready and carries the status of the pod's
    last condition, whatever that condition's type; the container
    status carries the name, readiness and state of the pod's first
    container status and nothing of the others. *)
Theorem FilterPodFields_summary :
  forall pod filtered,
    FilterPodFields pod = Return filtered ->
    ObjectMeta_Name (Pod_ObjectMeta filtered) = ObjectMeta_Name (Pod_ObjectMeta pod)
    /\ ObjectMeta_Namespace (Pod_ObjectMeta filtered)
       = ObjectMeta_Namespace (Pod_ObjectMeta pod)
    /\ ObjectMeta_Labels (Pod_ObjectMeta filtered) = ObjectMeta_Labels (Pod_ObjectMeta pod)
    /\ ObjectMeta_Annotations (Pod_ObjectMeta filtered)
       = ObjectMeta_Annotations (Pod_ObjectMeta pod)
    /\ Pod_Spec filtered = Pod_Spec pod
    /\ PodStatus_Phase (Pod_Status filtered) = PodStatus_Phase (Pod_Status pod)
    /\ ObjectMeta_UID (Pod_ObjectMeta filtered) = ""
    /\ ObjectMeta_CreationTimestamp (Pod_ObjectMeta filtered) = None
    /\ (exists conditions final,
          PodStatus_Conditions (Pod_Status pod) = (conditions ++ [final])%list
          /\ PodStatus_Conditions (Pod_Status filtered)
             = [ mkPodCondition "Ready" (PodCondition_Status final) None "" "" ])
    /\ (exists first statuses,
          PodStatus_ContainerStatuses (Pod_Status pod) = first :: statuses
          /\ PodStatus_ContainerStatuses (Pod_Status filtered)
             = [ mkContainerStatus (ContainerStatus_Name first) (ContainerStatus_State first)
                   zero_ContainerState (ContainerStatus_Ready first) 0 "" "" ]).
Proof.
  intros pod filtered H.
  destruct (FilterPodFields_shape pod filtered H) as (cs & c & s & ss & Ec & Es & ->).
  simpl. repeat split.
  - exists cs, c. split; [exact Ec | reflexivity].
  - exists s, ss. split; [exact Es | reflexivity].
Qed.

Lemma FilterPodFields_summary_witness :
  exists conditions final,
    PodStatus_Conditions (Pod_Status running_pod) = (conditions ++ [final])%list
    /\ PodStatus_Conditions (Pod_Status
         (mkPod
            (mkObjectMeta "order-5d8f" "order-" "order-prod" "" "" 0 None [("app", "order")] []
               [] [] [])
            (mkPodSpec "node-1" [ mkContainer "app" "order:1.0" ])
            (mkPodStatus "Running" [ mkPodCondition "Ready" "False" None "" "" ]
               "" "" "" "" None
               [ mkContainerStatus "app" (mkContainerState (Some "CrashLoopBackOff") None None)
                   zero_ContainerState false 0 "" "" ])))
       = [ mkPodCondition "Ready" (PodCondition_Status final) None "" "" ].
Proof.
  apply (FilterPodFields_summary running_pod). reflexivity.
Defined.

(** ** The resource YAML *)

Lemma filter_all_cases (pods : list Pod) :
  (Forall summarisable pods /\ exists filteredPods, filter_all pods = Return filteredPods)
  \/ (Exists (fun pod => ~ summarisable pod) pods
      /\ exists index length, filter_all pods = Panics (IndexOutOfRange index length)).
Proof.
  induction pods as [|pod pods IH]; simpl.
  - left. split; [constructor | eexists; reflexivity].
  - destruct (FilterPodFields_cases pod) as [[Hs [f Hf]] | [Hn (i & l & Hp)]].
    + rewrite Hf. simpl.
      destruct IH as [[Hall [fs Hfs]] | [Hex (i & l & Hp)]].
      * left. rewrite Hfs. split; [constructor; assumption | eexists; reflexivity].
      * right. rewrite Hp. split; [apply Exists_cons_tl, Hex | exists i, l; reflexivity].
    + right. rewrite Hp. split; [apply Exists_cons_hd, Hn | exists i, l; reflexivity].
Qed.

(** The resource query panics on an unsummarisable pod, and only then. *)
Lemma resource_query_panics r target pods :
  GetTargetPods r target = OK pods ->
  ((exists p, GetTargetResourceYAML r target = Panics p)
   <-> Exists (fun pod => ~ summarisable pod) pods).
Proof.
  intros Hl. unfold GetTargetResourceYAML. rewrite Hl. simpl.
  destruct pods as [|pod pods].
  - simpl. split.
    + intros [p H]. discriminate.
    + intros H. inversion H.
  - assert (E : (len (pod :: pods) =? 0) = false).
    { apply Z.eqb_neq. unfold len. simpl length. lia. }
    rewrite E.
    destruct (filter_all_cases (pod :: pods)) as [[Hall [fs Hfs]] | [Hex (i & l & Hp)]].
    + rewrite Hfs. simpl. split.
      * intros [p H]. discriminate.
      * intros Hex. exfalso. apply Exists_exists in Hex.
        destruct Hex as (bad & Hin & Hbad). apply Hbad.
        rewrite Forall_forall in Hall. apply Hall, Hin.
    + rewrite Hp. simpl. split.
      * intros _. exact Hex.
      * intros _. eexists. reflexivity.
Qed.

(** X9. The resource query panics exactly when one of the pods the
    list call returned has no condition or no container status: one
    such pod among the matches loses the YAML of all of them. *)
Theorem GetTargetResourceYAML_panics_iff_unsummarisable_pod :
  forall r target pods,
    GetTargetPods r target = OK pods ->
    ((exists p, GetTargetResourceYAML r target = Panics p)
     <-> exists pod, In pod pods /\ ~ summarisable pod).
Proof.
  intros r target pods Hl.
  rewrite (resource_query_panics r target pods Hl). apply Exists_exists.
Qed.

Lemma GetTargetResourceYAML_panics_iff_unsummarisable_pod_witness :
  (exists p,
      GetTargetResourceYAML (reconciler [running_pod; pending_pod] one_alert one_log "")
        order_target = Panics p)
  <-> exists pod, In pod [running_pod; pending_pod] /\ ~ summarisable pod.
Proof.
  apply (GetTargetResourceYAML_panics_iff_unsummarisable_pod
           (reconciler [running_pod; pending_pod] one_alert one_log "") order_target).
  reflexivity.
Defined.

(** X10. The resource query returns an error exactly when listing the
    pods does, with that error: a pod that cannot be encoded is skipped
    and never fails the query. *)
Theorem GetTargetResourceYAML_fails_iff_listing_fails :
  forall r target e,
    GetTargetResourceYAML r target = Fails e <-> GetTargetPods r target = Err e.
Proof.
  intros r target e. unfold GetTargetResourceYAML.
  destruct (GetTargetPods r target) as [pods|e']; simpl.
  - split; [|discriminate].
    destruct (len pods =? 0); [discriminate|].
    destruct (filter_all_cases pods) as [[_ [fs ->]] | [_ (i & l & ->)]];
      simpl; discriminate.
  - split; intros H; inversion H; reflexivity.
Qed.

(** X11. The YAML built from the filtered pods is empty exactly when no
    pod could be encoded: an empty resource block means that no pod
    matched or that every match failed to encode. *)
Theorem resource_YAML_empty_iff_nothing_encoded :
  forall r filteredPods,
    encode_all r filteredPods = ""%string
    <-> Forall (fun pod => exists e, Encode r pod = Err e) filteredPods.
Proof.
  intros r fs. induction fs as [|pod fs IH]; simpl.
  - split; [constructor | reflexivity].
  - destruct (Encode r pod) as [text|e] eqn:E.
    + split.
      * intros H. destruct text; simpl in H; discriminate.
      * intros H. inversion H as [|? ? [e He] _]; subst. congruence.
    + rewrite IH. split.
      * intros H. constructor; [exists e; exact E | assumption].
      * intros H. inversion H; assumption.
Qed.

End ResourceBlock.

(* ===================================================================== *)
(** * Properties of the three evidence sources *)
(* ===================================================================== *)

Module EvidenceSources.
Import GoJSON Controller Examples.

(** X12. A report is built exactly when the three queries all return;
    when one fails, the call fails with the error of the first that
    failed in the order resource, alerts, logs, and nothing of the
    others is reported; the call panics exactly when the resource query
    does. *)
Theorem BuildEventString_builds_no_partial_report :
  forall r target,
    ((exists report, BuildEventString r target = Return report)
     <-> exists yaml alerts logs,
           GetTargetResourceYAML r target = Return yaml
           /\ GetPrometheusAlerts r target = OK alerts
           /\ GetLokiLogs r target = OK logs)
    /\ (forall e,
         BuildEventString r target = Fails e
         <-> GetTargetResourceYAML r target = Fails e
             \/ (exists yaml,
                   GetTargetResourceYAML r target = Return yaml
                   /\ GetPrometheusAlerts r target = Err e)
             \/ (exists yaml alerts,
                   GetTargetResourceYAML r target = Return yaml
                   /\ GetPrometheusAlerts r target = OK alerts
                   /\ GetLokiLogs r target = Err e))
    /\ (forall p,
         BuildEventString r target = Panics p <-> GetTargetResourceYAML r target = Panics p).
Proof.
  intros r target. unfold BuildEventString.
  destruct (GetTargetResourceYAML r target) as [yaml|e0|p0]; simpl.
  - destruct (GetPrometheusAlerts r target) as [alerts|e1]; simpl.
    + destruct (GetLokiLogs r target) as [logs|e2]; simpl.
      * split; [|split].
        -- split; [intros _; exists yaml, alerts, logs; repeat split
                  | intros _; eexists; reflexivity].
        -- intros e. split; [discriminate|].
           intros [H|[(y & _ & H)|(y & a & _ & _ & H)]]; discriminate.
        -- intros p. split; discriminate.
      * split; [|split].
        -- split; [intros [x H]; discriminate | intros (y & a & l & _ & _ & H); discriminate].
        -- intros e. split.
           ++ intros H. inversion H; subst. right. right. exists yaml, alerts. repeat split.
           ++ intros [H|[(y & _ & H)|(y & a & _ & _ & H)]]; try discriminate.
              inversion H; reflexivity.
        -- intros p. split; discriminate.
    + split; [|split].
      * split; [intros [x H]; discriminate | intros (y & a & l & _ & H & _); discriminate].
      * intros e. split.
        -- intros H. inversion H; subst. right. left. exists yaml. repeat split.
        -- intros [H|[(y & _ & H)|(y & a & _ & H & _)]]; try discriminate.
           inversion H; reflexivity.
      * intros p. split; discriminate.
  - split; [|split].
    + split; [intros [x H]; discriminate | intros (y & a & l & H & _); discriminate].
    + intros e. split.
      * intros H. left. exact H.
      * intros [H|[(y & H & _)|(y & a & H & _)]]; try discriminate. exact H.
    + intros p. split; discriminate.
  - split; [|split].
    + split; [intros [x H]; discriminate | intros (y & a & l & H & _); discriminate].
    + intros e. split; [discriminate|].
      intros [H|[(y & H & _)|(y & a & H & _)]]; discriminate.
    + intros p. split; intros H; exact H.
Qed.

(** ** When an evidence text is empty *)

Lemma append_eq_empty (a b : string) : a ++ b = "" -> a = "" /\ b = "".
Proof. destruct a; simpl; [tauto | discriminate]. Qed.

Lemma concat_empty (l : list string) :
  String.concat "" l = "" <-> Forall (fun s => s = "") l.
Proof.
  induction l as [|x l IH].
  - split; [constructor | reflexivity].
  - destruct l as [|y l].
    + simpl. split; [intros ->; repeat constructor | intros H; inversion H; assumption].
    + change (String.concat "" (x :: y :: l)) with (x ++ "" ++ String.concat "" (y :: l)).
      simpl append. split.
      * intros H. apply append_eq_empty in H. destruct H as [Hx Hr].
        constructor; [assumption | apply IH, Hr].
      * intros H. inversion H as [|? ? Hx Hr]; subst.
        apply IH in Hr. simpl. exact Hr.
Qed.

Lemma alert_stanza_empty r item :
  alert_stanza r item = ""
  <-> forall alert metric, item = Object alert -> map_get alert "metric" <> Object metric.
Proof.
  unfold alert_stanza. destruct item as [| | | | |alert];
    try (split; [intros _ a m H; discriminate | reflexivity]).
  destruct (map_get alert "metric") as [| | | | |metric] eqn:E;
    try (split; [intros _ a m H; inversion H; subst; rewrite E; discriminate | reflexivity]).
  split.
  - simpl. discriminate.
  - intros H. exfalso. apply (H alert metric eq_refl). exact E.
Qed.

(** X13. When the alert query returns, the alerts text is empty, and
    the report shows "No firing alerts", exactly when no item of a
    vector result carries a metric map: a response of another result
    type, however many items it has, reads as no alerts. *)
Theorem alerts_text_empty_iff_no_metric :
  forall r target result,
    QueryPrometheus r target = OK result ->
    (GetPrometheusAlerts r target = OK ""
     <-> forall data results item alert metric,
           top_get result "data" = Object data ->
           map_get data "resultType" = Str "vector" ->
           map_get data "result" = Array results ->
           In item results ->
           item = Object alert ->
           map_get alert "metric" <> Object metric).
Proof.
  intros r target result Hq. unfold GetPrometheusAlerts. rewrite Hq. simpl.
  unfold format_alerts. split.
  - intros H data results item alert metric Hd Ht Hr Hin Hitem.
    rewrite Hd, Ht, Hr in H. simpl in H. assert (Hc := f_equal (fun x => match x with OK s => s | Err _ => EmptyString end) H). simpl in Hc.
    apply concat_empty in Hc. rewrite Forall_forall in Hc.
    specialize (Hc (alert_stanza r item) (in_map _ _ _ Hin)).
    apply (proj1 (alert_stanza_empty r item) Hc alert metric Hitem).
  - intros H.
    destruct (top_get result "data") as [| | | | |data] eqn:Ed; try reflexivity.
    destruct (map_get data "resultType") as [| | |t| |] eqn:Et; try reflexivity.
    destruct (map_get data "result") as [| | | |results|] eqn:Er; try reflexivity.
    destruct (String.eqb_spec t "vector") as [->|]; [|reflexivity].
    f_equal. apply concat_empty. rewrite Forall_forall.
    intros s Hs. apply in_map_iff in Hs. destruct Hs as (item & <- & Hin).
    apply alert_stanza_empty. intros alert metric Hitem.
    apply (H data results item alert metric eq_refl Et Er Hin Hitem).
Qed.

Lemma alerts_text_empty_iff_no_metric_witness :
  GetPrometheusAlerts quiet order_target = OK ""
  <-> forall data results item alert metric,
        top_get (no_records "vector") "data" = Object data ->
        map_get data "resultType" = Str "vector" ->
        map_get data "result" = Array results ->
        In item results ->
        item = Object alert ->
        map_get alert "metric" <> Object metric.
Proof.
  apply (alerts_text_empty_iff_no_metric quiet order_target). reflexivity.
Defined.

Lemma log_line_empty r entry :
  log_line r entry = ""
  <-> forall ts line more, entry <> Array (ts :: line :: more).
Proof.
  unfold log_line. destruct entry as [| | | |[|ts [|line more]]|];
    try (split; [intros _ t l m H; discriminate | reflexivity]).
  split.
  - intros H. apply append_eq_empty in H. destruct H as [_ H]. simpl in H. discriminate.
  - intros H. exfalso. apply (H ts line more). reflexivity.
Qed.

Lemma stream_lines_empty r stream :
  stream_lines r stream = ""
  <-> forall streamData values entry ts line more,
        stream = Object streamData ->
        map_get streamData "values" = Array values ->
        In entry values ->
        entry <> Array (ts :: line :: more).
Proof.
  unfold stream_lines. destruct stream as [| | | | |streamData];
    try (split; [intros _ sd vs en t l m H; discriminate | reflexivity]).
  destruct (map_get streamData "values") as [| | | |values|] eqn:E;
    try (split; [intros _ sd vs en t l m H H'; inversion H; subst; rewrite E in H';
                 discriminate | reflexivity]).
  split.
  - intros H sd vs entry ts line more Hs Hv Hin. inversion Hs; subst.
    rewrite E in Hv. inversion Hv; subst.
    apply concat_empty in H. rewrite Forall_forall in H.
    apply (proj1 (log_line_empty r entry) (H _ (in_map _ _ _ Hin))).
  - intros H. apply concat_empty. rewrite Forall_forall.
    intros s Hs. apply in_map_iff in Hs. destruct Hs as (entry & <- & Hin).
    apply log_line_empty. intros ts line more.
    apply (H streamData values entry ts line more eq_refl E Hin).
Qed.

(** X14. When the log query returns, the logs text is empty, and the
    report shows "No error logs", exactly when no stream of a streams
    result has a values entry of at least two elements: shorter entries
    and results of another type are passed over in silence. *)
Theorem logs_text_empty_iff_no_entry :
  forall r target result,
    QueryLoki r target = OK result ->
    (GetLokiLogs r target = OK ""
     <-> forall data streams stream streamData values entry ts line more,
           top_get result "data" = Object data ->
           map_get data "resultType" = Str "streams" ->
           map_get data "result" = Array streams ->
           In stream streams ->
           stream = Object streamData ->
           map_get streamData "values" = Array values ->
           In entry values ->
           entry <> Array (ts :: line :: more)).
Proof.
  intros r target result Hq. unfold GetLokiLogs. rewrite Hq. simpl.
  unfold format_logs. split.
  - intros H data streams stream sd values entry ts line more Hd Ht Hr Hin Hs Hv Hen.
    rewrite Hd, Ht, Hr in H. simpl in H. assert (Hc := f_equal (fun x => match x with OK s => s | Err _ => EmptyString end) H). simpl in Hc.
    apply concat_empty in Hc. rewrite Forall_forall in Hc.
    specialize (Hc (stream_lines r stream) (in_map _ _ _ Hin)).
    apply (proj1 (stream_lines_empty r stream) Hc sd values entry ts line more Hs Hv Hen).
  - intros H.
    destruct (top_get result "data") as [| | | | |data] eqn:Ed; try reflexivity.
    destruct (map_get data "resultType") as [| | |t| |] eqn:Et; try reflexivity.
    destruct (map_get data "result") as [| | | |streams|] eqn:Er; try reflexivity.
    destruct (String.eqb_spec t "streams") as [->|]; [|reflexivity].
    f_equal. apply concat_empty. rewrite Forall_forall.
    intros s Hs. apply in_map_iff in Hs. destruct Hs as (stream & <- & Hin).
    apply stream_lines_empty. intros sd values entry ts line more Hs Hv Hen.
    apply (H data streams stream sd values entry ts line more
             eq_refl Et Er Hin Hs Hv Hen).
Qed.

Lemma logs_text_empty_iff_no_entry_witness :
  GetLokiLogs quiet order_target = OK ""
  <-> forall data streams stream streamData values entry ts line more,
        top_get (no_records "streams") "data" = Object data ->
        map_get data "resultType" = Str "streams" ->
        map_get data "result" = Array streams ->
        In stream streams ->
        stream = Object streamData ->
        map_get streamData "values" = Array values ->
        In entry values ->
        entry <> Array (ts :: line :: more).
Proof.
  apply (logs_text_empty_iff_no_entry quiet order_target). reflexivity.
Defined.

End EvidenceSources.

(* ===================================================================== *)
(** * Properties of a run of Reconcile *)
(* ===================================================================== *)

Module ReconcileOutcome.
Import GoJSON LLM Controller Examples Runs Notions.
Local Open Scope Z_scope.

(** Splits a run of [Reconcile] along its early returns. *)
Ltac along_the_run H :=
  unfold Reconcile in H;
  repeat match type of H with
         | context [match ?x with _ => _ end] => destruct x eqn:?
         end;
  try discriminate; same_result.

(** Splits on the two parts of the selector of [a]. *)
Ltac by_selector a :=
  destruct (LabelSelector_MatchLabels
              (TargetSelector_Selector (Spec_Target (AIOpsAnalyzer_Spec a))));
  destruct (LabelSelector_MatchExpressions
              (TargetSelector_Selector (Spec_Target (AIOpsAnalyzer_Spec a)))).

(** X15. A run that ends asks for a delay of 10 seconds exactly when
    the pods were listed and the evidence report then failed, and it
    returns the error of the report; every other outcome, also a failed
    lookup or listing, a failed query of the reasoning service or an
    unreadable response, asks for no delay. *)
Theorem Reconcile_requeues_only_when_evidence_fails :
  forall r req out,
    Reconcile r req = Return out ->
    (Result_RequeueAfter (reconciled_Result out) = 10
     \/ Result_RequeueAfter (reconciled_Result out) = 0)
    /\ (Result_RequeueAfter (reconciled_Result out) = 10
        <-> exists aiopsAnalyzer targetPods e,
              Get r req = OK aiopsAnalyzer
              /\ GetTargetPods r (Spec_Target (AIOpsAnalyzer_Spec aiopsAnalyzer))
                 = OK targetPods
              /\ BuildEventString r (Spec_Target (AIOpsAnalyzer_Spec aiopsAnalyzer)) = Fails e
              /\ reconciled_err out = Some e
              /\ reconciled_cards out = []).
Proof.
  intros r req out H.
  along_the_run H; simpl;
    (split; [auto|]);
    (split;
     [ try discriminate; intros _; eexists _, _, _;
       repeat split; try eassumption; reflexivity
     | intros (? & ? & ? & Hg & Hp & Hb & He & Hc); try reflexivity; congruence ]).
Qed.

Lemma Reconcile_requeues_only_when_evidence_fails_witness :
  (10 = 10 \/ 10 = 0)
  /\ (10 = 10
      <-> exists aiopsAnalyzer targetPods e,
            Get (cluster [running_pod] (Err (externalError "connection refused"))
                   (OK one_log) (OK heal_low) (OK tt)) "order" = OK aiopsAnalyzer
            /\ GetTargetPods
                 (cluster [running_pod] (Err (externalError "connection refused"))
                    (OK one_log) (OK heal_low) (OK tt))
                 (Spec_Target (AIOpsAnalyzer_Spec aiopsAnalyzer)) = OK targetPods
            /\ BuildEventString
                 (cluster [running_pod] (Err (externalError "connection refused"))
                    (OK one_log) (OK heal_low) (OK tt))
                 (Spec_Target (AIOpsAnalyzer_Spec aiopsAnalyzer)) = Fails e
            /\ Some (externalError "connection refused") = Some e
            /\ @nil Feishu.CardMessage = []).
Proof.
  apply (Reconcile_requeues_only_when_evidence_fails
           (cluster [running_pod] (Err (externalError "connection refused"))
              (OK one_log) (OK heal_low) (OK tt))
           "order"
           (mkReconciled (mkResult 10) (Some (externalError "connection refused")) [])).
  reflexivity.
Defined.

(** A response that parsed as a HealAction has a valid risk level and
    the action "heal". *)
Lemma parsed_heal_is_valid response v :
  ParseAutoHealResponse response = OK (Heal v) ->
  valid_risk_level (HealAction_RiskLevel v).
Proof.
  intros H.
  destruct (ResponseDecoding.ParseAutoHealResponse_OK_inv _ _ H)
    as (b & _ & [(_ & h & E & _ & Hv) | (_ & n & E & _)]).
  - inversion E; subst. exact Hv.
  - discriminate.
Qed.

(** X16. A run hands a card to the delivery only when the reasoning
    service answered the request built from the evidence report with a
    response that parsed as a HealAction of a valid risk level; it is
    then the one card built from that HealAction, and the run returns
    no error and asks for no delay. *)
Theorem Reconcile_sends_one_card_for_a_valid_heal :
  forall r req out,
    Reconcile r req = Return out ->
    reconciled_cards out <> [] ->
    exists aiopsAnalyzer eventString response v,
      Get r req = OK aiopsAnalyzer
      /\ BuildEventString r (Spec_Target (AIOpsAnalyzer_Spec aiopsAnalyzer))
         = Return eventString
      /\ SendMessage r (request_content (NowFormat r) eventString) = OK response
      /\ ParseAutoHealResponse response = OK (Heal v)
      /\ valid_risk_level (HealAction_RiskLevel v)
      /\ reconciled_cards out = [heal_card r aiopsAnalyzer v]
      /\ reconciled_err out = None
      /\ Result_RequeueAfter (reconciled_Result out) = 0.
Proof.
  intros r req out H Hcards.
  along_the_run H; simpl in Hcards; try congruence;
    match goal with
    | Hparse : ParseAutoHealResponse _ = OK ?res |- _ =>
      destruct res as [v|n]; [|simpl in Hcards; congruence];
      eexists _, _, _, v;
      split; [reflexivity|]; split; [eassumption|]; split; [eassumption|];
      split; [exact Hparse|]; split; [exact (parsed_heal_is_valid _ _ Hparse)|];
      split; [|split; reflexivity];
      simpl; unfold dispatch;
      destruct (SendTemplateCard _ _); reflexivity
    end.
Qed.

Lemma Reconcile_sends_one_card_for_a_valid_heal_witness :
  exists aiopsAnalyzer eventString response v,
    Get (cluster [running_pod] (OK one_alert) (OK one_log) (OK heal_low)
           (Err (externalError "timeout"))) "order" = OK aiopsAnalyzer
    /\ BuildEventString
         (cluster [running_pod] (OK one_alert) (OK one_log) (OK heal_low)
            (Err (externalError "timeout")))
         (Spec_Target (AIOpsAnalyzer_Spec aiopsAnalyzer)) = Return eventString
    /\ SendMessage
         (cluster [running_pod] (OK one_alert) (OK one_log) (OK heal_low)
            (Err (externalError "timeout")))
         (request_content
            (NowFormat (cluster [running_pod] (OK one_alert) (OK one_log) (OK heal_low)
                          (Err (externalError "timeout"))))
            eventString) = OK response
    /\ ParseAutoHealResponse response = OK (Heal v)
    /\ valid_risk_level (HealAction_RiskLevel v)
    /\ [heal_card (cluster [running_pod] (OK one_alert) (OK one_log) (OK heal_low)
                     (Err (externalError "timeout"))) order_analyzer heal_low_action]
       = [heal_card (cluster [running_pod] (OK one_alert) (OK one_log) (OK heal_low)
                       (Err (externalError "timeout"))) aiopsAnalyzer v]
    /\ @None error = None
    /\ 0 = 0.
Proof.
  apply (Reconcile_sends_one_card_for_a_valid_heal
           (cluster [running_pod] (OK one_alert) (OK one_log) (OK heal_low)
              (Err (externalError "timeout")))
           "order"
           (mkReconciled (mkResult 0) None
              [heal_card (cluster [running_pod] (OK one_alert) (OK one_log) (OK heal_low)
                            (Err (externalError "timeout"))) order_analyzer heal_low_action])).
  - vm_compute. reflexivity.
  - discriminate.
Defined.

(** ** The delivery of the card *)

Lemma GetTargetPods_with_SendTemplateCard r send target :
  GetTargetPods (with_SendTemplateCard r send) target = GetTargetPods r target.
Proof. reflexivity. Qed.

Lemma encode_all_with_SendTemplateCard r send filteredPods :
  encode_all (with_SendTemplateCard r send) filteredPods = encode_all r filteredPods.
Proof.
  induction filteredPods as [|pod rest IH]; simpl; [reflexivity|].
  rewrite IH. reflexivity.
Qed.

Lemma BuildEventString_with_SendTemplateCard r send target :
  BuildEventString (with_SendTemplateCard r send) target = BuildEventString r target.
Proof.
  unfold BuildEventString, GetTargetResourceYAML.
  rewrite GetTargetPods_with_SendTemplateCard.
  destruct (GetTargetPods r target) as [pods|e]; simpl; [|reflexivity].
  destruct (len pods =? 0); [reflexivity|].
  destruct (filter_all pods) as [fs|e|p]; simpl; try reflexivity.
  rewrite encode_all_with_SendTemplateCard. reflexivity.
Qed.

(** X17. What a run returns and the cards it hands over do not depend
    on the delivery: a card that could not be delivered leaves the run
    with no error and no delay, as a delivered one does. *)
Theorem Reconcile_ignores_the_delivery :
  forall r send req,
    Reconcile (with_SendTemplateCard r send) req = Reconcile r req.
Proof.
  intros r send req. unfold Reconcile.
  change (Get (with_SendTemplateCard r send)) with (Get r).
  destruct (Get r req) as [a|e]; [|reflexivity].
  rewrite GetTargetPods_with_SendTemplateCard, BuildEventString_with_SendTemplateCard.
  change (SendMessage (with_SendTemplateCard r send)) with (SendMessage r).
  change (NowFormat (with_SendTemplateCard r send)) with (NowFormat r).
  assert (Hd : forall result,
             dispatch (with_SendTemplateCard r send) a result = dispatch r a result).
  { intros [v|n]; [|reflexivity]. unfold dispatch.
    change (heal_card (with_SendTemplateCard r send) a v) with (heal_card r a v).
    destruct (SendTemplateCard (with_SendTemplateCard r send) (heal_card r a v)),
      (SendTemplateCard r (heal_card r a v)); reflexivity. }
  by_selector a;
    repeat match goal with
           | |- context [match ?x with _ => _ end] => destruct x
           end;
    try rewrite Hd; reflexivity.
Qed.

(** ** A pod that cannot be summarised *)

(** X18. A run panics exactly when the analyzer was found, a selector
    is set, the run's own listing of the pods succeeded and the resource
    query of the evidence report then panics; it is the panic of that
    query, passed on unchanged, and always an index out of range: the
    run then returns nothing, neither an error nor a delay. *)
Theorem Reconcile_panics_iff_resource_query_panics :
  forall r req p,
    (Reconcile r req = Panics p
     <-> exists aiopsAnalyzer targetPods,
           Get r req = OK aiopsAnalyzer
           /\ (LabelSelector_MatchLabels
                 (TargetSelector_Selector (Spec_Target (AIOpsAnalyzer_Spec aiopsAnalyzer)))
               <> None
               \/ LabelSelector_MatchExpressions
                    (TargetSelector_Selector (Spec_Target (AIOpsAnalyzer_Spec aiopsAnalyzer)))
                  <> None)
           /\ GetTargetPods r (Spec_Target (AIOpsAnalyzer_Spec aiopsAnalyzer))
              = OK targetPods
           /\ GetTargetResourceYAML r (Spec_Target (AIOpsAnalyzer_Spec aiopsAnalyzer))
              = Panics p)
    /\ (Reconcile r req = Panics p -> exists index length, p = IndexOutOfRange index length).
Proof.
  intros r req p.
  assert (Hb : forall target,
             BuildEventString r target = Panics p
             <-> GetTargetResourceYAML r target = Panics p).
  { intros target. unfold BuildEventString.
    destruct (GetTargetResourceYAML r target) as [y|e|q]; simpl.
    - destruct (GetPrometheusAlerts r target); simpl;
        [destruct (GetLokiLogs r target); simpl|];
        split; discriminate.
    - split; discriminate.
    - split; intros H; exact H. }
  assert (Hi : forall target,
             GetTargetResourceYAML r target = Panics p ->
             exists index length, p = IndexOutOfRange index length).
  { intros target. unfold GetTargetResourceYAML.
    destruct (GetTargetPods r target) as [pods|e]; simpl; [|discriminate].
    destruct (len pods =? 0); [discriminate|].
    destruct (ResourceBlock.filter_all_cases pods) as [[_ [fs ->]] | [_ (i & l & ->)]];
      simpl; [discriminate|].
    intros H. inversion H. exists i, l. reflexivity. }
  assert (Hiff :
    Reconcile r req = Panics p
    <-> exists a pods,
          Get r req = OK a
          /\ (LabelSelector_MatchLabels
                (TargetSelector_Selector (Spec_Target (AIOpsAnalyzer_Spec a))) <> None
              \/ LabelSelector_MatchExpressions
                   (TargetSelector_Selector (Spec_Target (AIOpsAnalyzer_Spec a))) <> None)
          /\ GetTargetPods r (Spec_Target (AIOpsAnalyzer_Spec a)) = OK pods
          /\ GetTargetResourceYAML r (Spec_Target (AIOpsAnalyzer_Spec a)) = Panics p).
  { unfold Reconcile. split.
    - intros H.
      destruct (Get r req) as [a|e] eqn:Hg; [|discriminate].
      destruct (GetTargetPods r (Spec_Target (AIOpsAnalyzer_Spec a))) as [pods|e] eqn:Hl.
      + assert (Hp : BuildEventString r (Spec_Target (AIOpsAnalyzer_Spec a)) = Panics p).
        { repeat match type of H with
                 | context [match ?x with _ => _ end] => destruct x eqn:?
                 end; try discriminate; congruence. }
        exists a, pods. split; [reflexivity|]. split; [|split; [exact Hl | apply Hb, Hp]].
        by_selector a; simpl in H; try discriminate H;
          try (left; discriminate); right; discriminate.
      + by_selector a; discriminate.
    - intros (a & pods & Hg & Hsel & Hl & Hy).
      rewrite Hg, Hl. rewrite (proj2 (Hb _) Hy).
      by_selector a; try reflexivity.
      destruct Hsel as [Hsel|Hsel]; contradiction. }
  split; [exact Hiff|].
  intros H. apply Hiff in H. destruct H as (a & pods & _ & _ & _ & Hy).
  apply (Hi _ Hy).
Qed.

Lemma Reconcile_panics_iff_resource_query_panics_witness :
  exists p,
    Reconcile (cluster [running_pod; pending_pod] (OK one_alert) (OK one_log) (OK heal_low)
                 (OK tt)) "order" = Panics p
    /\ exists index length, p = IndexOutOfRange index length.
Proof.
  eexists. split.
  - apply (proj1 (Reconcile_panics_iff_resource_query_panics
                    (cluster [running_pod; pending_pod] (OK one_alert) (OK one_log)
                       (OK heal_low) (OK tt)) "order" _)).
    exists order_analyzer, [running_pod; pending_pod].
    split; [reflexivity|]. split; [left; discriminate|]. split; reflexivity.
  - eexists _, _. reflexivity.
Defined.

End ReconcileOutcome.

(* ===================================================================== *)
(** * Properties of the requests sent out *)
(* ===================================================================== *)

Module Requests.
Import GoJSON LLM Controller Examples Queries.

(** ** The request identifier of a card *)

Lemma append_cancel_l (a x y : string) : a ++ x = a ++ y -> x = y.
Proof.
  induction a as [|c a IH]; simpl; intros H; [exact H|].
  inversion H. auto.
Qed.

Lemma to_int_not_nil (z : Z) :
  Z.to_int z <> Decimal.Pos Decimal.Nil /\ Z.to_int z <> Decimal.Neg Decimal.Nil.
Proof.
  destruct z as [|p|p]; simpl; split; try discriminate;
    intros H; inversion H as [E]; apply (Unsigned.to_uint_nonnil p E).
Qed.

Lemma decimal_text_inj (x y : Z) :
  NilZero.string_of_int (Z.to_int x) = NilZero.string_of_int (Z.to_int y) -> x = y.
Proof.
  intros H. apply to_int_inj.
  destruct (to_int_not_nil x) as [Hx1 Hx2]. destruct (to_int_not_nil y) as [Hy1 Hy2].
  assert (E : Some (Z.to_int x) = Some (Z.to_int y)).
  { rewrite <- (NilZero.isi _ Hx1 Hx2), <- (NilZero.isi _ Hy1 Hy2), H. reflexivity. }
  inversion E. reflexivity.
Qed.

(** X19. Two cards built for the same patch file carry the same request
    identifier exactly when they were built in the same second: the
    identifier tells apart two runs on one patch file only across
    seconds. *)
Theorem same_request_id_iff_same_second :
  forall r1 r2 a1 a2 v1 v2,
    HealAction_PatchFile v1 = HealAction_PatchFile v2 ->
    (Feishu.CardVariables_RequestID (Feishu.CardMessage_Variables (heal_card r1 a1 v1))
     = Feishu.CardVariables_RequestID (Feishu.CardMessage_Variables (heal_card r2 a2 v2))
     <-> NowUnix r1 = NowUnix r2).
Proof.
  intros r1 r2 a1 a2 v1 v2 Hf. simpl. rewrite Hf. split.
  - intros H. apply append_cancel_l in H. apply (append_cancel_l "-") in H.
    apply decimal_text_inj, H.
  - intros ->. reflexivity.
Qed.

Lemma same_request_id_iff_same_second_witness :
  Feishu.CardVariables_RequestID
    (Feishu.CardMessage_Variables (heal_card noisy Runs.order_analyzer heal_low_action))
  = Feishu.CardVariables_RequestID
      (Feishu.CardMessage_Variables (heal_card quiet Runs.order_analyzer heal_low_action))
  <-> NowUnix noisy = NowUnix quiet.
Proof.
  apply (same_request_id_iff_same_second noisy quiet Runs.order_analyzer Runs.order_analyzer
           heal_low_action heal_low_action).
  reflexivity.
Defined.

(** ** The query texts *)

Lemma add_matchers_app (q query : string) (labels : list (string * string)) :
  add_matchers q query labels
  = query ++ String.concat "" (map (fun kv => "," ++ matcher q kv) labels).
Proof.
  revert query. induction labels as [|[k v] rest IH]; intros query.
  - simpl. rewrite append_nil_r. reflexivity.
  - simpl add_matchers. rewrite IH. unfold matcher at 2. simpl fst. simpl snd.
    rewrite !append_assoc.
    destruct rest as [|kv rest]; simpl.
    + rewrite append_nil_r. reflexivity.
    + reflexivity.
Qed.

Lemma Join_cons (p : string) (rest : list string) :
  Join (p :: rest) "," = p ++ String.concat "" (map (fun x => "," ++ x) rest).
Proof.
  revert p. induction rest as [|x rest IH]; intros p.
  - simpl. rewrite append_nil_r. reflexivity.
  - change (Join (p :: x :: rest) ",") with (p ++ "," ++ Join (x :: rest) ",").
    rewrite IH. destruct rest; simpl; [rewrite append_nil_r|]; reflexivity.
Qed.

(** The labels of a target; none for a nil map. *)
Lemma range_labels_app (q query : string) target :
  range_labels q query target
  = query ++ String.concat ""
               (map (fun kv => "," ++ matcher q kv)
                  (match LabelSelector_MatchLabels (TargetSelector_Selector target) with
                   | Some labels => labels
                   | None => []
                   end)).
Proof.
  unfold range_labels.
  destruct (LabelSelector_MatchLabels (TargetSelector_Selector target)).
  - apply add_matchers_app.
  - simpl. rewrite append_nil_r. reflexivity.
Qed.

Lemma LokiQuery_shape target :
  LokiQuery target
  = "{namespace=" ++ String quote "" ++ TargetSelector_Namespace target ++ String quote ""
    ++ String.concat ""
         (map (fun kv => "," ++ matcher (String quote "") kv)
            match LabelSelector_MatchLabels (TargetSelector_Selector target) with
            | Some labels => labels
            | None => []
            end)
    ++ "} |~ " ++ String quote "" ++ "(?i)(error|panic|fatal|critical)" ++ String quote "".
Proof.
  unfold LokiQuery. rewrite range_labels_app. rewrite !append_assoc. reflexivity.
Qed.

Lemma PrometheusQuery_shape target :
  PrometheusQuery target
  = "ALERTS{namespace='" ++ TargetSelector_Namespace target ++ "'}"
    ++ String.concat ""
         (map (fun kv => "," ++ matcher "'" kv)
            match LabelSelector_MatchLabels (TargetSelector_Selector target) with
            | Some labels => labels
            | None => []
            end)
    ++ " and ALERTS.state='firing'".
Proof.
  unfold PrometheusQuery. rewrite range_labels_app. rewrite !append_assoc. reflexivity.
Qed.

(** X20. The log query is one stream selector: the namespace matcher
    and one matcher for each label of the target, all double-quoted and
    joined by commas inside the braces, followed by the fixed
    case-insensitive filter. *)
Theorem LokiQuery_is_one_selector :
  forall target,
    LokiQuery target
    = "{"
      ++ Join (map (matcher (String quote ""))
                 (("namespace", TargetSelector_Namespace target)
                  :: match LabelSelector_MatchLabels (TargetSelector_Selector target) with
                     | Some labels => labels
                     | None => []
                     end)) ","
      ++ "} |~ " ++ String quote "" ++ "(?i)(error|panic|fatal|critical)" ++ String quote "".
Proof.
  intros target. rewrite LokiQuery_shape.
  rewrite map_cons, Join_cons, map_map. unfold matcher. simpl fst. simpl snd.
  rewrite !append_assoc. reflexivity.
Qed.

(** X21. In the alert query the braces close after the namespace
    matcher: the matchers of the labels follow the closing brace, each
    after a comma, and the firing condition follows them. *)
Theorem PrometheusQuery_closes_before_the_labels :
  forall target,
    PrometheusQuery target
    = "ALERTS{namespace='" ++ TargetSelector_Namespace target ++ "'}"
      ++ String.concat ""
           (map (fun kv => "," ++ fst kv ++ "='" ++ snd kv ++ "'")
              match LabelSelector_MatchLabels (TargetSelector_Selector target) with
              | Some labels => labels
              | None => []
              end)
      ++ " and ALERTS.state='firing'".
Proof.
  intros target. apply PrometheusQuery_shape.
Qed.

(** X28. In the first version of the log query the braces close after
    the namespace matcher, and the single-quoted matchers of the labels
    follow the closing brace, before the four line filters. *)
Theorem LokiQuery_first_closes_before_the_labels :
  forall target,
    LokiQuery_first target
    = "{namespace='" ++ TargetSelector_Namespace target ++ "'}"
      ++ String.concat ""
           (map (fun kv => "," ++ fst kv ++ "='" ++ snd kv ++ "'")
              match LabelSelector_MatchLabels (TargetSelector_Selector target) with
              | Some labels => labels
              | None => []
              end)
      ++ " |= " ++ String quote "" ++ "error" ++ String quote ""
      ++ " or |= " ++ String quote "" ++ "ERROR" ++ String quote ""
      ++ " or |= " ++ String quote "" ++ "panic" ++ String quote ""
      ++ " or |= " ++ String quote "" ++ "PANIC" ++ String quote "".
Proof.
  intros target. unfold LokiQuery_first. rewrite range_labels_app.
  rewrite !append_assoc. reflexivity.
Qed.

(** X22. For a target without a namespace the pods are listed in the
    namespace "default", while the alert query and the log query both
    match the empty namespace: the three sources do not look at the same
    namespace. *)
Theorem queries_do_not_default_the_namespace :
  forall r target,
    TargetSelector_Namespace target = "" ->
    (forall pods,
        GetTargetPods r target = OK pods ->
        exists selector, List r (mkListOptions "default" selector) = OK pods)
    /\ (exists rest, PrometheusQuery target = "ALERTS{namespace=''}" ++ rest)
    /\ (exists rest,
          LokiQuery target = "{namespace=" ++ String quote "" ++ String quote "" ++ rest).
Proof.
  intros r target Hn. split; [|split].
  - intros pods H. unfold GetTargetPods in H. rewrite Hn in H.
    change (if String.eqb "" "" then NamespaceDefault else "") with "default" in H.
    destruct (LabelSelector_MatchLabels (TargetSelector_Selector target)),
      (LabelSelector_MatchExpressions (TargetSelector_Selector target));
      simpl in H;
      try (destruct (LabelSelectorAsSelector r (TargetSelector_Selector target));
           simpl in H; [|discriminate]);
      eexists; exact H.
  - rewrite PrometheusQuery_shape, Hn. eexists. reflexivity.
  - rewrite LokiQuery_shape, Hn. eexists. simpl. reflexivity.
Qed.

Lemma queries_do_not_default_the_namespace_witness :
  (forall pods,
      GetTargetPods noisy unnamed_target = OK pods ->
      exists selector, List noisy (mkListOptions "default" selector) = OK pods)
  /\ (exists rest, PrometheusQuery unnamed_target = "ALERTS{namespace=''}" ++ rest)
  /\ (exists rest,
        LokiQuery unnamed_target
        = "{namespace=" ++ String quote "" ++ String quote "" ++ rest).
Proof.
  apply (queries_do_not_default_the_namespace noisy unnamed_target). reflexivity.
Defined.


(** ** The escaped query value *)

(** What [QueryEscape] writes for one byte. *)
Lemma QueryEscape_cons (c : ascii) (r : string) :
  QueryEscape (String c r) = QueryEscape (String c "") ++ QueryEscape r.
Proof.
  simpl. destruct (unreserved c); [reflexivity|].
  destruct (Ascii.eqb c " "); reflexivity.
Qed.

Lemma all_chars_app (p : ascii -> bool) (a b : string) :
  all_chars p (a ++ b) = all_chars p a && all_chars p b.
Proof.
  induction a as [|c a IH]; simpl; [reflexivity|].
  rewrite IH. apply andb_assoc.
Qed.

Lemma escaped_byte_is_safe (c : ascii) :
  all_chars query_safe (QueryEscape (String c "")) = true.
Proof.
  destruct c as [[] [] [] [] [] [] [] []]; vm_compute; reflexivity.
Qed.

Lemma QueryEscape_is_safe (s : string) : all_chars query_safe (QueryEscape s) = true.
Proof.
  induction s as [|c r IH]; [reflexivity|].
  rewrite QueryEscape_cons, all_chars_app, escaped_byte_is_safe, IH. reflexivity.
Qed.

(** X23. In the URL of the alert request and in the URL of the log
    request the query value holds only letters, digits and the bytes
    [-_.~+%]: whatever the namespace and the labels of the target hold,
    the value ends where the code ends it, and the log URL has the one
    start parameter the code writes. *)
Theorem query_value_is_escaped :
  forall target timeRange,
    exists alertQuery logQuery,
      PrometheusURL target = "http://127.0.0.1:9090/api/v1/query?query=" ++ alertQuery
      /\ LokiURL target timeRange
         = "http://127.0.0.1:3100/loki/api/v1/query?query=" ++ logQuery
           ++ "&start=" ++ NilZero.string_of_int (Z.to_int timeRange)
      /\ all_chars query_safe alertQuery = true
      /\ all_chars query_safe logQuery = true.
Proof.
  intros target timeRange.
  exists (QueryEscape (PrometheusQuery target)), (QueryEscape (LokiQuery target)).
  repeat split; apply QueryEscape_is_safe.
Qed.

(** The byte an escape stands for. *)
Lemma escaped_byte_inj (c1 c2 : ascii) (r1 r2 : string) :
  QueryEscape (String c1 "") ++ r1 = QueryEscape (String c2 "") ++ r2 ->
  c1 = c2 /\ r1 = r2.
Proof.
  assert (Hhex : forall c,
             byte (match hex_val (upperhex (code c / 16)),
                         hex_val (upperhex (code c mod 16)) with
                   | Some hi, Some lo => 16 * hi + lo
                   | _, _ => 0
                   end) = c).
  { intros c. destruct c as [[] [] [] [] [] [] [] []]; vm_compute; reflexivity. }
  assert (Hplus : unreserved "+" = false) by reflexivity.
  assert (Hpct : unreserved "%" = false) by reflexivity.
  simpl.
  destruct (unreserved c1) eqn:U1; [|destruct (Ascii.eqb_spec c1 " ") as [S1|S1]];
    (destruct (unreserved c2) eqn:U2; [|destruct (Ascii.eqb_spec c2 " ") as [S2|S2]]);
    simpl; intros H; inversion H; subst; try congruence; try (split; reflexivity).
  split; [|reflexivity].
  rewrite <- (Hhex c2), <- H1, <- H2. symmetry. apply Hhex.
Qed.

Lemma QueryEscape_inj (s1 s2 : string) : QueryEscape s1 = QueryEscape s2 -> s1 = s2.
Proof.
  revert s2. induction s1 as [|c1 r1 IH]; intros [|c2 r2] H.
  - reflexivity.
  - exfalso. simpl in H. destruct (unreserved c2); [discriminate|].
    destruct (Ascii.eqb c2 " "); discriminate.
  - exfalso. simpl in H. destruct (unreserved c1); [discriminate|].
    destruct (Ascii.eqb c1 " "); discriminate.
  - rewrite (QueryEscape_cons c1), (QueryEscape_cons c2) in H.
    apply escaped_byte_inj in H. destruct H as [-> H].
    rewrite (IH _ H). reflexivity.
Qed.

(** X24. The escaping loses nothing: two targets whose alert requests
    have the same URL have the same alert query, and likewise for the
    log requests sent with the same start time. *)
Theorem same_URL_same_query :
  forall target1 target2 timeRange,
    (PrometheusURL target1 = PrometheusURL target2
     -> PrometheusQuery target1 = PrometheusQuery target2)
    /\ (LokiURL target1 timeRange = LokiURL target2 timeRange
        -> LokiQuery target1 = LokiQuery target2).
Proof.
  intros target1 target2 timeRange. split; intros H.
  - unfold PrometheusURL in H. do 2 apply append_cancel_l in H.
    apply QueryEscape_inj, H.
  - unfold LokiURL in H. do 2 apply append_cancel_l in H.
    apply QueryEscape_inj.
    revert H. generalize (QueryEscape (LokiQuery target1)) as a.
    generalize (QueryEscape (LokiQuery target2)) as b.
    generalize ("&start=" ++ NilZero.string_of_int (Z.to_int timeRange)) as t.
    intros t b a H.
    assert (Hlen : String.length a = String.length b).
    { apply (f_equal String.length) in H. rewrite !EvidenceReport.length_append in H. lia. }
    revert b H Hlen. induction a as [|x a IH]; intros [|y b] H Hlen;
      simpl in Hlen; try discriminate; [reflexivity|].
    simpl in H. inversion H. f_equal. apply IH; [assumption | lia].
Qed.


(** ** The selector built from labels *)

(** X25. [BuildLabelSelector] never fails, and the selector it builds
    holds a map of the labels given, empty but not nil when there are
    none: [GetTargetPods] therefore always takes the branch that
    converts the selector, lists with what the conversion returned, and
    fails when the conversion fails; it never lists without a selector. *)
Theorem built_selector_is_always_converted :
  forall labels,
    exists selector,
      BuildLabelSelector labels = OK selector
      /\ LabelSelector_MatchLabels selector
         = Some (match labels with Some l => l | None => [] end)
      /\ forall r namespace,
           GetTargetPods r (mkTargetSelector namespace selector)
           = match LabelSelectorAsSelector r selector with
             | Err err => Err err
             | OK converted =>
               List r (mkListOptions
                         (if String.eqb namespace "" then "default" else namespace)
                         (Some converted))
             end.
Proof.
  intros labels. eexists. split; [reflexivity|]. split; [reflexivity|].
  intros r namespace. unfold GetTargetPods. simpl.
  destruct (LabelSelectorAsSelector r _); reflexivity.
Qed.

(** ** The request to the reasoning service *)

(** X26. [SendMessage] sends one request, of the fixed model, with the
    system prompt followed by the content as the user message. It
    returns the content of the first choice of the response and nothing
    of the others; it fails with the error of the call, or with "no
    response from OpenAI" when the response has no choice. *)
Theorem SendMessage_returns_the_first_choice :
  forall create content,
    (forall text,
        OpenAI.SendMessage create content = OK text
        <-> exists first rest,
              create (OpenAI.mkRequest "Qwen/Qwen2.5-72B-Instruct"
                        [ OpenAI.mkMessage "system" OpenAI.prompt;
                          OpenAI.mkMessage "user" content ])
              = OK (OpenAI.mkResponse (first :: rest))
              /\ OpenAI.Message_Content (OpenAI.Choice_Message first) = text)
    /\ (forall e,
          OpenAI.SendMessage create content = Err e
          <-> create (OpenAI.mkRequest "Qwen/Qwen2.5-72B-Instruct"
                        [ OpenAI.mkMessage "system" OpenAI.prompt;
                          OpenAI.mkMessage "user" content ])
              = Err e
              \/ (create (OpenAI.mkRequest "Qwen/Qwen2.5-72B-Instruct"
                            [ OpenAI.mkMessage "system" OpenAI.prompt;
                              OpenAI.mkMessage "user" content ])
                  = OK (OpenAI.mkResponse [])
                  /\ e = errorString "no response from OpenAI")).
Proof.
  intros create content. unfold OpenAI.SendMessage.
  destruct (create _) as [[[|first rest]]|e0]; simpl; split.
  - intros text. split; [discriminate | intros (f & r & H & _); discriminate].
  - intros e. split.
    + intros H. inversion H. right. split; reflexivity.
    + intros [H|[_ ->]]; [discriminate | reflexivity].
  - intros text. split.
    + intros H. inversion H. exists first, rest. split; reflexivity.
    + intros (f & r & H & <-). inversion H. reflexivity.
  - intros e. split; [discriminate|].
    intros [H|[H _]]; discriminate.
  - intros text. split; [discriminate | intros (f & r & H & _); discriminate].
  - intros e. split.
    + intros H. left. inversion H. reflexivity.
    + intros [H|[H _]]; [inversion H; reflexivity | discriminate].
Qed.


End Requests.

(* ===================================================================== *)
(** * The errors of the response parser *)
(* ===================================================================== *)

Module ResponseErrors.
Import GoJSON LLM Examples Notions.
Local Open Scope go_scope.

(** ** Storing fails with type errors only *)

Lemma store_string_type_error where_ v cur e :
  store_string where_ v cur = Err e -> type_error e.
Proof.
  unfold store_string. destruct v; intros H; try discriminate;
    inversion H; eexists _, _; reflexivity.
Qed.

Lemma store_any_type_error where_ v cur e :
  store_any where_ v cur = Err e -> type_error e.
Proof.
  unfold store_any. destruct (first_bad_number v); intros H; [|discriminate].
  inversion H. eexists _, _. reflexivity.
Qed.

Lemma store_members_type_error {T} (fs : list (field T)) :
  typed fs ->
  forall ms cur e, store_members fs ms cur = Err e -> type_error e.
Proof.
  intros Hfs. induction ms as [|[k v] ms IH]; simpl; intros cur e H; [discriminate|].
  destruct (find_field fs k) as [f|] eqn:F; [|apply (IH _ _ H)].
  destruct (fstore f v cur) as [cur'|e'] eqn:S.
  - apply (IH _ _ H).
  - inversion H; subst.
    apply (Hfs f (proj1 (ResponseDecoding.find_field_sound _ _ _ F)) _ _ _ S).
Qed.

Lemma store_struct_type_error {T} where_ (fs : list (field T)) :
  typed fs ->
  forall v cur e, store_struct where_ fs v cur = Err e -> type_error e.
Proof.
  intros Hfs v cur e. unfold store_struct.
  destruct v; intros H; try discriminate;
    try (inversion H; eexists _, _; reflexivity).
  apply (store_members_type_error fs Hfs _ _ _ H).
Qed.

Lemma store_slice_type_error {T} where_ (zero : T) store :
  (forall v cur e, store v cur = Err e -> type_error e) ->
  forall v cur e, store_slice where_ zero store v cur = Err e -> type_error e.
Proof.
  intros Hs v cur e. unfold store_slice.
  destruct v as [| | | |vs|]; intros H; try discriminate;
    try (inversion H; eexists _, _; reflexivity).
  revert cur e H. induction vs as [|x vs IH]; simpl; intros cur e H; [discriminate|].
  destruct (store x (hd zero cur)) as [y|e'] eqn:S.
  - destruct (store_elems zero store vs (tl cur)) as [ys|e''] eqn:R; [discriminate|].
    inversion H; subst. apply (IH _ _ R).
  - inversion H; subst. apply (Hs _ _ _ S).
Qed.

(** Reads one field store: the error of the store underneath. *)
Ltac store_error H :=
  match type of H with
  | rbind ?x _ = Err _ =>
    let E := fresh "E" in
    destruct x eqn:E; simpl in H; [discriminate|];
    inversion H; subst
  end.

Lemma PatchOp_fields_typed : typed PatchOp_fields.
Proof.
  intros f Hin v cur e H. simpl in Hin.
  destruct Hin as [<-|[<-|[<-|[]]]]; simpl in H; store_error H;
    eauto using store_string_type_error, store_any_type_error.
Qed.

Lemma Target_fields_typed : typed Target_fields.
Proof.
  intros f Hin v cur e H. simpl in Hin.
  destruct Hin as [<-|[<-|[]]]; simpl in H; store_error H;
    eauto using store_string_type_error.
Qed.

Lemma HealAction_fields_typed : typed HealAction_fields.
Proof.
  intros f Hin v cur e H. simpl in Hin.
  destruct Hin as [<-|[<-|[<-|[<-|[<-|[<-|[<-|[<-|[<-|[]]]]]]]]]];
    simpl in H; store_error H;
    eauto using store_string_type_error.
  - eapply store_slice_type_error; [|eassumption].
    apply store_struct_type_error, PatchOp_fields_typed.
  - eapply store_struct_type_error; [apply Target_fields_typed | eassumption].
Qed.

(** Once the text has been decoded as JSON, decoding it into a
    HealAction fails with a type error only. *)
Lemma Unmarshal_HealAction_type_error jsonStr b e :
  Unmarshal_base jsonStr = OK b ->
  Unmarshal_HealAction jsonStr = Err e ->
  type_error e.
Proof.
  unfold Unmarshal_base, Unmarshal_HealAction, Unmarshal.
  destruct (parse jsonStr) as [v|]; [|discriminate].
  intros _. apply store_struct_type_error, HealAction_fields_typed.
Qed.

(** X27. Every error of [ParseAutoHealResponse] is of one of four
    kinds: the error of the first decoding wrapped as "parse base
    failed"; for action "heal", a type error of the second decoding
    wrapped as "json unmarshal failed", never a syntax error; an
    invalid risk level; an unknown action. A "noop" response yields no
    error. *)
Theorem ParseAutoHealResponse_errors :
  forall jsonStr e,
    ParseAutoHealResponse jsonStr = Err e ->
    (exists err,
        Unmarshal_base jsonStr = Err err
        /\ e = Errorf_w "parse base failed: " err)
    \/ (exists b val field,
          Unmarshal_base jsonStr = OK b
          /\ base_Action b = "heal"
          /\ Unmarshal_HealAction jsonStr = Err (UnmarshalTypeError val field)
          /\ e = Errorf_w "json unmarshal failed: " (UnmarshalTypeError val field))
    \/ (exists b heal,
          Unmarshal_base jsonStr = OK b
          /\ base_Action b = "heal"
          /\ Unmarshal_HealAction jsonStr = OK heal
          /\ ~ valid_risk_level (HealAction_RiskLevel heal)
          /\ e = errorString ("invalid risk_level: " ++ HealAction_RiskLevel heal))
    \/ (exists b,
          Unmarshal_base jsonStr = OK b
          /\ base_Action b <> "heal"
          /\ base_Action b <> "noop"
          /\ e = errorString ("unknown action: " ++ base_Action b)).
Proof.
  intros jsonStr e H. unfold ParseAutoHealResponse, ParseJSONTo in H.
  destruct (Unmarshal_base jsonStr) as [b|err] eqn:Hb.
  - destruct (String.eqb_spec (base_Action b) "heal") as [Hh|Hh].
    + destruct (Unmarshal_HealAction jsonStr) as [heal|err] eqn:Hd.
      * destruct (negb (String.eqb (HealAction_RiskLevel heal) "low")
                  && negb (String.eqb (HealAction_RiskLevel heal) "medium")
                  && negb (String.eqb (HealAction_RiskLevel heal) "high")) eqn:Hr;
          [|discriminate].
        right. right. left. exists b, heal. repeat split; try assumption.
        -- apply ResponseContract.risk_check_spec, Hr.
        -- inversion H. reflexivity.
      * right. left.
        destruct (Unmarshal_HealAction_type_error jsonStr b err Hb Hd) as (val & field & ->).
        exists b, val, field. repeat split; try assumption. inversion H. reflexivity.
    + destruct (String.eqb_spec (base_Action b) "noop") as [Hn|Hn].
      * rewrite (ResponseDecoding.Unmarshal_NoopAction_like_base jsonStr b Hb) in H.
        discriminate.
      * right. right. right. exists b. repeat split; try assumption.
        inversion H. reflexivity.
  - left. exists err. split; [reflexivity|]. inversion H. reflexivity.
Qed.

Lemma ParseAutoHealResponse_errors_witness :
  (exists err,
      Unmarshal_base action_ignore = Err err
      /\ errorString "unknown action: ignore" = Errorf_w "parse base failed: " err)
  \/ (exists b val field,
        Unmarshal_base action_ignore = OK b
        /\ base_Action b = "heal"
        /\ Unmarshal_HealAction action_ignore = Err (UnmarshalTypeError val field)
        /\ errorString "unknown action: ignore"
           = Errorf_w "json unmarshal failed: " (UnmarshalTypeError val field))
  \/ (exists b heal,
        Unmarshal_base action_ignore = OK b
        /\ base_Action b = "heal"
        /\ Unmarshal_HealAction action_ignore = OK heal
        /\ ~ valid_risk_level (HealAction_RiskLevel heal)
        /\ errorString "unknown action: ignore"
           = errorString ("invalid risk_level: " ++ HealAction_RiskLevel heal))
  \/ (exists b,
        Unmarshal_base action_ignore = OK b
        /\ base_Action b <> "heal"
        /\ base_Action b <> "noop"
        /\ errorString "unknown action: ignore"
           = errorString ("unknown action: " ++ base_Action b)).
Proof.
  apply (ParseAutoHealResponse_errors action_ignore). reflexivity.
Defined.

End ResponseErrors.
